(** * Portfolio site scripts: a model of [js/main.js] and
      [images/make_thumbnails.ps1]

    The page script is a set of singleton modules ([Modal], [Navigation],
    [Timeline], [AchievementModal], [PartnerModal], [KeyboardHandler],
    [LanguageSwitcher]) that register DOM listeners at start-up and then
    mutate class lists, a few element properties and their own fields.
    The model threads one [Page] value through every handler; a handler
    is a computation in the [JS] monad, which keeps the mutations made
    before an exception was thrown, as the browser does.

    The thumbnail script is modelled in [Module Thumbnails]. Definitions
    come first, properties after them. *)

From stdpp Require Import gmap strings list pretty.
From Stdlib Require Import Ascii ZArith QArith Qabs Qround Qminmax Lqa Lia.
From Stdlib Require Import Floats Uint63.

Open Scope Z_scope.

(** ** JavaScript values *)

(** Exceptions the script can run into: a property read on [null]
    ([TypeError]) and the two [DOMTokenList] validation errors. *)
Inductive exn := TypeError | SyntaxError | InvalidCharacterError.

(** Numbers. Every number the script handles is a small integer or [NaN]
    (the result of [parseInt] on a string without leading digits). *)
Inductive number := Int (z : Z) | NaN.

(** A value passed to [Timeline.zoomToSection]: a number (the literal [1],
    [currentSection - 1], [currentSection + 1]) or the content of a
    [data-section] attribute, a string, [undefined] when it is missing. *)
Inductive value := VNumber (n : number) | VString (s : string) | VUndefined.

#[global] Instance exn_eq_dec : EqDecision exn.
Proof. solve_decision. Defined.
#[global] Instance number_eq_dec : EqDecision number.
Proof. solve_decision. Defined.
#[global] Instance value_eq_dec : EqDecision value.
Proof. solve_decision. Defined.

(** Relational operators: any comparison with [NaN] is [false]. *)
Definition num_lt (a b : number) : bool :=
  match a, b with Int x, Int y => x <? y | _, _ => false end.
Definition num_le (a b : number) : bool :=
  match a, b with Int x, Int y => x <=? y | _, _ => false end.
Definition num_gt (a b : number) : bool := num_lt b a.
Definition num_ge (a b : number) : bool := num_le b a.
Definition num_add (a b : number) : number :=
  match a, b with Int x, Int y => Int (x + y) | _, _ => NaN end.
Definition num_sub (a b : number) : number :=
  match a, b with Int x, Int y => Int (x - y) | _, _ => NaN end.

(** [String(n)] for an integer or [NaN]. *)
Definition number_to_string (n : number) : string :=
  match n with Int z => pretty z | NaN => "NaN" end.

(** [ToString] as a template literal applies it. *)
Definition to_string (v : value) : string :=
  match v with
  | VNumber n => number_to_string n
  | VString s => s
  | VUndefined => "undefined"
  end.

(** ASCII white space: TAB, LF, VT, FF, CR and SPACE. (The non-ASCII white
    space of ECMAScript is not modelled.) *)
Definition is_whitespace (c : ascii) : bool :=
  let n := nat_of_ascii c in
  ((9 <=? n)%nat && (n <=? 13)%nat) || (n =? 32)%nat.

Definition digit_value (c : ascii) : option Z :=
  let n := nat_of_ascii c in
  if ((48 <=? n)%nat && (n <=? 57)%nat) then Some (Z.of_nat n - 48) else None.

Fixpoint skip_whitespace (s : string) : string :=
  match s with
  | String c s' => if is_whitespace c then skip_whitespace s' else s
  | EmptyString => s
  end.

(** Value of the longest prefix of decimal digits, [None] when it is empty.
    [acc] is the value of the digits read so far. *)
Fixpoint parse_digits (acc : option Z) (s : string) : option Z :=
  match s with
  | String c s' =>
      match digit_value c with
      | Some d => parse_digits (Some (10 * default 0 acc + d)) s'
      | None => acc
      end
  | EmptyString => acc
  end.

(** [parseInt(string, 10)]: leading white space is skipped, one sign is
    accepted, the longest prefix of digits is read, the rest is ignored;
    [NaN] when there is no digit. *)
Definition parseInt_string (s : string) : number :=
  let t := skip_whitespace s in
  let '(neg, body) :=
    match t with
    | String "-" r => (true, r)
    | String "+" r => (false, r)
    | _ => (false, t)
    end in
  match parse_digits None body with
  | Some v => Int (if (neg : bool) then - v else v)
  | None => NaN
  end.

(** [parseInt(v, 10)]. A number is first converted to a string; for an
    integer that reads back the same integer. *)
Definition parseInt (v : value) : number :=
  match v with
  | VNumber n => n
  | VString s => parseInt_string s
  | VUndefined => NaN
  end.

(** ** The document *)

(** What the script reads and writes on an element: its class list and the
    [disabled] and [checked] properties. *)
Record Element := mkElement {
  classList : gset string;
  disabled : bool;
  checked : bool
}.

(** An element carrying [data-i18n]: the key and the displayed text. *)
Record Translatable := mkTranslatable {
  dataset_i18n : string;
  textContent : string
}.

#[global] Instance Element_eq_dec : EqDecision Element.
Proof. solve_decision. Defined.
#[global] Instance Translatable_eq_dec : EqDecision Translatable.
Proof. solve_decision. Defined.

(** Listeners the modules register, named after the place that registers
    them. [Timeline_section_click i] is the listener on the [i]-th
    [.timeline-section-area]; [Modal_backdrop_click m],
    [Modal_closeButton_click m] and [Modal_content_click m] are those
    [Modal.setup] installs for the modal [m]. *)
Inductive Handler :=
  | Navigation_menuToggle_click
  | Navigation_overlay_click
  | Navigation_link_click
  | Timeline_resize
  | Timeline_section_click (i : nat)
  | Timeline_zoomOutBtn_click
  | Timeline_navPrev_click
  | Timeline_navNext_click
  | Timeline_svg_click
  | Timeline_keydown
  | Modal_backdrop_click (m : string)
  | Modal_closeButton_click (m : string)
  | Modal_content_click (m : string)
  | AchievementModal_carousel_click
  | PartnerModal_grid_click
  | KeyboardHandler_keydown
  | LanguageSwitcher_toggle_change.

#[global] Instance Handler_eq_dec : EqDecision Handler.
Proof. solve_decision. Defined.

(** The page: the window, the elements the script looks up (keyed by the
    selector it uses, [#id] or [.class]), the translatable elements and the
    section hot-zones in document order, the stored language preference,
    the registered listeners, the errors reported to the console, and the
    fields of the [Timeline] and [LanguageSwitcher] singletons.

    An element reference held by the script is the key of the element, or
    [None] for [null]; elements are never added to or removed from
    [elems], so a reference taken at start-up stays valid. The selectors
    of the script are taken to name distinct elements. *)
Record Page := mkPage {
  innerWidth : Z;
  body_overflow : string;
  html_lang : string;
  elems : gmap string Element;
  translatable : list Translatable;
  sectionAreas : list (option string);
  preferredLanguage : option string;
  listeners : list Handler;
  console : list exn;
  Timeline_container : option string;
  Timeline_currentSection : number;
  LanguageSwitcher_currentLang : string;
  LanguageSwitcher_toggle : option string;
  LanguageSwitcher_originalTexts : gmap string string
}.

(** Field updates. *)
Definition set_innerWidth (w : Z) (p : Page) : Page :=
  mkPage w (body_overflow p) (html_lang p) (elems p) (translatable p)
    (sectionAreas p) (preferredLanguage p) (listeners p) (console p)
    (Timeline_container p) (Timeline_currentSection p)
    (LanguageSwitcher_currentLang p) (LanguageSwitcher_toggle p)
    (LanguageSwitcher_originalTexts p).
Definition set_body_overflow (s : string) (p : Page) : Page :=
  mkPage (innerWidth p) s (html_lang p) (elems p) (translatable p)
    (sectionAreas p) (preferredLanguage p) (listeners p) (console p)
    (Timeline_container p) (Timeline_currentSection p)
    (LanguageSwitcher_currentLang p) (LanguageSwitcher_toggle p)
    (LanguageSwitcher_originalTexts p).
Definition set_html_lang (s : string) (p : Page) : Page :=
  mkPage (innerWidth p) (body_overflow p) s (elems p) (translatable p)
    (sectionAreas p) (preferredLanguage p) (listeners p) (console p)
    (Timeline_container p) (Timeline_currentSection p)
    (LanguageSwitcher_currentLang p) (LanguageSwitcher_toggle p)
    (LanguageSwitcher_originalTexts p).
Definition set_elems (m : gmap string Element) (p : Page) : Page :=
  mkPage (innerWidth p) (body_overflow p) (html_lang p) m (translatable p)
    (sectionAreas p) (preferredLanguage p) (listeners p) (console p)
    (Timeline_container p) (Timeline_currentSection p)
    (LanguageSwitcher_currentLang p) (LanguageSwitcher_toggle p)
    (LanguageSwitcher_originalTexts p).
Definition set_translatable (l : list Translatable) (p : Page) : Page :=
  mkPage (innerWidth p) (body_overflow p) (html_lang p) (elems p) l
    (sectionAreas p) (preferredLanguage p) (listeners p) (console p)
    (Timeline_container p) (Timeline_currentSection p)
    (LanguageSwitcher_currentLang p) (LanguageSwitcher_toggle p)
    (LanguageSwitcher_originalTexts p).
Definition set_preferredLanguage (o : option string) (p : Page) : Page :=
  mkPage (innerWidth p) (body_overflow p) (html_lang p) (elems p)
    (translatable p) (sectionAreas p) o (listeners p) (console p)
    (Timeline_container p) (Timeline_currentSection p)
    (LanguageSwitcher_currentLang p) (LanguageSwitcher_toggle p)
    (LanguageSwitcher_originalTexts p).
Definition set_listeners (l : list Handler) (p : Page) : Page :=
  mkPage (innerWidth p) (body_overflow p) (html_lang p) (elems p)
    (translatable p) (sectionAreas p) (preferredLanguage p) l (console p)
    (Timeline_container p) (Timeline_currentSection p)
    (LanguageSwitcher_currentLang p) (LanguageSwitcher_toggle p)
    (LanguageSwitcher_originalTexts p).
Definition set_console (l : list exn) (p : Page) : Page :=
  mkPage (innerWidth p) (body_overflow p) (html_lang p) (elems p)
    (translatable p) (sectionAreas p) (preferredLanguage p) (listeners p) l
    (Timeline_container p) (Timeline_currentSection p)
    (LanguageSwitcher_currentLang p) (LanguageSwitcher_toggle p)
    (LanguageSwitcher_originalTexts p).
Definition set_Timeline_container (r : option string) (p : Page) : Page :=
  mkPage (innerWidth p) (body_overflow p) (html_lang p) (elems p)
    (translatable p) (sectionAreas p) (preferredLanguage p) (listeners p)
    (console p) r (Timeline_currentSection p)
    (LanguageSwitcher_currentLang p) (LanguageSwitcher_toggle p)
    (LanguageSwitcher_originalTexts p).
Definition set_Timeline_currentSection (n : number) (p : Page) : Page :=
  mkPage (innerWidth p) (body_overflow p) (html_lang p) (elems p)
    (translatable p) (sectionAreas p) (preferredLanguage p) (listeners p)
    (console p) (Timeline_container p) n
    (LanguageSwitcher_currentLang p) (LanguageSwitcher_toggle p)
    (LanguageSwitcher_originalTexts p).
Definition set_currentLang (s : string) (p : Page) : Page :=
  mkPage (innerWidth p) (body_overflow p) (html_lang p) (elems p)
    (translatable p) (sectionAreas p) (preferredLanguage p) (listeners p)
    (console p) (Timeline_container p) (Timeline_currentSection p)
    s (LanguageSwitcher_toggle p) (LanguageSwitcher_originalTexts p).
Definition set_toggle (r : option string) (p : Page) : Page :=
  mkPage (innerWidth p) (body_overflow p) (html_lang p) (elems p)
    (translatable p) (sectionAreas p) (preferredLanguage p) (listeners p)
    (console p) (Timeline_container p) (Timeline_currentSection p)
    (LanguageSwitcher_currentLang p) r (LanguageSwitcher_originalTexts p).
Definition set_originalTexts (m : gmap string string) (p : Page) : Page :=
  mkPage (innerWidth p) (body_overflow p) (html_lang p) (elems p)
    (translatable p) (sectionAreas p) (preferredLanguage p) (listeners p)
    (console p) (Timeline_container p) (Timeline_currentSection p)
    (LanguageSwitcher_currentLang p) (LanguageSwitcher_toggle p) m.

(** ** Handlers as computations *)

(** How a piece of script ends: normally with a value, or by throwing. *)
Inductive completion (A : Type) := Normal (a : A) | Throw (e : exn).
Arguments Normal {A} a.
Arguments Throw {A} e.

(** A computation maps the page to the page it leaves behind and its
    completion. The page is returned in both cases: what was written
    before a [throw] stays written. *)
Definition JS (A : Type) : Type := Page -> Page * completion A.

Definition ret {A} (a : A) : JS A := fun p => (p, Normal a).
Definition throw {A} (e : exn) : JS A := fun p => (p, Throw e).
Definition bind {A B} (m : JS A) (k : A -> JS B) : JS B :=
  fun p => match m p with
           | (p', Normal a) => k a p'
           | (p', Throw e) => (p', Throw e)
           end.
Definition get : JS Page := fun p => (p, Normal p).
Definition modify (f : Page -> Page) : JS unit := fun p => (f p, Normal tt).

Declare Scope js_scope.
Delimit Scope js_scope with js.
Notation "x <- m ;; k" := (bind m (fun x => k))
  (at level 100, m at next level, right associativity) : js_scope.
Notation "m ;; k" := (bind m (fun _ => k))
  (at level 100, right associativity) : js_scope.
Notation "'when' b 'then' m" := (if b then m else ret tt)
  (at level 100, b at level 0, only parsing) : js_scope.
Open Scope js_scope.

(** [forEach]: run [f] on every item in order; a throw ends the loop. *)
Fixpoint forEach {A} (f : A -> JS unit) (l : list A) : JS unit :=
  match l with
  | [] => ret tt
  | x :: l' => f x ;; forEach f l'
  end.

(** The page a computation leaves behind. *)
Definition exec {A} (m : JS A) (p : Page) : Page := fst (m p).
(** Whether it threw. *)
Definition throws {A} (m : JS A) (p : Page) : option exn :=
  match snd (m p) with Normal _ => None | Throw e => Some e end.

(** ** DOM primitives *)

(** [document.getElementById] and [document.querySelector]: a reference to
    the element, [None] ([null]) when the page has none. *)
Definition lookup_element (sel : string) : JS (option string) :=
  fun p => (p, Normal (match elems p !! sel with
                       | Some _ => Some sel
                       | None => None
                       end)).
Definition getElementById (id : string) : JS (option string) :=
  lookup_element ("#" +:+ id).
Definition querySelector (sel : string) : JS (option string) :=
  lookup_element sel.

(** Reading a property of a reference: a [TypeError] on [null]. *)
Definition deref (r : option string) : JS (string * Element) :=
  fun p => match r with
           | Some h => match elems p !! h with
                       | Some el => (p, Normal (h, el))
                       | None => (p, Throw TypeError)
                       end
           | None => (p, Throw TypeError)
           end.

Definition store (h : string) (el : Element) : JS unit :=
  modify (fun p => set_elems (<[h := el]> (elems p)) p).

(** A [DOMTokenList] method first validates every token: the empty string
    is a [SyntaxError], a token with white space an
    [InvalidCharacterError]. *)
Fixpoint has_whitespace (s : string) : bool :=
  match s with
  | String c s' => is_whitespace c || has_whitespace s'
  | EmptyString => false
  end.

Fixpoint check_tokens (tokens : list string) : JS unit :=
  match tokens with
  | [] => ret tt
  | t :: ts =>
      if bool_decide (t = "") then throw SyntaxError
      else if has_whitespace t then throw InvalidCharacterError
      else check_tokens ts
  end.

Definition with_classes (el : Element) (c : gset string) : Element :=
  mkElement c (disabled el) (checked el).

Definition classList_contains (r : option string) (c : string) : JS bool :=
  x <- deref r ;; ret (bool_decide (c ∈ classList (snd x))).

Definition classList_add (r : option string) (tokens : list string) : JS unit :=
  x <- deref r ;;
  check_tokens tokens ;;
  store (fst x) (with_classes (snd x) (classList (snd x) ∪ list_to_set tokens)).

Definition classList_remove (r : option string) (tokens : list string) : JS unit :=
  x <- deref r ;;
  check_tokens tokens ;;
  store (fst x) (with_classes (snd x) (classList (snd x) ∖ list_to_set tokens)).

(** [classList.toggle(token, force)]: add when [force], else remove. *)
Definition classList_toggle (r : option string) (token : string) (force : bool)
  : JS unit :=
  if force then classList_add r [token] else classList_remove r [token].

Definition set_disabled (r : option string) (b : bool) : JS unit :=
  x <- deref r ;; store (fst x) (mkElement (classList (snd x)) b (checked (snd x))).
Definition set_checked (r : option string) (b : bool) : JS unit :=
  x <- deref r ;; store (fst x) (mkElement (classList (snd x)) (disabled (snd x)) b).
Definition get_checked (r : option string) : JS bool :=
  x <- deref r ;; ret (checked (snd x)).

(** [target.addEventListener(type, handler)]; the type is part of the
    handler's name. Listeners run in the order they were added. *)
Definition addEventListener (r : option string) (h : Handler) : JS unit :=
  deref r ;; modify (fun p => set_listeners (listeners p ++ [h]) p).
(** The same on [window] and [document], which are never [null]. *)
Definition addGlobalListener (h : Handler) : JS unit :=
  modify (fun p => set_listeners (listeners p ++ [h]) p).

Definition is_null (r : option string) : bool :=
  match r with Some _ => false | None => true end.

(** ** Modal utilities *)
Module Modal.

(** [close(modalElement)]: nothing on [null]; otherwise drop [active] and
    restore body scroll. *)
Definition close (modalElement : option string) : JS unit :=
  if is_null modalElement then ret tt
  else
    classList_remove modalElement ["active"] ;;
    modify (set_body_overflow "").

(** [open(modalElement)]. *)
Definition open (modalElement : option string) : JS unit :=
  if is_null modalElement then ret tt
  else
    classList_add modalElement ["active"] ;;
    modify (set_body_overflow "hidden").

(** [setup(modalElement, options)]: return at once on a [null] modal;
    otherwise the backdrop listener, the close-button listener when
    [options.closeButton] is given, and the content listener when
    [options.contentElement] is. *)
Definition setup (modalElement closeButton contentElement : option string)
  : JS unit :=
  match modalElement with
  | None => ret tt
  | Some m =>
      addEventListener modalElement (Modal_backdrop_click m) ;;
      (when (negb (is_null closeButton)) then
         addEventListener closeButton (Modal_closeButton_click m)) ;;
      when (negb (is_null contentElement)) then
        addEventListener contentElement (Modal_content_click m)
  end.

End Modal.

(** ** Navigation module *)
Module Navigation.

(** The element fields are evaluated once, when the object literal is
    built; an element never appears or disappears later, so looking the
    element up at each use gives the same reference. *)
Definition navbar : JS (option string) := getElementById "navbar".
Definition menuToggle : JS (option string) := getElementById "menuToggle".
Definition sidebarNav : JS (option string) := getElementById "sidebarNav".
Definition sidebarOverlay : JS (option string) := getElementById "sidebarOverlay".

Definition openSidebar : JS unit :=
  mt <- menuToggle ;; classList_add mt ["active"] ;;
  sn <- sidebarNav ;; classList_add sn ["active"] ;;
  so <- sidebarOverlay ;; classList_add so ["active"] ;;
  modify (set_body_overflow "hidden").

Definition closeSidebar : JS unit :=
  mt <- menuToggle ;; classList_remove mt ["active"] ;;
  sn <- sidebarNav ;; classList_remove sn ["active"] ;;
  so <- sidebarOverlay ;; classList_remove so ["active"] ;;
  modify (set_body_overflow "").

(** The click listener of the hamburger button. *)
Definition on_menuToggle_click : JS unit :=
  sn <- sidebarNav ;;
  active <- classList_contains sn "active" ;;
  if active then closeSidebar else openSidebar.

(** [initSidebar]: every receiver is used as it is. The listeners on the
    links of the sidebar are recorded as one. *)
Definition initSidebar : JS unit :=
  mt <- menuToggle ;; addEventListener mt Navigation_menuToggle_click ;;
  so <- sidebarOverlay ;; addEventListener so Navigation_overlay_click ;;
  sn <- sidebarNav ;; addEventListener sn Navigation_link_click.

(** [init]. [initNavbarScroll] and [initSmoothScroll] only register
    listeners on [window] and on the anchors found, and read no element
    at start-up; scrolling is not part of the model. *)
Definition init : JS unit := initSidebar.

(** [this.sidebarNav && this.sidebarNav.classList.contains('active')],
    as a truth value. *)
Definition isSidebarActive : JS bool :=
  sn <- sidebarNav ;;
  if is_null sn then ret false else classList_contains sn "active".

End Navigation.

(** ** Timeline module *)
Module Timeline.

Definition totalSections : number := Int 3.

Definition container : JS (option string) :=
  p <- get ;; ret (Timeline_container p).
Definition currentSection : JS number :=
  p <- get ;; ret (Timeline_currentSection p).

Definition isMobile : JS bool :=
  p <- get ;; ret (innerWidth p <=? 768).

Definition updateNavButtons : JS unit :=
  navPrev <- getElementById "timelineNavPrev" ;;
  navNext <- getElementById "timelineNavNext" ;;
  cur <- currentSection ;;
  set_disabled navPrev (num_le cur (Int 1)) ;;
  cur' <- currentSection ;;
  set_disabled navNext (num_ge cur' totalSections).

Definition zoomToSection (sectionNum : value) : JS unit :=
  modify (set_Timeline_currentSection (parseInt sectionNum)) ;;
  c <- container ;;
  classList_remove c ["zoom-section-1"; "zoom-section-2"; "zoom-section-3"] ;;
  c' <- container ;;
  classList_add c' ["zoomed"; "zoom-section-" +:+ to_string sectionNum] ;;
  updateNavButtons.

Definition zoomOut : JS unit :=
  mobile <- isMobile ;;
  if mobile then ret tt
  else
    c <- container ;;
    classList_remove c
      ["zoomed"; "zoom-section-1"; "zoom-section-2"; "zoom-section-3"] ;;
    updateNavButtons.

(** [this.container && this.container.classList.contains('zoomed')]. *)
Definition isZoomed : JS bool :=
  c <- container ;;
  if is_null c then ret false else classList_contains c "zoomed".

(** The [resize] listener. *)
Definition on_resize : JS unit :=
  mobile <- isMobile ;;
  c <- container ;;
  if mobile then
    zoomed <- classList_contains c "zoomed" ;;
    (when (negb zoomed) then zoomToSection (VNumber (Int 1))) ;;
    c' <- container ;;
    classList_add c' ["mobile-mode"]
  else
    mm <- classList_contains c "mobile-mode" ;;
    when mm then
      (zoomOut ;;
       c' <- container ;;
       classList_remove c' ["mobile-mode"]).

(** The click listener of a section hot-zone; [data] is its
    [dataset.section]. *)
Definition on_section_click (data : option string) : JS unit :=
  mobile <- isMobile ;;
  if mobile then ret tt
  else zoomToSection (match data with
                      | Some s => VString s
                      | None => VUndefined
                      end).

Definition on_navPrev_click : JS unit :=
  cur <- currentSection ;;
  when (num_gt cur (Int 1)) then
    zoomToSection (VNumber (num_sub cur (Int 1))).

Definition on_navNext_click : JS unit :=
  cur <- currentSection ;;
  when (num_lt cur totalSections) then
    zoomToSection (VNumber (num_add cur (Int 1))).

(** The click listener of the diagram; [onSection] tells whether the
    target lies within a hot-zone ([e.target.closest(...)]). *)
Definition on_svg_click (onSection : bool) : JS unit :=
  mobile <- isMobile ;;
  if mobile then ret tt
  else
    c <- container ;;
    zoomed <- classList_contains c "zoomed" ;;
    when (zoomed && negb onSection) then zoomOut.

(** The [keydown] listener on [document]. On a mobile width the test of
    the class list is short-circuited. *)
Definition on_keydown (key : string) : JS unit :=
  mobile <- isMobile ;;
  idle <- (if mobile then ret false
           else
             c <- container ;;
             zoomed <- classList_contains c "zoomed" ;;
             ret (negb zoomed)) ;;
  if idle then ret tt
  else
    cur <- currentSection ;;
    if bool_decide (key = "ArrowLeft") && num_gt cur (Int 1) then
      zoomToSection (VNumber (num_sub cur (Int 1)))
    else if bool_decide (key = "ArrowRight") && num_lt cur totalSections then
      zoomToSection (VNumber (num_add cur (Int 1)))
    else ret tt.

(** [setupInteractions]: looks the elements up, zooms to section 1 on a
    mobile width, then registers the listeners. Only the diagram is
    tested for [null]. *)
Definition setupInteractions : JS unit :=
  c <- getElementById "timelineContainer" ;;
  modify (set_Timeline_container c) ;;
  zoomOutBtn <- getElementById "timelineZoomOut" ;;
  p <- get ;;
  svg <- querySelector ".timeline-svg" ;;
  navPrev <- getElementById "timelineNavPrev" ;;
  navNext <- getElementById "timelineNavNext" ;;
  mobile <- isMobile ;;
  (when mobile then
     (zoomToSection (VNumber (Int 1)) ;;
      c' <- container ;;
      classList_add c' ["mobile-mode"])) ;;
  addGlobalListener Timeline_resize ;;
  forEach (fun i => addGlobalListener (Timeline_section_click i))
          (seq 0 (length (sectionAreas p))) ;;
  addEventListener zoomOutBtn Timeline_zoomOutBtn_click ;;
  addEventListener navPrev Timeline_navPrev_click ;;
  addEventListener navNext Timeline_navNext_click ;;
  (when (negb (is_null svg)) then addEventListener svg Timeline_svg_click) ;;
  addGlobalListener Timeline_keydown.

Definition init : JS unit := setupInteractions.

End Timeline.

(** ** Achievement modal *)
Module AchievementModal.

Definition modal : JS (option string) := getElementById "achievementModal".

(** [this.modal && this.modal.classList.contains('active')]. *)
Definition isActive : JS bool :=
  m <- modal ;;
  if is_null m then ret false else classList_contains m "active".

(** The delegated click listener of the carousel; [onCard] tells whether
    the target lies within an [.achievement-card]. The six text fields of
    the modal are written through unguarded look-ups; the texts
    themselves are not kept in the model. *)
Definition on_carousel_click (onCard : bool) : JS unit :=
  if negb onCard then ret tt
  else
    forEach (fun id => e <- getElementById id ;; deref e ;; ret tt)
            ["modalCategory"; "modalTitle"; "modalLocation"; "modalResult";
             "modalDescription"; "modalQuote"] ;;
    m <- modal ;;
    Modal.open m.

Definition init : JS unit :=
  closeBtn <- getElementById "modalClose" ;;
  carousel <- querySelector ".achievements-carousel" ;;
  m <- modal ;;
  Modal.setup m closeBtn None ;;
  when (negb (is_null carousel)) then
    addEventListener carousel AchievementModal_carousel_click.

End AchievementModal.

(** ** Partner modal *)
Module PartnerModal.

Definition modal : JS (option string) := getElementById "partnerModal".
Definition content : JS (option string) := getElementById "partnerModalContent".

Definition isActive : JS bool :=
  m <- modal ;;
  if is_null m then ret false else classList_contains m "active".

(** The delegated click listener of the partners grid. The clone of the
    card is put into [this.content], which is used unguarded. *)
Definition on_grid_click (onCard : bool) : JS unit :=
  if negb onCard then ret tt
  else
    c <- content ;; deref c ;;
    m <- modal ;;
    Modal.open m.

Definition init : JS unit :=
  closeBtn <- querySelector ".partner-modal-close" ;;
  grid <- querySelector ".partners-grid" ;;
  m <- modal ;;
  c <- content ;;
  Modal.setup m closeBtn c ;;
  when (negb (is_null grid)) then
    addEventListener grid PartnerModal_grid_click.

End PartnerModal.

(** ** Keyboard handler *)
Module KeyboardHandler.

(** The [keydown] listener: on Escape, the first branch whose test holds
    runs, in the order achievement modal, partner modal, sidebar,
    timeline. *)
Definition on_keydown (key : string) : JS unit :=
  if negb (bool_decide (key = "Escape")) then ret tt
  else
    a <- AchievementModal.isActive ;;
    if a then (m <- AchievementModal.modal ;; Modal.close m)
    else
      b <- PartnerModal.isActive ;;
      if b then (m <- PartnerModal.modal ;; Modal.close m)
      else
        s <- Navigation.isSidebarActive ;;
        if s then Navigation.closeSidebar
        else
          z <- Timeline.isZoomed ;;
          when z then Timeline.zoomOut.

Definition init : JS unit := addGlobalListener KeyboardHandler_keydown.

End KeyboardHandler.

(** ** Language switcher *)
Module LanguageSwitcher.

(** The line feed written [\n] in the script. *)
Definition LF : string := String (ascii_of_nat 10) EmptyString.

(** [translations.de]. *)
Definition translations_de : gmap string string :=
  list_to_map [
    ("nav.about",
     "Über mich");
    ("nav.achievements",
     "Erfolge");
    ("nav.journey",
     "Mein Weg");
    ("nav.contacts",
     "Kontakt");
    ("nav.partner",
     "Partner werden");
    ("hero.tagline",
     "Junge, aufstrebende Kickboxerin aus der Schweiz mit internationalen Erfolgen – ein Symbol für Talent, Disziplin und Ambition auf internationaler Ebene.");
    ("hero.badge.european",
     "Europameisterin");
    ("hero.badge.swiss",
     "2x Schweizer Meisterin");
    ("hero.badge.national",
     "Nationalmannschaft");
    ("hero.cta",
     "Sponsor werden");
    ("about.title",
     "Über Eva Tschanz-Eichar");
    ("about.text",
     "Beständigkeit, persönliches Wachstum, Lebensfreude sowie Respekt und Freundlichkeit gegenüber anderen stehen für mich an erster Stelle.");
    ("about.age",
     "Alter");
    ("about.age.value",
     "17 Jahre");
    ("about.nationality",
     "Nationalität");
    ("about.nationality.value",
     "Schweiz & Kanada");
    ("about.location",
     "Standort");
    ("about.location.value",
     "Bern, Schweiz");
    ("about.discipline",
     "Disziplin");
    ("about.gym",
     "Gym");
    ("about.competing",
     "Teilnahme an Wettkämpfen seit");
    ("about.cta",
     "→ Kontakt aufnehmen");
    ("achievements.title",
     "Erfolge");
    ("achievements.euro.category",
     "Europameisterschaft");
    ("achievements.euro.result",
     "3 Kämpfe, 3 Siege --> Goldmedaille");
    ("achievements.euro.preview",
     "9 Teilnehmerinnen in der Kategorie. Jeden Kampf dominiert und den Europatitel nach intensiver Vorbereitung geholt.");
    ("achievements.cups.category",
     "Internationale Wettkämpfe");
    ("achievements.cups.result",
     "Mehrere Goldmedaillen & Wachstum");
    ("achievements.cups.preview",
     "Sarajevo: Erste internationale Goldmedaille | Budapest: Dominanter Sieg | Antalya: TKO-Sieg, Kampf gegen Weltmeisterin | Jesolo: Lernerfahrung - Motivation zur Verbesserung");
    ("achievements.swiss.category",
     "Schweizer Meisterschaften");
    ("achievements.swiss.result",
     "Nationale Meisterin (WAKO & SCOS)");
    ("achievements.swiss.location",
     "Schweiz");
    ("achievements.swiss.preview",
     "WAKO: Dominanter Sieg auf nationaler Ebene | SCOS: Nach einem Jahr Qualifikationen fast alle gewonnen und einen klaren Sieg im Finale errungen");
    ("achievements.expand",
     "Klicken für mehr →");
    ("achievements.euro.title",
     "Europameisterschaft 2025");
    ("achievements.euro.location",
     "Jesolo, Italien");
    ("achievements.euro.description",
     "9 Teilnehmerinnen in der Kategorie. Jeden Kampf dominiert und den Titel geholt.");
    ("achievements.euro.quote",
     "Ich habe den ganzen Sommer für diesen Wettkampf trainiert. Ich bin nicht in die Ferien gefahren, sondern zu Hause geblieben und habe mehrmals am Tag trainiert. Ich habe mich stark auf meine Ernährung und Gesundheit konzentriert, alles gegeben und am Ende gewonnen.");
    ("achievements.cups.title",
     "Internationale Wettkämpfe 2025");
    ("achievements.cups.location",
     "Sarajevo, Ungarn, Türkei, Italien");
    ("achievements.cups.description",
     "European Cup Grand Prix (Sarajevo): Zwei harte Kämpfe im Turniers, gewann meine erste Goldmedaille in einem internationalen Wettkampf." +:+ LF +:+ LF +:+ "Weltcup Ungarn (Budapest): Dominanter Sieg gegen eine erfahrene Gegnerin, technische Überlegenheit und Kampfintelligenz gezeigt." +:+ LF +:+ LF +:+ "Weltcup Türkei (Antalya): Ersten Kampf durch TKO gewonnen. Zweiten Kampf gegen dieselbe Gegnerin aus Italien verloren - eine Weltmeisterin und Europameisterin, die selten verliert. Diese Niederlage hat noch mehr Feuer entfacht, härter zu arbeiten. Ziel: 2026 gegen sie gewinnen." +:+ LF +:+ LF +:+ "International Open (Jesolo): Meinen ersten internationalen Kampf nach Punkten verloren. Eine harte Lernerfahrung, die zur Motivation für Verbesserungen wurde.");
    ("achievements.swiss.title",
     "Schweizer Meisterschaften 2024");
    ("achievements.swiss.description",
     "WAKO Meisterschaften: Die Konkurrenz bei den Schweizer WAKO Meisterschaften dominiert, gute Technik und Kondition gezeigt." +:+ LF +:+ LF +:+ "SCOS Meisterschaften: Nach einem ganzen Jahr Qualifikationen, die meisten davon gewonnen, qualifizierte ich mich fürs Finale. Erziehlte einen klaren Sieg in den Meisterschaftsfinals.");
    ("timeline.title",
     "Der Weg nach vorne");
    ("timeline.section1",
     "Die bisherige Reise");
    ("timeline.section1.sub",
     "2021 - 2025");
    ("timeline.section2",
     "2026 Ziele");
    ("timeline.section2.sub",
     "Nächstes Kapitel");
    ("timeline.section3",
     "Langfristige Vision");
    ("timeline.section3.sub",
     "Der Traum");
    ("timeline.hint",
     "Klicke auf einen Abschnitt zum Vergrössern");
    ("budget.title",
     "Investitionsübersicht");
    ("budget.subtitle",
     "Ein transparenter Einblick in das, was es braucht, um auf höchstem Niveau im Kickboxen zu konkurrieren");
    ("budget.training",
     "Training & Coaching");
    ("budget.training.desc",
     "Mitgliedschaften, professionelles Athletiktraining");
    ("budget.competition",
     "Wettkampf & Reisen");
    ("budget.competition.desc",
     "Startgebühren, Flüge, Unterkunft für internationale Events");
    ("budget.equipment",
     "Ausrüstung");
    ("budget.equipment.desc",
     "Handschuhe, Schutzausrüstung, Trainingskleidung, Wettkampfkleidung");
    ("budget.nutrition",
     "Ernährung");
    ("budget.nutrition.desc",
     "Spezialisierter Ernährungsplan, Nahrungsergänzungsmittel");
    ("budget.camps",
     "Trainingscamps");
    ("budget.camps.desc",
     "Intensive Vorbereitungscamps mit Spitzentrainern im Ausland");
    ("budget.total",
     "Jährliche Investition");
    ("budget.summary.title",
     "Wohin deine Unterstützung geht");
    ("budget.summary.text1",
     "Jeder Franken wird direkt in Training, Wettkampf und Entwicklung investiert. Als Amateursportlerin balance ich meine sportliche Karriere mit Studium und Arbeit und widme jede verfügbare Ressource dem Ziel, die Spitze meines Sports zu erreichen.");
    ("budget.summary.text2",
     "Dein Sponsoring hilft, diese wesentlichen Kosten zu decken, damit ich mich auf das Wichtigste konzentrieren kann: die beste Kickboxerin zu werden, die ich sein kann, und die Schweiz auf der Weltbühne zu vertreten.");
    ("budget.cta",
     "→ Sponsoring besprechen");
    ("education.title",
     "Ausbildung & Ziele");
    ("education.text1",
     "Ausserhalb des Rings besuche ich das Sportgymnasium Neufeld in Bern mit dem Ziel, professionelle Kickboxerin zu werden, mit dem langfristigen Ziel, an den Olympischen Spielen teilzunehmen und Kämpferin in der Weltklasse-Kampforganisation ONE Championship zu werden.");
    ("education.text2",
     "Neben meinen sportlichen Ambitionen interessiere ich mich für ein Studium in Informatik oder Ingenieurwesen.");
    ("education.text3",
     "Ich habe den Schweizer J+S Leiterkurs abgeschlossen und trainiere Kinderkurse in meinem Gym.");
    ("education.text4",
     "Als Vorbild für junge Mädchen im Kampfsport möchte ich sie inspirieren, ihren eigenen Weg zu gehen und durch Disziplin und harte Arbeit Selbstvertrauen zu gewinnen.");
    ("kickboxing.title",
     "K1 Kickboxen");
    ("kickboxing.text1",
     "K1 Kickboxen ist eine der intensivsten Schlagkampfsportarten der Welt, die Techniken aus Muay Thai, Karate und westlichem Boxen zu einem schnellen, explosiven Kampfsport kombiniert.");
    ("kickboxing.text2",
     "Kämpfer nutzen Schläge, Tritte und Kniestösse, um Punkte zu sammeln oder Knockouts zu erzielen. Anders als bei Muay Thai sind Ellbogen nicht erlaubt und Clinchen ist begrenzt, was den Fokus auf dynamische Schlagaustausche legt.");
    ("kickboxing.text3",
     "Kämpfe bestehen aus drei 3-Minuten-Runden für Profis oder drei 2-Minuten-Runden für Amateure. Der Sieg kann durch Knockout, technischen Knockout (3 Niederschläge in einer Runde) oder Punktrichterentscheidung basierend auf effektiven Treffern, Schaden und Aggressivität erreicht werden.");
    ("kickboxing.text4",
     "K1 ist zu einem globalen Phänomen gewachsen mit grossen internationalen Wettkämpfen wie Europameisterschaften, Weltcups und Weltmeisterschaften, organisiert von Verbänden wie WAKO (World Association of Kickboxing Organizations).");
    ("values.title",
     "Wofür ich stehe");
    ("values.text",
     "Diese Grundwerte leiten alles, was ich tue - von frühmorgendlichen Trainingseinheiten bis hin zu Wettkämpfen auf internationaler Bühne. Sie prägen, wer ich als Sportlerin und als Mensch bin.");
    ("values.consistency",
     "Beständigkeit");
    ("values.consistency.desc",
     "Jeden Tag erscheinen, die Arbeit investieren und dem Prozess vertrauen");
    ("values.growth",
     "Wachstum");
    ("values.growth.desc",
     "Die beste Version meiner selbst werden, Tag für Tag");
    ("values.respect",
     "Respekt");
    ("values.respect.desc",
     "Jeden mit Freundlichkeit behandeln, im Ring und ausserhalb");
    ("values.inspiration",
     "Inspiration");
    ("values.inspiration.desc",
     "Ein Vorbild für junge Sportler sein, besonders für Mädchen im Kampfsport");
    ("sponsorship.title",
     "Partner einer Meisterin werden");
    ("sponsorship.intro",
     "Eine Investition in Eva verbindet deine Marke mit Beständigkeit, Wachstum, Respekt und Inspiration — die Grundlage wahrer Exzellenz.");
    ("sponsorship.content",
     "Authentischer Content");
    ("sponsorship.content.desc",
     "Wirkungsvoller Content aus Training, Wettkampf und dem täglichen Kampfleben");
    ("sponsorship.visibility",
     "Markensichtbarkeit");
    ("sponsorship.visibility.desc",
     "Starke Präsenz bei nationalen und internationalen K1- und Kickbox-Events");
    ("sponsorship.representation",
     "Konstante Repräsentation");
    ("sponsorship.representation.desc",
     "Vertretung deiner Marke in Training, Medien und auf sozialen Plattformen");
    ("sponsorship.ambassador",
     "Inspirierende Botschafterin");
    ("sponsorship.ambassador.desc",
     "Eine motivierte junge Athletin, die andere durch Kampfsport inspiriert");
    ("sponsorship.cta",
     "→ Sponsor werden");
    ("partners.title",
     "Aktuelle Partner");
    ("partners.edubily.desc",
     "Erstellung von ansprechendem Content zur Unterstützung ihrer Marke durch authentische, hochwertige Inhalte aus meiner sportlichen Reise.");
    ("partners.edubily.role",
     "Content Creator");
    ("partners.mcdonalds.desc",
     "Stolze Partnerschaft durch Sporthilfe, sie unterstützen meine sportliche Reise und ich halte während der Saison engen Kontakt.");
    ("partners.mcdonalds.role",
     "Athletenpartnerschaft via Sporthilfe");
    ("contact.title",
     "Lass uns verbinden");
    ("contact.text",
     "Interesse an Sponsoring-Möglichkeiten, Medienanfragen oder Zusammenarbeit? Melde dich und lass uns besprechen, wie wir zusammenarbeiten können.");
    ("contact.email",
     "E-Mail");
    ("footer.subtitle",
     "Schweizer Kickbox-Meisterin");
    ("footer.timeline",
     "Zeitachse");
    ("footer.education",
     "Ausbildung");
    ("footer.values",
     "Werte");
    ("footer.sponsorship",
     "Sponsoring");
    ("footer.partners",
     "Partner");
    ("footer.contact",
     "Kontakt")
  ].

(** A string is truthy when it is not empty; a missing property is
    [undefined], falsy. (Keys are taken not to name a member of
    [Object.prototype].) *)
Definition truthy (o : option string) : bool :=
  match o with
  | Some s => negb (bool_decide (s = ""))
  | None => false
  end.

(** [storeOriginalTexts]: [originalTexts[key] = el.textContent] for each
    translatable element in document order; a later element with the
    same key overwrites the entry. *)
Definition storeOriginalTexts : JS unit :=
  p <- get ;;
  forEach (fun el =>
             modify (fun q =>
               set_originalTexts
                 (<[dataset_i18n el := textContent el]>
                    (LanguageSwitcher_originalTexts q)) q))
          (translatable p).

(** The body of the [forEach] of [switchLanguage] on one element. *)
Definition translate (lang : string) (originalTexts : gmap string string)
    (el : Translatable) : Translatable :=
  let key := dataset_i18n el in
  if bool_decide (lang = "de") && truthy (translations_de !! key) then
    mkTranslatable key (default "" (translations_de !! key))
  else if bool_decide (lang = "en") && truthy (originalTexts !! key) then
    mkTranslatable key (default "" (originalTexts !! key))
  else el.

Definition switchLanguage (lang : string) : JS unit :=
  modify (set_currentLang lang) ;;
  en <- querySelector ".lang-en" ;;
  classList_toggle en "active" (bool_decide (lang = "en")) ;;
  de <- querySelector ".lang-de" ;;
  classList_toggle de "active" (bool_decide (lang = "de")) ;;
  modify (fun p =>
    set_translatable
      (map (translate lang (LanguageSwitcher_originalTexts p))
           (translatable p)) p) ;;
  modify (set_html_lang lang).

(** The [change] listener of the toggle. *)
Definition on_toggle_change : JS unit :=
  p <- get ;;
  isDe <- get_checked (LanguageSwitcher_toggle p) ;;
  let newLang := if (isDe : bool) then "de" else "en" in
  switchLanguage newLang ;;
  modify (set_preferredLanguage (Some newLang)).

Definition init : JS unit :=
  t <- getElementById "langToggle" ;;
  modify (set_toggle t) ;;
  if is_null t then ret tt
  else
    storeOriginalTexts ;;
    p <- get ;;
    (when (bool_decide (preferredLanguage p = Some "de")) then
       (set_checked t true ;; switchLanguage "de")) ;;
    addEventListener t LanguageSwitcher_toggle_change.

End LanguageSwitcher.

(** ** Start-up and event dispatch *)

(** [init()]: the modules in the order of the script. ([ScrollEffects]
    only observes elements for the reveal animation.) An exception leaves
    the later modules uninitialised. *)
Definition init : JS unit :=
  Navigation.init ;;
  Timeline.init ;;
  AchievementModal.init ;;
  PartnerModal.init ;;
  KeyboardHandler.init ;;
  LanguageSwitcher.init.

(** What the user and the browser do to the page. [ClickSection i] is a
    click on the [i]-th hot-zone, [ClickSvg] one on the diagram outside
    every hot-zone, [ClickBackdrop m] one directly on the modal [m],
    [ClickContent m] one inside its content, [ChangeToggle] a flip of the
    language checkbox. A click is delivered whether or not the control is
    [disabled]: the model has more deliveries than a browser, never
    fewer. *)
Inductive Event :=
  | Resize (w : Z)
  | KeyDown (key : string)
  | ClickMenuToggle
  | ClickOverlay
  | ClickSidebarLink
  | ClickSection (i : nat)
  | ClickZoomOut
  | ClickNavPrev
  | ClickNavNext
  | ClickSvg
  | ClickBackdrop (m : string)
  | ClickCloseButton (m : string)
  | ClickContent (m : string)
  | ClickAchievementCard
  | ClickPartnerCard
  | ChangeToggle.

(** Which listeners an event reaches. A click on a hot-zone on a desktop
    width stops its propagation; on a mobile width it would go on to the
    diagram's listener, which returns at once there. A click inside the
    content of a modal, or on its close button, stops at that listener. *)
Definition fires (e : Event) (h : Handler) : bool :=
  match e, h with
  | Resize _, Timeline_resize => true
  | KeyDown _, Timeline_keydown => true
  | KeyDown _, KeyboardHandler_keydown => true
  | ClickMenuToggle, Navigation_menuToggle_click => true
  | ClickOverlay, Navigation_overlay_click => true
  | ClickSidebarLink, Navigation_link_click => true
  | ClickSection i, Timeline_section_click j => bool_decide (i = j)
  | ClickZoomOut, Timeline_zoomOutBtn_click => true
  | ClickNavPrev, Timeline_navPrev_click => true
  | ClickNavNext, Timeline_navNext_click => true
  | ClickSvg, Timeline_svg_click => true
  | ClickBackdrop m, Modal_backdrop_click m' => bool_decide (m = m')
  | ClickCloseButton m, Modal_closeButton_click m' => bool_decide (m = m')
  | ClickContent m, Modal_content_click m' => bool_decide (m = m')
  | ClickAchievementCard, AchievementModal_carousel_click => true
  | ClickPartnerCard, PartnerModal_grid_click => true
  | ChangeToggle, LanguageSwitcher_toggle_change => true
  | _, _ => false
  end.

(** The body of each listener. (A listener on a hot-zone the page does not
    have cannot be registered; its body is given as empty.) *)
Definition handler (e : Event) (h : Handler) : JS unit :=
  match h with
  | Navigation_menuToggle_click => Navigation.on_menuToggle_click
  | Navigation_overlay_click => Navigation.closeSidebar
  | Navigation_link_click => Navigation.closeSidebar
  | Timeline_resize => Timeline.on_resize
  | Timeline_section_click i =>
      p <- get ;;
      match sectionAreas p !! i with
      | Some data => Timeline.on_section_click data
      | None => ret tt
      end
  | Timeline_zoomOutBtn_click => Timeline.zoomOut
  | Timeline_navPrev_click => Timeline.on_navPrev_click
  | Timeline_navNext_click => Timeline.on_navNext_click
  | Timeline_svg_click => Timeline.on_svg_click false
  | Timeline_keydown =>
      Timeline.on_keydown (match e with KeyDown k => k | _ => "" end)
  | Modal_backdrop_click m => Modal.close (Some m)
  | Modal_closeButton_click m => Modal.close (Some m)
  | Modal_content_click m => ret tt
  | AchievementModal_carousel_click => AchievementModal.on_carousel_click true
  | PartnerModal_grid_click => PartnerModal.on_grid_click true
  | KeyboardHandler_keydown =>
      KeyboardHandler.on_keydown (match e with KeyDown k => k | _ => "" end)
  | LanguageSwitcher_toggle_change => LanguageSwitcher.on_toggle_change
  end.

(** An exception that leaves a listener, or the script, is reported to the
    console. *)
Definition report {A} (m : JS A) (p : Page) : Page :=
  match m p with
  | (p', Normal _) => p'
  | (p', Throw x) => set_console (console p' ++ [x]) p'
  end.

(** What the browser does itself before the listeners run: a resize
    changes [window.innerWidth], a flip of the checkbox its [checked]. *)
Definition default_action (e : Event) (p : Page) : Page :=
  match e with
  | Resize w => set_innerWidth w p
  | ChangeToggle =>
      match LanguageSwitcher_toggle p with
      | Some t =>
          match elems p !! t with
          | Some el =>
              set_elems
                (<[t := mkElement (classList el) (disabled el)
                          (negb (checked el))]> (elems p)) p
          | None => p
          end
      | None => p
      end
  | _ => p
  end.

(** The listeners an event reaches, in registration order. *)
Definition listening (e : Event) (p : Page) : list Handler :=
  filter (fun h => fires e h = true) (listeners p).

(** One event: the listeners it reaches run in registration order, each
    to completion; one that throws does not stop the next. *)
Definition dispatch (p : Page) (e : Event) : Page :=
  let p0 := default_action e p in
  fold_left (fun q h => report (handler e h) q) (listening e p0) p0.

Definition run (p : Page) (es : list Event) : Page := fold_left dispatch es p.

(** The state of the script before [init()] runs: no listener, nothing on
    the console, the fields of the singletons at their initial values. *)
Definition fresh (p : Page) : Page :=
  mkPage (innerWidth p) (body_overflow p) (html_lang p) (elems p)
    (translatable p) (sectionAreas p) (preferredLanguage p) [] []
    None (Int 1) "en" None ∅.

(** Loading the page: the script runs once. *)
Definition load (p : Page) : Page := report init (fresh p).

(** ** A concrete page

    Every element the script looks up, with empty class lists; three
    hot-zones; a few translatable elements. *)
Definition blank : Element := mkElement ∅ false false.

Definition all_selectors : list string :=
  ["#navbar"; "#menuToggle"; "#sidebarNav"; "#sidebarOverlay";
   "#timelineContainer"; "#timelineZoomOut"; "#timelineNavPrev";
   "#timelineNavNext"; ".timeline-svg";
   "#achievementModal"; "#modalClose"; ".achievements-carousel";
   "#modalCategory"; "#modalTitle"; "#modalLocation"; "#modalResult";
   "#modalDescription"; "#modalQuote";
   "#partnerModal"; "#partnerModalContent"; ".partner-modal-close";
   ".partners-grid"; "#langToggle"; ".lang-en"; ".lang-de"].

Definition sample_texts : list Translatable :=
  [mkTranslatable "nav.about" "About";
   mkTranslatable "hero.cta" "Become a Sponsor";
   mkTranslatable "about.gym" "Gym";
   mkTranslatable "gallery.title" "Gallery"].

Definition document_at (width : Z) : Page :=
  mkPage width "" "en"
    (list_to_map (map (fun s => (s, blank)) all_selectors))
    sample_texts [Some "1"; Some "2"; Some "3"] None [] []
    None (Int 1) "en" None ∅.

Definition desktop_page : Page := load (document_at 1280).
Definition mobile_page : Page := load (document_at 390).

(** ** Views of the page used to state properties *)

(** Class list of an element, empty when the page has none. *)
Definition classes_of (sel : string) (p : Page) : gset string :=
  match elems p !! sel with
  | Some el => classList el
  | None => ∅
  end.

(** Class list of the timeline container the module holds. *)
Definition container_classes (p : Page) : gset string :=
  match Timeline_container p with
  | Some h => classes_of h p
  | None => ∅
  end.

Definition section_class (k : Z) : string := "zoom-section-" +:+ pretty k.

(** The section markers the container carries, among the three. *)
Definition markers (p : Page) : list Z :=
  filter (fun k => section_class k ∈ container_classes p) [1; 2; 3].

(** The states of the timeline widget. *)
Inductive TimelineState := Idle | Zoomed (n : Z).

#[global] Instance TimelineState_eq_dec : EqDecision TimelineState.
Proof. solve_decision. Defined.

(** The state the page shows: [Zoomed n] when the container is [zoomed],
    carries the marker of section [n] and no other, and [currentSection]
    is [n]; [Idle] when it is not [zoomed] and carries no marker; [None]
    for any other combination. *)
Definition timeline_state (p : Page) : option TimelineState :=
  if bool_decide ("zoomed" ∈ container_classes p) then
    match markers p, Timeline_currentSection p with
    | [k], Int n => if bool_decide (k = n) then Some (Zoomed n) else None
    | _, _ => None
    end
  else
    match markers p with
    | [] => Some Idle
    | _ => None
    end.

Definition mobile_mode (p : Page) : bool :=
  bool_decide ("mobile-mode" ∈ container_classes p).

Definition is_mobile (p : Page) : bool := innerWidth p <=? 768.

(** The timeline is wired: the module holds the container, and the
    container and the two navigation buttons exist. *)
Definition timeline_wired (p : Page) : Prop :=
  Timeline_container p = Some "#timelineContainer" ∧
  is_Some (elems p !! "#timelineContainer") ∧
  is_Some (elems p !! "#timelineNavPrev") ∧
  is_Some (elems p !! "#timelineNavNext").

#[global] Instance timeline_wired_dec p : Decision (timeline_wired p).
Proof. unfold timeline_wired. apply _. Defined.

(** The four contexts Escape can close, in the order the handler tests
    them, each with whether it is open. *)
Definition active (sel : string) (p : Page) : bool :=
  bool_decide ("active" ∈ classes_of sel p).

Definition open_contexts (p : Page) : list bool :=
  [active "#achievementModal" p;
   active "#partnerModal" p;
   active "#sidebarNav" p;
   bool_decide ("zoomed" ∈ container_classes p)].

(** Closing the first open context of a list. *)
Fixpoint close_first (l : list bool) : list bool :=
  match l with
  | [] => []
  | true :: l' => false :: l'
  | false :: l' => false :: close_first l'
  end.

Definition sidebar_wired (p : Page) : Prop :=
  is_Some (elems p !! "#menuToggle") ∧
  is_Some (elems p !! "#sidebarNav") ∧
  is_Some (elems p !! "#sidebarOverlay").

#[global] Instance sidebar_wired_dec p : Decision (sidebar_wired p).
Proof. unfold sidebar_wired. apply _. Defined.

(** [currentSection] is one of the three section numbers. *)
Definition section_in_range (p : Page) : bool :=
  match Timeline_currentSection p with
  | Int z => (1 <=? z) && (z <=? 3)
  | NaN => false
  end.

(** The requests of the previous and next controls and of the arrow keys. *)
Definition nav_request (e : Event) : bool :=
  match e with
  | ClickNavPrev | ClickNavNext => true
  | KeyDown k => bool_decide (k = "ArrowLeft") || bool_decide (k = "ArrowRight")
  | _ => false
  end.

(** A value names section [n]: it parses to [n] and prints as [n]. *)
Definition names_section (v : value) (n : Z) : Prop :=
  parseInt v = Int n ∧ to_string v = pretty n ∧ 1 <= n <= 3.

(** Every hot-zone carries [data-section] 1, 2 or 3. *)
Definition valid_sections (p : Page) : Prop :=
  Forall (fun d => d ∈ [Some "1"; Some "2"; Some "3"]) (sectionAreas p).

#[global] Instance valid_sections_dec p : Decision (valid_sections p).
Proof. unfold valid_sections. apply _. Defined.

(** A token a [DOMTokenList] method accepts. *)
Definition token_ok (t : string) : bool :=
  negb (bool_decide (t = "")) && negb (has_whitespace t).

(** [upd sel f p]: the element [sel] replaced by its image under [f]; the
    page itself when there is no such element. *)
Definition upd (sel : string) (f : Element -> Element) (p : Page) : Page :=
  match elems p !! sel with
  | Some el => set_elems (<[sel := f el]> (elems p)) p
  | None => p
  end.

Definition add_classes (tokens : list string) (el : Element) : Element :=
  with_classes el (classList el ∪ list_to_set tokens).
Definition remove_classes (tokens : list string) (el : Element) : Element :=
  with_classes el (classList el ∖ list_to_set tokens).
Definition with_disabled (b : bool) (el : Element) : Element :=
  mkElement (classList el) b (checked el).

Definition zoom_tokens : list string :=
  ["zoom-section-1"; "zoom-section-2"; "zoom-section-3"].

(** The page [updateNavButtons] leaves when both buttons exist. *)
Definition nav_updated (p : Page) : Page :=
  upd "#timelineNavNext"
    (with_disabled (num_ge (Timeline_currentSection p) Timeline.totalSections))
    (upd "#timelineNavPrev"
       (with_disabled (num_le (Timeline_currentSection p) (Int 1))) p).

(** The page [zoomToSection v] leaves on a wired page. *)
Definition zoomed_to (v : value) (p : Page) : Page :=
  nav_updated
    (upd "#timelineContainer"
       (add_classes ["zoomed"; "zoom-section-" +:+ to_string v])
       (upd "#timelineContainer" (remove_classes zoom_tokens)
          (set_Timeline_currentSection (parseInt v) p))).

(** The page [zoomOut] leaves on a wired page of desktop width. *)
Definition zoomed_out (p : Page) : Page :=
  nav_updated
    (upd "#timelineContainer" (remove_classes ("zoomed" :: zoom_tokens)) p).

(** Two pages with the same timeline: the same container reference,
    current section and hot-zones, the same elements present, and a
    container that agrees on [zoomed] and on the three section markers. *)
Definition same_timeline (p q : Page) : Prop :=
  Timeline_container q = Timeline_container p ∧
  Timeline_currentSection q = Timeline_currentSection p ∧
  sectionAreas q = sectionAreas p ∧
  (∀ sel, is_Some (elems q !! sel) ↔ is_Some (elems p !! sel)) ∧
  (∀ c, c ∈ "zoomed" :: zoom_tokens →
        c ∈ container_classes q ↔ c ∈ container_classes p).

(** A computation that leaves the timeline as it is, whether or not it
    throws. *)
Definition frame {A} (m : JS A) : Prop := ∀ p, same_timeline p (exec m p).

(** A computation that keeps a property of the page. *)
Definition keeps {A} (I : Page -> Prop) (m : JS A) : Prop :=
  ∀ p, I p → I (exec m p).

(** The invariant of the timeline: it is wired, the hot-zones name the
    three sections, [currentSection] is one of them, and the classes of
    the container show a state of the widget. *)
Definition timeline_inv (p : Page) : Prop :=
  timeline_wired p ∧ valid_sections p ∧ section_in_range p = true ∧
  is_Some (timeline_state p).

#[global] Instance timeline_inv_dec p : Decision (timeline_inv p).
Proof. unfold timeline_inv. apply _. Defined.

(** Wired, and [currentSection] one of the three sections. *)
Definition nav_inv (p : Page) : Prop :=
  timeline_wired p ∧ section_in_range p = true.

(** The claim on the markers, in its own terms: at most one of the three
    section classes; with [zoomed], exactly the one of [currentSection];
    without, none. *)
Definition markers_consistent (p : Page) : Prop :=
  (length (markers p) <= 1)%nat ∧
  ("zoomed" ∈ container_classes p →
   ∃ n, Timeline_currentSection p = Int n ∧ markers p = [n]) ∧
  ("zoomed" ∉ container_classes p → markers p = []).

(** The document has the three elements the timeline needs. *)
Definition timeline_elements (d : Page) : Prop :=
  is_Some (elems d !! "#timelineContainer") ∧
  is_Some (elems d !! "#timelineNavPrev") ∧
  is_Some (elems d !! "#timelineNavNext").

#[global] Instance timeline_elements_dec d : Decision (timeline_elements d).
Proof. unfold timeline_elements. apply _. Defined.

(** The container is authored without [zoomed] and without a section
    marker. *)
Definition authored_idle (d : Page) : Prop :=
  Forall (fun c => c ∉ classes_of "#timelineContainer" d)
         ("zoomed" :: zoom_tokens).

#[global] Instance authored_idle_dec d : Decision (authored_idle d).
Proof. unfold authored_idle. apply _. Defined.

#[global] Typeclasses Opaque timeline_wired sidebar_wired valid_sections
  timeline_inv timeline_elements authored_idle.

(** * The thumbnail script *)
Module Thumbnails.

(** ** Arithmetic of the script

    [$MaxSize / $image.Width] and [$image.Width * $ratio] are double
    operations (PowerShell gives an [Int32] only when a quotient of
    integers is exact). A double is modelled by the rational it denotes,
    and the two operations by any functions that obey the standard model
    of floating-point arithmetic: the result is the exact one up to a
    relative error of at most [2^-53]. IEEE binary64 division and
    multiplication do so on the operands met here, which are far from
    overflow and underflow; so does exact arithmetic. *)
Record FloatOps := mkFloatOps {
  fdiv : Q -> Q -> Q;
  fmul : Q -> Q -> Q
}.

Definition unit_roundoff : Q := 1 # 9007199254740992.

Definition standard_model (F : FloatOps) : Prop :=
  (∀ a b : Q, (0 < b)%Q →
     (Qabs (fdiv F a b - a / b) <= unit_roundoff * Qabs (a / b))%Q) ∧
  (∀ a b : Q,
     (Qabs (fmul F a b - a * b) <= unit_roundoff * Qabs (a * b))%Q).

Definition exact : FloatOps := mkFloatOps Qdiv Qmult.

(** The cast [[int]]: to the nearest integer, a tie to the even one; out
    of the range of [Int32] it throws. *)
Definition round_half_even (x : Q) : Z :=
  let f := Qfloor x in
  match (x - inject_Z f ?= 1 # 2)%Q with
  | Lt => f
  | Gt => f + 1
  | Eq => if Z.even f then f else f + 1
  end.

Definition to_int32 (x : Q) : option Z :=
  let n := round_half_even x in
  if (-2147483648 <=? n) && (n <=? 2147483647) then Some n else None.

(** The same operations on the machine's binary64 numbers, for checking
    a computation as the machine does it. [of_int] converts an [Int32]
    (exactly); [to_Q] reads a finite double as the rational it denotes. *)
Definition of_int (z : Z) : float := PrimFloat.of_uint63 (Uint63.of_Z z).

Definition to_Q (f : float) : option Q :=
  match Prim2SF f with
  | S754_zero _ => Some 0%Q
  | S754_finite s m e =>
      let v := (if e <? 0 then Z.pos m # Pos.pow 2 (Z.to_pos (- e))
                else inject_Z (Z.pos m * 2 ^ e))%Q in
      Some (if s then (- v)%Q else v)
  | _ => None
  end.

(** ** Configuration *)
Definition ThumbDir : string := "thumbnails".
Definition MaxSize : Z := 300.

(** [$ratio]: the smaller of [$MaxSize / Width] and [$MaxSize / Height]. *)
Definition ratio (F : FloatOps) (width height : Z) : Q :=
  Qmin (fdiv F (inject_Z MaxSize) (inject_Z width))
       (fdiv F (inject_Z MaxSize) (inject_Z height)).

(** [$newWidth] and [$newHeight]; [None] when a cast throws. *)
Definition new_size (F : FloatOps) (width height : Z) : option (Z * Z) :=
  match to_int32 (fmul F (inject_Z width) (ratio F width height)),
        to_int32 (fmul F (inject_Z height) (ratio F width height)) with
  | Some newWidth, Some newHeight => Some (newWidth, newHeight)
  | _, _ => None
  end.

(** [$newWidth] and [$newHeight] in binary64 arithmetic, for a width and
    a height that are not zero. *)
Definition new_size_binary64 (width height : Z) : option (Z * Z) :=
  let ratioX := PrimFloat.div (of_int MaxSize) (of_int width) in
  let ratioY := PrimFloat.div (of_int MaxSize) (of_int height) in
  let ratio := if PrimFloat.ltb ratioY ratioX then ratioY else ratioX in
  match to_Q (PrimFloat.mul (of_int width) ratio),
        to_Q (PrimFloat.mul (of_int height) ratio) with
  | Some x, Some y =>
      match to_int32 x, to_int32 y with
      | Some newWidth, Some newHeight => Some (newWidth, newHeight)
      | _, _ => None
      end
  | _, _ => None
  end.

(** ** The files *)

(** What reading and decoding a file gives: an I/O error, a decoding
    error, or an image of some width and height. *)
Inductive Source :=
  | Unreadable (message : string)
  | Undecodable (message : string)
  | Image (width height : Z).

(** A file of the listing: its name and modification time, the
    modification time of its thumbnail when there is one, its content, and
    the error saving its thumbnail would meet, if any. *)
Record ImageFile := mkImageFile {
  Name : string;
  LastWriteTime : Z;
  thumbnailTime : option Z;
  source : Source;
  saveError : option string
}.

(** The state of a run: [$count], the lines written to the host, and the
    thumbnails saved, each with its size, in order. *)
Record Run := mkRun {
  count : Z;
  host : list string;
  saved : list (string * (Z * Z))
}.

Definition Write_Host (line : string) (r : Run) : Run :=
  mkRun (count r) (host r ++ [line]) (saved r).

(** [Join-Path (Join-Path $ScriptDir $ThumbDir) "thumb_$filename"]. *)
Definition thumbPath (scriptDir filename : string) : string :=
  scriptDir +:+ "\" +:+ ThumbDir +:+ "\" +:+ "thumb_" +:+ filename.

(** The test that skips a file: the thumbnail exists and is newer than
    the source. *)
Definition up_to_date (img : ImageFile) : bool :=
  match thumbnailTime img with
  | Some t => LastWriteTime img <? t
  | None => false
  end.

(** The body of [try]: the size of the thumbnail saved, or the message of
    the first exception. A zero dimension makes the division throw; the
    [Bitmap] constructor refuses a size that is not positive. (For the
    three exceptions the computation itself can raise the message is the
    one of .NET; the shell may wrap it, and nothing below depends on its
    text.) *)
Definition try_body (F : FloatOps) (img : ImageFile) : string + (Z * Z) :=
  match source img with
  | Unreadable message => inl message
  | Undecodable message => inl message
  | Image width height =>
      if (width =? 0) || (height =? 0) then inl "Attempted to divide by zero."
      else
        match new_size F width height with
        | None => inl "Value was either too large or too small for an Int32."
        | Some (newWidth, newHeight) =>
            if (newWidth <=? 0) || (newHeight <=? 0)
            then inl "Parameter is not valid."
            else
              match saveError img with
              | Some message => inl message
              | None => inr (newWidth, newHeight)
              end
        end
  end.

(** One turn of the [foreach] loop. *)
Definition process (F : FloatOps) (scriptDir : string) (r : Run)
    (img : ImageFile) : Run :=
  let filename := Name img in
  if up_to_date img then
    Write_Host ("Skipping " +:+ filename +:+ " (thumbnail up to date)") r
  else
    let r1 := Write_Host ("Creating thumbnail for: " +:+ filename) r in
    match try_body F img with
    | inr size =>
        mkRun (count r1 + 1) (host r1)
              (saved r1 ++ [(thumbPath scriptDir filename, size)])
    | inl message =>
        Write_Host ("  Error processing " +:+ filename +:+ " : " +:+ message) r1
    end.

Definition summary (n : Z) : string :=
  "Done! Created " +:+ pretty n +:+ " thumbnail(s) in '" +:+ ThumbDir +:+ "/'".

(** The [foreach] loop from a given state. *)
Definition loop (F : FloatOps) (scriptDir : string) (imageFiles : list ImageFile)
    (r : Run) : Run :=
  fold_left (process F scriptDir) imageFiles r.

(** The script on a listing. *)
Definition main (F : FloatOps) (scriptDir : string) (imageFiles : list ImageFile)
  : Run :=
  let r := loop F scriptDir imageFiles (mkRun 0 [] []) in
  Write_Host (summary (count r)) (Write_Host "" r).

(** A thumbnail was produced for the file. *)
Definition produced (F : FloatOps) (img : ImageFile) : bool :=
  negb (up_to_date img) &&
  match try_body F img with inr _ => true | inl _ => false end.

(** The file was tried and failed with this message. *)
Definition failed (F : FloatOps) (img : ImageFile) (message : string) : Prop :=
  up_to_date img = false ∧ try_body F img = inl message.

Definition sample_files : list ImageFile :=
  [mkImageFile "a.jpg" 10 None (Image 1200 800) None;
   mkImageFile "b.png" 10 None (Undecodable "Parameter is not valid.") None;
   mkImageFile "c.gif" 10 (Some 20) (Image 640 480) None;
   mkImageFile "d.jpg" 10 (Some 5) (Image 100 50)
     (Some "A generic error occurred in GDI+.");
   mkImageFile "e.JPG" 10 None (Image 50 100) None].

End Thumbnails.

(** * Further parts of the page script *)

(** ** Relations between the pages before and after a computation *)

(** A computation that relates every page to the one it leaves, whether
    or not it throws. *)
Definition respects {A} (R : Page -> Page -> Prop) (m : JS A) : Prop :=
  ∀ p, R p (exec m p).

(** The same wiring: listeners, width, hot-zones, the container the
    timeline holds, and the elements present. *)
Definition same_static (p q : Page) : Prop :=
  listeners q = listeners p ∧
  innerWidth q = innerWidth p ∧
  sectionAreas q = sectionAreas p ∧
  Timeline_container q = Timeline_container p ∧
  (∀ sel, is_Some (elems q !! sel) ↔ is_Some (elems p !! sel)).

(** The [disabled] property of an element, when the page has it. *)
Definition disabled_of (sel : string) (p : Page) : option bool :=
  disabled <$> (elems p !! sel).

(** The same controls: [currentSection] and every [disabled] property. *)
Definition same_controls (p q : Page) : Prop :=
  Timeline_currentSection q = Timeline_currentSection p ∧
  (∀ sel, disabled_of sel q = disabled_of sel p).

(** The two navigation buttons show the current section: previous is
    disabled exactly at section 1 (or below), next exactly at the last
    section (or above). *)
Definition nav_synced (p : Page) : Prop :=
  disabled_of "#timelineNavPrev" p
  = Some (num_le (Timeline_currentSection p) (Int 1)) ∧
  disabled_of "#timelineNavNext" p
  = Some (num_ge (Timeline_currentSection p) Timeline.totalSections).

#[global] Instance nav_synced_dec p : Decision (nav_synced p).
Proof. unfold nav_synced. apply _. Defined.

(** The elements [Timeline.setupInteractions] needs on every width. *)
Definition timeline_controls (d : Page) : Prop :=
  timeline_elements d ∧ is_Some (elems d !! "#timelineZoomOut").

#[global] Instance timeline_controls_dec d : Decision (timeline_controls d).
Proof. unfold timeline_controls. apply _. Defined.

(** On a mobile width the timeline is zoomed. *)
Definition mobile_zoomed (p : Page) : Prop :=
  is_mobile p = true → "zoomed" ∈ container_classes p.

#[global] Instance mobile_zoomed_dec p : Decision (mobile_zoomed p).
Proof. unfold mobile_zoomed. apply _. Defined.

(** Every keydown reaches the listener of the timeline, then the keyboard
    handler, once each; every resize the resize listener, once. *)
Definition standard_listening (p : Page) : Prop :=
  listening (KeyDown "") p = [Timeline_keydown; KeyboardHandler_keydown] ∧
  listening (Resize 0) p = [Timeline_resize].

#[global] Instance standard_listening_dec p : Decision (standard_listening p).
Proof. unfold standard_listening. apply _. Defined.

#[global] Typeclasses Opaque nav_synced timeline_controls mobile_zoomed
  standard_listening.

(** The same width, and the same listeners reached by the event [e]. *)
Definition same_reach (e : Event) (p q : Page) : Prop :=
  innerWidth q = innerWidth p ∧ listening e q = listening e p.

(** A reference a look-up can have returned on this page: [null], or an
    element the page has. *)
Definition live (r : option string) (p : Page) : Prop :=
  match r with
  | Some h => is_Some (elems p !! h)
  | None => True
  end.

(** ** The scroll listener of the navigation bar

    [Navigation.lastScrolled] and the scroll position are kept beside the
    page. *)
Record Scrolling := mkScrolling {
  scroll_page : Page;
  lastScrolled : bool
}.

(** [window.scrollY > 100]. *)
Definition isScrolled (scrollY : Q) : bool := negb (Qle_bool scrollY 100).

(** The body of the [scroll] listener [initNavbarScroll] registers: the
    value [this.lastScrolled] has when it returns. The class is written
    only when the side of the threshold changed; [this.navbar] is used as
    it is. *)
Definition on_scroll (scrollY : Q) (last : bool) : JS bool :=
  if Bool.eqb (isScrolled scrollY) last then ret last
  else
    nb <- Navigation.navbar ;;
    classList_toggle nb "scrolled" (isScrolled scrollY) ;;
    ret (isScrolled scrollY).

(** One scroll event at position [scrollY]; an exception leaves
    [lastScrolled] as it was and goes to the console. *)
Definition scroll (s : Scrolling) (scrollY : Q) : Scrolling :=
  match on_scroll scrollY (lastScrolled s) (scroll_page s) with
  | (p, Normal last) => mkScrolling p last
  | (p, Throw x) => mkScrolling (set_console (console p ++ [x]) p) (lastScrolled s)
  end.

(** The navigation bar shows the scrolled style. *)
Definition navbar_scrolled (s : Scrolling) : bool :=
  bool_decide ("scrolled" ∈ classes_of "#navbar" (scroll_page s)).

(** ** The content of the achievement modal *)
Module AchievementContent.

(** The [data-*] attributes of a card; a missing one is [undefined]. *)
Record Card := mkCard {
  dataset_achievement : option string;
  dataset_category : option string;
  dataset_title : option string;
  dataset_location : option string;
  dataset_result : option string;
  dataset_description : option string;
  dataset_quote : option string
}.

(** The record [getTranslatedContent] returns. *)
Record Content := mkContent {
  category : option string;
  title : option string;
  location : option string;
  result : option string;
  description : option string;
  quote : option string
}.

(** [a || b] on strings that may be [undefined]. *)
Definition or_else (a b : option string) : option string :=
  if LanguageSwitcher.truthy a then a else b.

(** [translations[`achievements.${achievementId}.${field}`]]. *)
Definition translated (achievementId field : string) : option string :=
  LanguageSwitcher.translations_de
    !! ("achievements." +:+ achievementId +:+ "." +:+ field).

(** [getTranslatedContent(card)], given [LanguageSwitcher.currentLang]. *)
Definition getTranslatedContent (lang : string) (card : Card) : Content :=
  if bool_decide (lang = "de")
     && LanguageSwitcher.truthy (dataset_achievement card)
  then
    let achievementId := default "" (dataset_achievement card) in
    mkContent
      (or_else (translated achievementId "category") (dataset_category card))
      (or_else (translated achievementId "title") (dataset_title card))
      (or_else (translated achievementId "location") (dataset_location card))
      (or_else (translated achievementId "result") (dataset_result card))
      (or_else (translated achievementId "description")
               (dataset_description card))
      (or_else (translated achievementId "quote") (dataset_quote card))
  else
    mkContent (dataset_category card) (dataset_title card)
      (dataset_location card) (dataset_result card)
      (dataset_description card) (dataset_quote card).

(** The fields of a content record, in the order of the script. *)
Definition fields (c : Content) : list (option string) :=
  [category c; title c; location c; result c; description c; quote c].

Definition dataset_fields (card : Card) : list (option string) :=
  [dataset_category card; dataset_title card; dataset_location card;
   dataset_result card; dataset_description card; dataset_quote card].

End AchievementContent.

(** ** A second run of the thumbnail script *)


(** * Properties *)

#[local] Set Warnings "-clear-no-such-hyp".

(** ** The primitives on a page that has the element *)

Lemma check_tokens_ok tokens p :
  forallb token_ok tokens = true -> check_tokens tokens p = (p, Normal tt).
Proof.
  induction tokens as [|t ts IH]; cbn; [done|].
  unfold token_ok at 1. intros H. apply andb_prop in H as [H1 H2].
  apply andb_prop in H1 as [H1 H3].
  destruct (bool_decide (t = "")); [done|].
  destruct (has_whitespace t); [done|]. auto.
Qed.

Lemma check_tokens_page tokens p : fst (check_tokens tokens p) = p.
Proof.
  induction tokens as [|t ts IH]; cbn; [done|].
  destruct (bool_decide (t = "")); [done|].
  destruct (has_whitespace t); [done|]. auto.
Qed.

Lemma deref_ok h el p :
  elems p !! h = Some el -> deref (Some h) p = (p, Normal (h, el)).
Proof. intros H. unfold deref. by rewrite H. Qed.

Lemma deref_absent h p :
  elems p !! h = None -> deref (Some h) p = (p, Throw TypeError).
Proof. intros H. unfold deref. by rewrite H. Qed.

Lemma classList_remove_ok h tokens p :
  is_Some (elems p !! h) -> forallb token_ok tokens = true ->
  classList_remove (Some h) tokens p = (upd h (remove_classes tokens) p, Normal tt).
Proof.
  intros [el H] Ht. unfold classList_remove, bind, upd.
  rewrite (deref_ok _ _ _ H), H, (check_tokens_ok _ _ Ht). reflexivity.
Qed.

Lemma classList_add_ok h tokens p :
  is_Some (elems p !! h) -> forallb token_ok tokens = true ->
  classList_add (Some h) tokens p = (upd h (add_classes tokens) p, Normal tt).
Proof.
  intros [el H] Ht. unfold classList_add, bind, upd.
  rewrite (deref_ok _ _ _ H), H, (check_tokens_ok _ _ Ht). reflexivity.
Qed.

Lemma classList_contains_ok h c p :
  is_Some (elems p !! h) ->
  classList_contains (Some h) c p = (p, Normal (bool_decide (c ∈ classes_of h p))).
Proof.
  intros [el H]. unfold classList_contains, bind, classes_of.
  by rewrite (deref_ok _ _ _ H), H.
Qed.

Lemma set_disabled_ok h b p :
  is_Some (elems p !! h) ->
  set_disabled (Some h) b p = (upd h (with_disabled b) p, Normal tt).
Proof.
  intros [el H]. unfold set_disabled, bind, upd.
  by rewrite (deref_ok _ _ _ H), H.
Qed.

Lemma lookup_element_some sel p :
  is_Some (elems p !! sel) -> lookup_element sel p = (p, Normal (Some sel)).
Proof. intros [el H]. unfold lookup_element. by rewrite H. Qed.

Lemma lookup_element_none sel p :
  elems p !! sel = None -> lookup_element sel p = (p, Normal None).
Proof. intros H. unfold lookup_element. by rewrite H. Qed.

(** ** What [upd] changes *)

Lemma upd_elems_eq sel f p :
  elems (upd sel f p) !! sel = f <$> (elems p !! sel).
Proof.
  unfold upd. destruct (elems p !! sel) eqn:E; cbn.
  - by rewrite lookup_insert_eq.
  - by rewrite E.
Qed.

Lemma upd_elems_ne sel sel' f p :
  sel <> sel' -> elems (upd sel f p) !! sel' = elems p !! sel'.
Proof.
  intros Hne. unfold upd. destruct (elems p !! sel); cbn; [|done].
  by rewrite lookup_insert_ne.
Qed.

Lemma upd_is_Some sel sel' f p :
  is_Some (elems (upd sel f p) !! sel') <-> is_Some (elems p !! sel').
Proof.
  destruct (decide (sel = sel')) as [->|Hne].
  - rewrite upd_elems_eq. by rewrite fmap_is_Some.
  - by rewrite upd_elems_ne.
Qed.

Lemma upd_classes_eq sel f p :
  is_Some (elems p !! sel) ->
  classes_of sel (upd sel f p) =
  classList (f (default blank (elems p !! sel))).
Proof.
  intros [el H]. unfold classes_of. rewrite upd_elems_eq, H. reflexivity.
Qed.

Lemma upd_classes_ne sel sel' f p :
  sel <> sel' -> classes_of sel' (upd sel f p) = classes_of sel' p.
Proof. intros Hne. unfold classes_of. by rewrite upd_elems_ne. Qed.

Lemma upd_add_classes sel tokens p :
  is_Some (elems p !! sel) ->
  classes_of sel (upd sel (add_classes tokens) p) =
  classes_of sel p ∪ list_to_set tokens.
Proof.
  intros [el H]. unfold classes_of. rewrite upd_elems_eq, H. reflexivity.
Qed.

Lemma upd_remove_classes sel tokens p :
  is_Some (elems p !! sel) ->
  classes_of sel (upd sel (remove_classes tokens) p) =
  classes_of sel p ∖ list_to_set tokens.
Proof.
  intros [el H]. unfold classes_of. rewrite upd_elems_eq, H. reflexivity.
Qed.

Lemma upd_with_disabled sel sel' b p :
  classes_of sel' (upd sel (with_disabled b) p) = classes_of sel' p.
Proof.
  destruct (decide (sel = sel')) as [->|Hne].
  - unfold classes_of. rewrite upd_elems_eq.
    by destruct (elems p !! sel').
  - by apply upd_classes_ne.
Qed.


Lemma upd_innerWidth sel f p : innerWidth (upd sel f p) = innerWidth p.
Proof. unfold upd. by destruct (elems p !! sel). Qed.

Lemma upd_body_overflow sel f p : body_overflow (upd sel f p) = body_overflow p.
Proof. unfold upd. by destruct (elems p !! sel). Qed.

Lemma upd_html_lang sel f p : html_lang (upd sel f p) = html_lang p.
Proof. unfold upd. by destruct (elems p !! sel). Qed.

Lemma upd_translatable sel f p : translatable (upd sel f p) = translatable p.
Proof. unfold upd. by destruct (elems p !! sel). Qed.

Lemma upd_sectionAreas sel f p : sectionAreas (upd sel f p) = sectionAreas p.
Proof. unfold upd. by destruct (elems p !! sel). Qed.

Lemma upd_preferredLanguage sel f p : preferredLanguage (upd sel f p) = preferredLanguage p.
Proof. unfold upd. by destruct (elems p !! sel). Qed.

Lemma upd_listeners sel f p : listeners (upd sel f p) = listeners p.
Proof. unfold upd. by destruct (elems p !! sel). Qed.

Lemma upd_console sel f p : console (upd sel f p) = console p.
Proof. unfold upd. by destruct (elems p !! sel). Qed.

Lemma upd_Timeline_container sel f p : Timeline_container (upd sel f p) = Timeline_container p.
Proof. unfold upd. by destruct (elems p !! sel). Qed.

Lemma upd_Timeline_currentSection sel f p : Timeline_currentSection (upd sel f p) = Timeline_currentSection p.
Proof. unfold upd. by destruct (elems p !! sel). Qed.

Lemma upd_LanguageSwitcher_currentLang sel f p : LanguageSwitcher_currentLang (upd sel f p) = LanguageSwitcher_currentLang p.
Proof. unfold upd. by destruct (elems p !! sel). Qed.

Lemma upd_LanguageSwitcher_toggle sel f p : LanguageSwitcher_toggle (upd sel f p) = LanguageSwitcher_toggle p.
Proof. unfold upd. by destruct (elems p !! sel). Qed.

Lemma upd_LanguageSwitcher_originalTexts sel f p : LanguageSwitcher_originalTexts (upd sel f p) = LanguageSwitcher_originalTexts p.
Proof. unfold upd. by destruct (elems p !! sel). Qed.


Lemma container_classes_upd_ne sel f p :
  Timeline_container p <> Some sel ->
  container_classes (upd sel f p) = container_classes p.
Proof.
  intros H. unfold container_classes. rewrite upd_Timeline_container.
  destruct (Timeline_container p) as [h|]; [|done].
  apply upd_classes_ne. congruence.
Qed.

Lemma container_classes_disabled sel b p :
  container_classes (upd sel (with_disabled b) p) = container_classes p.
Proof.
  unfold container_classes. rewrite upd_Timeline_container.
  destruct (Timeline_container p); [|done]. apply upd_with_disabled.
Qed.

Lemma container_classes_add tokens p :
  timeline_wired p ->
  container_classes (upd "#timelineContainer" (add_classes tokens) p) =
  container_classes p ∪ list_to_set tokens.
Proof.
  intros (Hc & He & _). unfold container_classes.
  rewrite upd_Timeline_container, Hc. by apply upd_add_classes.
Qed.

Lemma container_classes_remove tokens p :
  timeline_wired p ->
  container_classes (upd "#timelineContainer" (remove_classes tokens) p) =
  container_classes p ∖ list_to_set tokens.
Proof.
  intros (Hc & He & _). unfold container_classes.
  rewrite upd_Timeline_container, Hc. by apply upd_remove_classes.
Qed.

Lemma timeline_wired_upd sel f p :
  timeline_wired (upd sel f p) <-> timeline_wired p.
Proof.
  unfold timeline_wired. rewrite upd_Timeline_container, !upd_is_Some. done.
Qed.

Lemma timeline_wired_set_current n p :
  timeline_wired (set_Timeline_currentSection n p) <-> timeline_wired p.
Proof. done. Qed.

(** ** The timeline operations on a wired page *)





Lemma updateNavButtons_ok p :
  is_Some (elems p !! "#timelineNavPrev") ->
  is_Some (elems p !! "#timelineNavNext") ->
  Timeline.updateNavButtons p = (nav_updated p, Normal tt).
Proof.
  intros Hp Hn. unfold Timeline.updateNavButtons, getElementById, bind.
  change ("#" +:+ "timelineNavPrev") with "#timelineNavPrev".
  change ("#" +:+ "timelineNavNext") with "#timelineNavNext".
  rewrite (lookup_element_some _ _ Hp), (lookup_element_some _ _ Hn).
  unfold Timeline.currentSection, bind, get, ret.
  rewrite (set_disabled_ok _ _ _ Hp).
  rewrite set_disabled_ok by (by rewrite upd_is_Some).
  unfold nav_updated. by rewrite upd_Timeline_currentSection.
Qed.

Lemma zoomToSection_ok v p :
  timeline_wired p ->
  token_ok ("zoom-section-" +:+ to_string v) = true ->
  Timeline.zoomToSection v p = (zoomed_to v p, Normal tt).
Proof.
  intros (Hc & He & Hp & Hn) Ht.
  unfold Timeline.zoomToSection, Timeline.container, bind, modify, get, ret.
  change (Timeline_container (set_Timeline_currentSection _ p))
    with (Timeline_container p).
  rewrite Hc, classList_remove_ok by done.
  rewrite upd_Timeline_container.
  change (Timeline_container (set_Timeline_currentSection _ p))
    with (Timeline_container p).
  rewrite Hc.
  rewrite classList_add_ok; [|by rewrite upd_is_Some|by cbn; rewrite Ht].
  rewrite updateNavButtons_ok by (by rewrite !upd_is_Some).
  reflexivity.
Qed.

Lemma zoomOut_mobile p :
  innerWidth p <= 768 -> Timeline.zoomOut p = (p, Normal tt).
Proof.
  intros H. unfold Timeline.zoomOut, Timeline.isMobile, bind, get, ret.
  apply Z.leb_le in H. by rewrite H.
Qed.

Lemma zoomOut_desktop p :
  768 < innerWidth p -> timeline_wired p ->
  Timeline.zoomOut p = (zoomed_out p, Normal tt).
Proof.
  intros Hw (Hc & He & Hp & Hn).
  unfold Timeline.zoomOut, Timeline.isMobile, Timeline.container, bind, get, ret.
  apply Z.leb_gt in Hw. rewrite Hw, Hc.
  rewrite classList_remove_ok by done.
  rewrite updateNavButtons_ok by (by rewrite !upd_is_Some).
  reflexivity.
Qed.

(** ** What the timeline operations leave *)

Lemma nav_updated_classes sel p :
  classes_of sel (nav_updated p) = classes_of sel p.
Proof. unfold nav_updated. by rewrite !upd_with_disabled. Qed.

Lemma nav_updated_container_classes p :
  container_classes (nav_updated p) = container_classes p.
Proof. unfold nav_updated. by rewrite !container_classes_disabled. Qed.

Lemma nav_updated_currentSection p :
  Timeline_currentSection (nav_updated p) = Timeline_currentSection p.
Proof. unfold nav_updated. by rewrite !upd_Timeline_currentSection. Qed.

Lemma nav_updated_innerWidth p : innerWidth (nav_updated p) = innerWidth p.
Proof. unfold nav_updated. by rewrite !upd_innerWidth. Qed.

Lemma nav_updated_wired p : timeline_wired (nav_updated p) <-> timeline_wired p.
Proof. unfold nav_updated. by rewrite !timeline_wired_upd. Qed.

Lemma zoomed_to_currentSection v p :
  Timeline_currentSection (zoomed_to v p) = parseInt v.
Proof.
  unfold zoomed_to.
  by rewrite nav_updated_currentSection, !upd_Timeline_currentSection.
Qed.

Lemma zoomed_to_innerWidth v p : innerWidth (zoomed_to v p) = innerWidth p.
Proof. unfold zoomed_to. by rewrite nav_updated_innerWidth, !upd_innerWidth. Qed.

Lemma zoomed_to_wired v p : timeline_wired (zoomed_to v p) <-> timeline_wired p.
Proof.
  unfold zoomed_to.
  by rewrite nav_updated_wired, !timeline_wired_upd, timeline_wired_set_current.
Qed.

Lemma zoomed_to_container_classes v p :
  timeline_wired p ->
  container_classes (zoomed_to v p) =
  (container_classes p ∖ list_to_set zoom_tokens)
    ∪ list_to_set ["zoomed"; "zoom-section-" +:+ to_string v].
Proof.
  intros Hw. unfold zoomed_to. rewrite nav_updated_container_classes.
  rewrite container_classes_add
    by (by rewrite timeline_wired_upd, timeline_wired_set_current).
  by rewrite container_classes_remove by (by rewrite timeline_wired_set_current).
Qed.

Lemma zoomed_to_classes v sel p :
  sel <> "#timelineContainer" ->
  classes_of sel (zoomed_to v p) = classes_of sel p.
Proof.
  intros Hne. unfold zoomed_to.
  by rewrite nav_updated_classes, !upd_classes_ne by done.
Qed.

Lemma zoomed_out_currentSection p :
  Timeline_currentSection (zoomed_out p) = Timeline_currentSection p.
Proof.
  unfold zoomed_out.
  by rewrite nav_updated_currentSection, upd_Timeline_currentSection.
Qed.

Lemma zoomed_out_innerWidth p : innerWidth (zoomed_out p) = innerWidth p.
Proof. unfold zoomed_out. by rewrite nav_updated_innerWidth, upd_innerWidth. Qed.

Lemma zoomed_out_wired p : timeline_wired (zoomed_out p) <-> timeline_wired p.
Proof. unfold zoomed_out. by rewrite nav_updated_wired, timeline_wired_upd. Qed.

Lemma zoomed_out_container_classes p :
  timeline_wired p ->
  container_classes (zoomed_out p) =
  container_classes p ∖ list_to_set ("zoomed" :: zoom_tokens).
Proof.
  intros Hw. unfold zoomed_out. rewrite nav_updated_container_classes.
  by rewrite container_classes_remove.
Qed.

Lemma zoomed_out_classes sel p :
  sel <> "#timelineContainer" ->
  classes_of sel (zoomed_out p) = classes_of sel p.
Proof.
  intros Hne. unfold zoomed_out.
  by rewrite nav_updated_classes, upd_classes_ne by done.
Qed.

(** ** Reading the state of the timeline *)

Lemma markers_unfold p :
  markers p =
  (if decide ("zoom-section-1" ∈ container_classes p) then [1] else []) ++
  (if decide ("zoom-section-2" ∈ container_classes p) then [2] else []) ++
  (if decide ("zoom-section-3" ∈ container_classes p) then [3] else []).
Proof.
  unfold markers. rewrite !filter_cons, filter_nil.
  change (section_class 1) with "zoom-section-1".
  change (section_class 2) with "zoom-section-2".
  change (section_class 3) with "zoom-section-3".
  repeat case_decide; reflexivity.
Qed.

Lemma timeline_state_idle p :
  "zoomed" ∉ container_classes p ->
  "zoom-section-1" ∉ container_classes p ->
  "zoom-section-2" ∉ container_classes p ->
  "zoom-section-3" ∉ container_classes p ->
  timeline_state p = Some Idle.
Proof.
  intros. unfold timeline_state. rewrite markers_unfold.
  rewrite bool_decide_eq_false_2 by done.
  repeat case_decide; done.
Qed.

Lemma timeline_state_zoomed p n :
  "zoomed" ∈ container_classes p ->
  Timeline_currentSection p = Int n ->
  ("zoom-section-1" ∈ container_classes p <-> n = 1) ->
  ("zoom-section-2" ∈ container_classes p <-> n = 2) ->
  ("zoom-section-3" ∈ container_classes p <-> n = 3) ->
  1 <= n <= 3 ->
  timeline_state p = Some (Zoomed n).
Proof.
  intros Hz Hc H1 H2 H3 Hn. unfold timeline_state. rewrite markers_unfold, Hc.
  rewrite bool_decide_eq_true_2 by done.
  assert (n = 1 \/ n = 2 \/ n = 3) as [-> | [-> | ->]] by lia;
    repeat case_decide; cbn; try reflexivity; exfalso;
    intuition (auto; discriminate).
Qed.

(** The state depends on the page through the width-independent part of
    the timeline only. *)
Lemma timeline_state_ext p q :
  Timeline_currentSection q = Timeline_currentSection p ->
  (forall c, c ∈ "zoomed" :: zoom_tokens ->
             c ∈ container_classes q <-> c ∈ container_classes p) ->
  timeline_state q = timeline_state p.
Proof.
  intros Hc H. unfold timeline_state. rewrite !markers_unfold, Hc.
  pose proof (H "zoomed" ltac:(set_solver)) as Hz.
  pose proof (H "zoom-section-1" ltac:(set_solver)) as H1.
  pose proof (H "zoom-section-2" ltac:(set_solver)) as H2.
  pose proof (H "zoom-section-3" ltac:(set_solver)) as H3.
  rewrite (bool_decide_ext _ _ Hz).
  rewrite (decide_ext _ _ _ _ H1), (decide_ext _ _ _ _ H2), (decide_ext _ _ _ _ H3).
  reflexivity.
Qed.


Lemma names_section_number n : 1 <= n <= 3 -> names_section (VNumber (Int n)) n.
Proof. done. Qed.

Lemma names_section_token v n :
  names_section v n -> token_ok ("zoom-section-" +:+ to_string v) = true.
Proof.
  intros (_ & -> & Hn).
  assert (n = 1 \/ n = 2 \/ n = 3) as [-> | [-> | ->]] by lia; reflexivity.
Qed.

Lemma timeline_state_zoomed_to v n p :
  timeline_wired p -> names_section v n ->
  timeline_state (zoomed_to v p) = Some (Zoomed n).
Proof.
  intros Hw (Hp & Hs & Hn).
  apply timeline_state_zoomed; try done.
  - rewrite zoomed_to_container_classes by done. set_solver.
  - by rewrite zoomed_to_currentSection.
  - rewrite zoomed_to_container_classes, Hs by done.
    assert (n = 1 \/ n = 2 \/ n = 3) as [-> | [-> | ->]] by lia;
      change (pretty 1) with "1"; change (pretty 2) with "2";
      change (pretty 3) with "3"; cbn; set_solver.
  - rewrite zoomed_to_container_classes, Hs by done.
    assert (n = 1 \/ n = 2 \/ n = 3) as [-> | [-> | ->]] by lia;
      change (pretty 1) with "1"; change (pretty 2) with "2";
      change (pretty 3) with "3"; cbn; set_solver.
  - rewrite zoomed_to_container_classes, Hs by done.
    assert (n = 1 \/ n = 2 \/ n = 3) as [-> | [-> | ->]] by lia;
      change (pretty 1) with "1"; change (pretty 2) with "2";
      change (pretty 3) with "3"; cbn; set_solver.
Qed.

Lemma timeline_state_zoomed_out p :
  timeline_wired p -> timeline_state (zoomed_out p) = Some Idle.
Proof.
  intros Hw.
  apply timeline_state_idle; rewrite zoomed_out_container_classes by done;
    set_solver.
Qed.

(** ** Listeners of the timeline on a wired page *)

Lemma on_navPrev_click_eq p :
  Timeline.on_navPrev_click p =
  if num_gt (Timeline_currentSection p) (Int 1)
  then Timeline.zoomToSection
         (VNumber (num_sub (Timeline_currentSection p) (Int 1))) p
  else (p, Normal tt).
Proof.
  unfold Timeline.on_navPrev_click, Timeline.currentSection, bind, get, ret.
  by destruct (num_gt _ _).
Qed.

Lemma on_navNext_click_eq p :
  Timeline.on_navNext_click p =
  if num_lt (Timeline_currentSection p) Timeline.totalSections
  then Timeline.zoomToSection
         (VNumber (num_add (Timeline_currentSection p) (Int 1))) p
  else (p, Normal tt).
Proof.
  unfold Timeline.on_navNext_click, Timeline.currentSection, bind, get, ret.
  by destruct (num_lt _ _).
Qed.

Lemma container_contains_ok c p :
  timeline_wired p ->
  classList_contains (Timeline_container p) c p =
  (p, Normal (bool_decide (c ∈ container_classes p))).
Proof.
  intros (Hc & He & _). unfold container_classes. rewrite Hc.
  by apply classList_contains_ok.
Qed.

Lemma on_keydown_eq key p :
  timeline_wired p ->
  Timeline.on_keydown key p =
  if negb (is_mobile p) && negb (bool_decide ("zoomed" ∈ container_classes p))
  then (p, Normal tt)
  else if bool_decide (key = "ArrowLeft")
          && num_gt (Timeline_currentSection p) (Int 1)
  then Timeline.zoomToSection
         (VNumber (num_sub (Timeline_currentSection p) (Int 1))) p
  else if bool_decide (key = "ArrowRight")
          && num_lt (Timeline_currentSection p) Timeline.totalSections
  then Timeline.zoomToSection
         (VNumber (num_add (Timeline_currentSection p) (Int 1))) p
  else (p, Normal tt).
Proof.
  intros Hw.
  unfold Timeline.on_keydown, Timeline.isMobile, Timeline.container,
    Timeline.currentSection, bind, get, ret, is_mobile.
  destruct (innerWidth p <=? 768); cbn [negb andb].
  - by repeat destruct (_ && _).
  - rewrite container_contains_ok by done.
    destruct (bool_decide ("zoomed" ∈ container_classes p)); cbn [negb]; [|done].
    by repeat destruct (_ && _).
Qed.

Lemma zoomToSection_number n p :
  timeline_wired p -> 1 <= n <= 3 ->
  Timeline.zoomToSection (VNumber (Int n)) p
  = (zoomed_to (VNumber (Int n)) p, Normal tt).
Proof.
  intros Hw Hn. apply zoomToSection_ok; [done|].
  by apply (names_section_token _ n), names_section_number.
Qed.

Lemma on_keydown_left p n :
  timeline_wired p ->
  is_mobile p = true \/ "zoomed" ∈ container_classes p ->
  Timeline_currentSection p = Int n -> 1 <= n <= 3 ->
  Timeline.on_keydown "ArrowLeft" p
  = (if 1 <? n then zoomed_to (VNumber (Int (n - 1))) p else p, Normal tt).
Proof.
  intros Hw Hz Hc Hn. rewrite on_keydown_eq, Hc by done.
  replace (negb (is_mobile p) && _) with false
    by (destruct Hz as [-> | Hz]; [done|];
        rewrite (bool_decide_eq_true_2 _ Hz); by destruct (is_mobile p)).
  rewrite (bool_decide_eq_true_2 ("ArrowLeft" = "ArrowLeft")) by done.
  rewrite (bool_decide_eq_false_2 ("ArrowLeft" = "ArrowRight")) by done.
  cbn [andb num_gt num_lt num_sub].
  destruct (1 <? n) eqn:E; cbn [andb]; [|done].
  apply Z.ltb_lt in E. apply zoomToSection_number; [done | lia].
Qed.

Lemma on_keydown_right p n :
  timeline_wired p ->
  is_mobile p = true \/ "zoomed" ∈ container_classes p ->
  Timeline_currentSection p = Int n -> 1 <= n <= 3 ->
  Timeline.on_keydown "ArrowRight" p
  = (if n <? 3 then zoomed_to (VNumber (Int (n + 1))) p else p, Normal tt).
Proof.
  intros Hw Hz Hc Hn. rewrite on_keydown_eq, Hc by done.
  replace (negb (is_mobile p) && _) with false
    by (destruct Hz as [-> | Hz]; [done|];
        rewrite (bool_decide_eq_true_2 _ Hz); by destruct (is_mobile p)).
  rewrite (bool_decide_eq_true_2 ("ArrowRight" = "ArrowRight")) by done.
  rewrite (bool_decide_eq_false_2 ("ArrowRight" = "ArrowLeft")) by done.
  cbn [andb num_gt num_lt num_add Timeline.totalSections].
  destruct (n <? 3) eqn:E; cbn [andb]; [|done].
  apply Z.ltb_lt in E. apply zoomToSection_number; [done | lia].
Qed.

Lemma on_resize_eq p :
  timeline_wired p ->
  Timeline.on_resize p =
  if is_mobile p then
    if bool_decide ("zoomed" ∈ container_classes p)
    then (upd "#timelineContainer" (add_classes ["mobile-mode"]) p, Normal tt)
    else (upd "#timelineContainer" (add_classes ["mobile-mode"])
            (zoomed_to (VNumber (Int 1)) p), Normal tt)
  else if bool_decide ("mobile-mode" ∈ container_classes p)
  then (upd "#timelineContainer" (remove_classes ["mobile-mode"])
          (zoomed_out p), Normal tt)
  else (p, Normal tt).
Proof.
  intros Hw. pose proof Hw as (Hc & He & Hp & Hn).
  unfold Timeline.on_resize, Timeline.isMobile, Timeline.container, bind, get,
    ret, is_mobile.
  destruct (innerWidth p <=? 768) eqn:Hm.
  - rewrite container_contains_ok by done.
    destruct (bool_decide ("zoomed" ∈ container_classes p)); cbn [negb].
    + rewrite Hc. by rewrite classList_add_ok.
    + rewrite zoomToSection_ok by done.
      assert (Hw' : timeline_wired (zoomed_to (VNumber (Int 1)) p))
        by by apply zoomed_to_wired.
      destruct Hw' as (Hc' & He' & _). rewrite Hc'.
      by rewrite classList_add_ok.
  - rewrite container_contains_ok by done.
    destruct (bool_decide ("mobile-mode" ∈ container_classes p)); [|done].
    rewrite zoomOut_desktop by (done || by apply Z.leb_gt).
    assert (Hw' : timeline_wired (zoomed_out p)) by by apply zoomed_out_wired.
    destruct Hw' as (Hc' & He' & _). rewrite Hc'.
    by rewrite classList_remove_ok.
Qed.

Lemma on_svg_click_eq p :
  timeline_wired p ->
  Timeline.on_svg_click false p =
  if is_mobile p then (p, Normal tt)
  else if bool_decide ("zoomed" ∈ container_classes p)
  then (zoomed_out p, Normal tt)
  else (p, Normal tt).
Proof.
  intros Hw.
  unfold Timeline.on_svg_click, Timeline.isMobile, Timeline.container, bind,
    get, ret, is_mobile.
  destruct (innerWidth p <=? 768) eqn:Hm; [done|].
  rewrite container_contains_ok by done.
  destruct (bool_decide ("zoomed" ∈ container_classes p)); cbn [negb andb]; [|done].
  by rewrite zoomOut_desktop by (done || by apply Z.leb_gt).
Qed.

Lemma zoomOut_eq p :
  timeline_wired p ->
  Timeline.zoomOut p = (if is_mobile p then p else zoomed_out p, Normal tt).
Proof.
  intros Hw. unfold is_mobile. destruct (innerWidth p <=? 768) eqn:Hm.
  - apply zoomOut_mobile. by apply Z.leb_le.
  - apply zoomOut_desktop; [by apply Z.leb_gt | done].
Qed.

Lemma on_section_click_eq data p :
  Timeline.on_section_click data p =
  if is_mobile p then (p, Normal tt)
  else Timeline.zoomToSection
         (match data with Some s => VString s | None => VUndefined end) p.
Proof.
  unfold Timeline.on_section_click, Timeline.isMobile, bind, get, ret, is_mobile.
  by destruct (innerWidth p <=? 768).
Qed.

(** [currentSection] within range, step by step. *)
Lemma section_in_range_cases p :
  section_in_range p = true ->
  Timeline_currentSection p = Int 1 \/ Timeline_currentSection p = Int 2 \/
  Timeline_currentSection p = Int 3.
Proof.
  unfold section_in_range. destruct (Timeline_currentSection p) as [z|]; [|done].
  intros H. apply andb_prop in H as [H1 H2].
  apply Z.leb_le in H1, H2.
  assert (z = 1 \/ z = 2 \/ z = 3) as [-> | [-> | ->]] by lia; auto.
Qed.

Lemma timeline_state_zoomed_inv p n :
  timeline_state p = Some (Zoomed n) ->
  "zoomed" ∈ container_classes p /\ Timeline_currentSection p = Int n /\
  1 <= n <= 3 /\ markers p = [n].
Proof.
  unfold timeline_state. case_bool_decide as Hz.
  - rewrite markers_unfold.
    destruct (Timeline_currentSection p) as [z|];
      repeat case_decide; cbn; try done;
      case_bool_decide; try done; intros [= <-]; subst; repeat split; lia || done.
  - by destruct (markers p).
Qed.

Lemma timeline_state_idle_inv p :
  timeline_state p = Some Idle ->
  ("zoomed" ∉ container_classes p) ∧ markers p = [].
Proof.
  unfold timeline_state. case_bool_decide as Hz.
  - destruct (markers p) as [|k [|? ?]]; try done.
    destruct (Timeline_currentSection p); [|done]. by case_bool_decide.
  - by destruct (markers p).
Qed.

(** ** Dispatch *)

Lemma listening_default_action e p :
  listening e (default_action e p) = listening e p.
Proof.
  unfold listening. f_equal.
  destruct e; try done. cbn.
  destruct (LanguageSwitcher_toggle p) as [t|]; [|done].
  by destruct (elems p !! t).
Qed.

Lemma listening_fires e p h : h ∈ listening e p -> fires e h = true.
Proof. unfold listening. rewrite list_elem_of_filter. tauto. Qed.

Lemma listening_keydown k k' p : listening (KeyDown k) p = listening (KeyDown k') p.
Proof. done. Qed.

Lemma report_normal {A} (m : JS A) p p' a : m p = (p', Normal a) -> report m p = p'.
Proof. intros H. unfold report. by rewrite H. Qed.

(** An event none of whose listeners changes the page leaves it as it
    is, however many listeners are registered. *)
Lemma dispatch_fixed e p :
  default_action e p = p ->
  (forall h, fires e h = true -> handler e h p = (p, Normal tt)) ->
  dispatch p e = p.
Proof.
  intros Hd H. unfold dispatch. rewrite listening_default_action, Hd.
  assert (Hl : forall h, h ∈ listening e p -> fires e h = true)
    by apply listening_fires.
  induction (listening e p) as [|h l IH]; [done|]. cbn.
  rewrite (report_normal _ _ _ _ (H h (Hl h ltac:(left)))).
  apply IH. intros h' Hh'. apply Hl. by right.
Qed.

(** A property every listener keeps is kept by an event. *)
Lemma dispatch_preserves (I : Page -> Prop) e p :
  I (default_action e p) ->
  (forall h q, fires e h = true -> I q -> I (report (handler e h) q)) ->
  I (dispatch p e).
Proof.
  intros Hd H. unfold dispatch.
  set (l := listening e (default_action e p)).
  assert (Hl : forall h, h ∈ l -> fires e h = true) by apply listening_fires.
  clearbody l. revert Hd. generalize (default_action e p).
  induction l as [|h l IH]; intros q Hq; [done|].
  cbn. apply IH.
  - intros h' Hh'. apply Hl. by right.
  - apply H; [|done]. apply Hl. by left.
Qed.

Lemma run_app p es es' : run p (es ++ es') = run (run p es) es'.
Proof. unfold run. apply fold_left_app. Qed.

Lemma run_preserves (I : Page -> Prop) (ok : Event -> bool) es :
  (forall p e, ok e = true -> I p -> I (dispatch p e)) ->
  forall p, forallb ok es = true -> I p -> I (run p es).
Proof.
  intros H. induction es as [|e es IH]; intros p Hes Hp; [done|].
  cbn in Hes. apply andb_prop in Hes as [He Hes].
  cbn. apply IH; [done|]. by apply H.
Qed.

(** The keyboard handler ignores every key but Escape. *)
Lemma KeyboardHandler_on_keydown_other key p :
  key <> "Escape" -> KeyboardHandler.on_keydown key p = (p, Normal tt).
Proof.
  intros H. unfold KeyboardHandler.on_keydown.
  by rewrite bool_decide_eq_false_2.
Qed.

(** ** Computations that leave the timeline alone *)

Lemma same_timeline_refl p : same_timeline p p.
Proof. by repeat split. Qed.

Lemma same_timeline_trans p q r :
  same_timeline p q -> same_timeline q r -> same_timeline p r.
Proof.
  intros (H1 & H2 & H3 & H4 & H5) (K1 & K2 & K3 & K4 & K5).
  split; [congruence|]. split; [congruence|]. split; [congruence|]. split.
  - intros sel. by rewrite K4, H4.
  - intros c Hc. by rewrite K5, H5.
Qed.

Lemma same_timeline_upd sel f p :
  (forall el c, c ∈ "zoomed" :: zoom_tokens ->
                c ∈ classList (f el) <-> c ∈ classList el) ->
  same_timeline p (upd sel f p).
Proof.
  intros Hf. unfold same_timeline.
  rewrite upd_Timeline_container, upd_Timeline_currentSection, upd_sectionAreas.
  repeat split; try apply upd_is_Some.
  - unfold container_classes. rewrite upd_Timeline_container.
    destruct (Timeline_container p) as [h|]; [|done].
    destruct (decide (sel = h)) as [->|Hne]; [|by rewrite upd_classes_ne].
    unfold classes_of. rewrite upd_elems_eq.
    destruct (elems p !! h); [|done]. by apply Hf.
  - unfold container_classes. rewrite upd_Timeline_container.
    destruct (Timeline_container p) as [h|]; [|done].
    destruct (decide (sel = h)) as [->|Hne]; [|by rewrite upd_classes_ne].
    unfold classes_of. rewrite upd_elems_eq.
    destruct (elems p !! h); [|done]. by apply Hf.
Qed.

Lemma timeline_inv_same p q :
  same_timeline p q -> timeline_inv p -> timeline_inv q.
Proof.
  intros (H1 & H2 & H3 & H4 & H5) (Hw & Hv & Hr & Hs).
  repeat split.
  - rewrite H1. apply Hw.
  - apply H4, Hw.
  - apply H4, Hw.
  - apply H4, Hw.
  - unfold valid_sections. by rewrite H3.
  - unfold section_in_range. by rewrite H2.
  - by rewrite (timeline_state_ext p q).
Qed.

Lemma exec_bind {A B} (m : JS A) (k : A -> JS B) p :
  exec (bind m k) p
  = match m p with
    | (q, Normal a) => exec (k a) q
    | (q, Throw _) => q
    end.
Proof. unfold exec, bind. by destruct (m p) as [q [a|e]]. Qed.

Lemma frame_ret {A} (a : A) : frame (ret a).
Proof. intros p. apply same_timeline_refl. Qed.

Lemma frame_throw {A} e : frame (@throw A e).
Proof. intros p. apply same_timeline_refl. Qed.

Lemma frame_get : frame get.
Proof. intros p. apply same_timeline_refl. Qed.

Lemma frame_bind {A B} (m : JS A) (k : A -> JS B) :
  frame m -> (forall a, frame (k a)) -> frame (bind m k).
Proof.
  intros Hm Hk p. rewrite exec_bind. specialize (Hm p). unfold exec in Hm.
  destruct (m p) as [q [a|e]]; cbn in Hm; [|done].
  eapply same_timeline_trans; [done|]. apply Hk.
Qed.

Lemma frame_lookup_element sel : frame (lookup_element sel).
Proof. intros p. apply same_timeline_refl. Qed.

Lemma frame_deref r : frame (deref r).
Proof.
  intros p. unfold exec, deref. destruct r as [h|]; [|apply same_timeline_refl].
  destruct (elems p !! h); apply same_timeline_refl.
Qed.

Lemma frame_check_tokens tokens : frame (check_tokens tokens).
Proof. intros p. unfold exec. rewrite check_tokens_page. apply same_timeline_refl. Qed.

Lemma frame_store_upd r (f : Element -> Element) :
  (forall el c, c ∈ "zoomed" :: zoom_tokens ->
                c ∈ classList (f el) <-> c ∈ classList el) ->
  frame (x <- deref r ;; store (fst x) (f (snd x))).
Proof.
  intros Hf p. rewrite exec_bind. unfold deref.
  destruct r as [h|]; [|apply same_timeline_refl].
  destruct (elems p !! h) as [el|] eqn:E; [|apply same_timeline_refl].
  cbn. pose proof (same_timeline_upd h f p Hf) as H.
  unfold upd in H. by rewrite E in H.
Qed.

Lemma frame_classList_contains r c : frame (classList_contains r c).
Proof.
  apply frame_bind; [apply frame_deref|]. intros x. apply frame_ret.
Qed.

Lemma frame_classList_add r tokens :
  (forall c, c ∈ "zoomed" :: zoom_tokens -> c ∉ tokens) ->
  frame (classList_add r tokens).
Proof.
  intros Ht p. unfold classList_add. rewrite exec_bind. unfold deref.
  destruct r as [h|]; [|apply same_timeline_refl].
  destruct (elems p !! h) as [el|] eqn:E; [|apply same_timeline_refl].
  rewrite exec_bind.
  pose proof (check_tokens_page tokens p) as Hp.
  destruct (check_tokens tokens p) as [q [[]|e]]; cbn in Hp; subst q;
    [|apply same_timeline_refl].
  cbn. pose proof (same_timeline_upd h (add_classes tokens) p) as H.
  unfold upd in H. rewrite E in H. apply H.
  intros el' c Hc. cbn. specialize (Ht c Hc).
  rewrite elem_of_union, elem_of_list_to_set. tauto.
Qed.

Lemma frame_classList_remove r tokens :
  (forall c, c ∈ "zoomed" :: zoom_tokens -> c ∉ tokens) ->
  frame (classList_remove r tokens).
Proof.
  intros Ht p. unfold classList_remove. rewrite exec_bind. unfold deref.
  destruct r as [h|]; [|apply same_timeline_refl].
  destruct (elems p !! h) as [el|] eqn:E; [|apply same_timeline_refl].
  rewrite exec_bind.
  pose proof (check_tokens_page tokens p) as Hp.
  destruct (check_tokens tokens p) as [q [[]|e]]; cbn in Hp; subst q;
    [|apply same_timeline_refl].
  cbn. pose proof (same_timeline_upd h (remove_classes tokens) p) as H.
  unfold upd in H. rewrite E in H. apply H.
  intros el' c Hc. cbn. specialize (Ht c Hc).
  rewrite elem_of_difference, elem_of_list_to_set. tauto.
Qed.

Lemma frame_classList_toggle r token force :
  token ∉ "zoomed" :: zoom_tokens -> frame (classList_toggle r token force).
Proof.
  intros Ht. unfold classList_toggle.
  destruct force; [apply frame_classList_add | apply frame_classList_remove];
    intros c Hc Hin; apply list_elem_of_singleton in Hin; by subst.
Qed.

Lemma frame_set_checked r b : frame (set_checked r b).
Proof.
  apply (frame_store_upd r (fun el => mkElement (classList el) (disabled el) b)).
  done.
Qed.

Lemma frame_get_checked r : frame (get_checked r).
Proof. apply frame_bind; [apply frame_deref|]. intros x. apply frame_ret. Qed.

Lemma frame_modify f :
  (forall p, same_timeline p (f p)) -> frame (modify f).
Proof. intros H p. apply H. Qed.

Lemma frame_addEventListener r h : frame (addEventListener r h).
Proof.
  apply frame_bind; [apply frame_deref|]. intros _.
  apply frame_modify. intros p. by repeat split.
Qed.

Lemma frame_forEach {A} (f : A -> JS unit) l :
  (forall x, frame (f x)) -> frame (forEach f l).
Proof.
  intros H. induction l as [|x l IH]; [apply frame_ret|].
  cbn. apply frame_bind; [apply H|]. intros _. apply IH.
Qed.

Lemma not_zoom_token c :
  c ∉ "zoomed" :: zoom_tokens ->
  forall c', c' ∈ "zoomed" :: zoom_tokens -> c' ∉ [c].
Proof.
  intros H c' Hc' Hin. apply list_elem_of_singleton in Hin. by subst.
Qed.

Lemma active_not_zoom_token : "active" ∉ "zoomed" :: zoom_tokens.
Proof. unfold zoom_tokens. set_solver. Qed.

Create HintDb frame.

#[local] Hint Resolve frame_ret frame_throw frame_get frame_lookup_element
  frame_deref frame_classList_contains frame_set_checked frame_get_checked
  frame_addEventListener : frame.

Ltac frame_step :=
  match goal with
  | |- frame (bind _ _) => apply frame_bind; [|intros ?]
  | |- frame (if ?b then _ else _) => destruct b
  | |- frame (match ?b with Some _ => _ | None => _ end) => destruct b
  | |- frame (modify _) => apply frame_modify; intros ?; by repeat split
  | |- frame (getElementById _) => apply frame_lookup_element
  | |- frame (querySelector _) => apply frame_lookup_element
  | |- frame (classList_add _ _) =>
      apply frame_classList_add, not_zoom_token; unfold zoom_tokens; set_solver
  | |- frame (classList_remove _ _) =>
      apply frame_classList_remove, not_zoom_token; unfold zoom_tokens; set_solver
  | |- frame (classList_toggle _ _ _) =>
      apply frame_classList_toggle; unfold zoom_tokens; set_solver
  | |- frame (forEach _ _) => apply frame_forEach; intros ?
  | |- frame _ => solve [eauto with frame]
  end.

Ltac frame_solve := repeat frame_step.

Lemma frame_Modal_close r : frame (Modal.close r).
Proof. unfold Modal.close. frame_solve. Qed.

Lemma frame_Modal_open r : frame (Modal.open r).
Proof. unfold Modal.open. frame_solve. Qed.

Lemma frame_closeSidebar : frame Navigation.closeSidebar.
Proof.
  unfold Navigation.closeSidebar, Navigation.menuToggle, Navigation.sidebarNav,
    Navigation.sidebarOverlay. frame_solve.
Qed.

Lemma frame_openSidebar : frame Navigation.openSidebar.
Proof.
  unfold Navigation.openSidebar, Navigation.menuToggle, Navigation.sidebarNav,
    Navigation.sidebarOverlay. frame_solve.
Qed.

Lemma frame_on_menuToggle_click : frame Navigation.on_menuToggle_click.
Proof.
  unfold Navigation.on_menuToggle_click, Navigation.sidebarNav.
  frame_solve; [apply frame_closeSidebar | apply frame_openSidebar].
Qed.

Lemma frame_on_carousel_click b : frame (AchievementModal.on_carousel_click b).
Proof.
  unfold AchievementModal.on_carousel_click, AchievementModal.modal.
  frame_solve. apply frame_Modal_open.
Qed.

Lemma frame_on_grid_click b : frame (PartnerModal.on_grid_click b).
Proof.
  unfold PartnerModal.on_grid_click, PartnerModal.modal, PartnerModal.content.
  frame_solve. apply frame_Modal_open.
Qed.

Lemma frame_switchLanguage lang : frame (LanguageSwitcher.switchLanguage lang).
Proof. unfold LanguageSwitcher.switchLanguage. frame_solve. Qed.

Lemma frame_on_toggle_change : frame LanguageSwitcher.on_toggle_change.
Proof.
  unfold LanguageSwitcher.on_toggle_change. frame_solve.
  apply frame_switchLanguage.
Qed.

Lemma frame_isActive_achievement : frame AchievementModal.isActive.
Proof. unfold AchievementModal.isActive, AchievementModal.modal. frame_solve. Qed.

Lemma frame_isActive_partner : frame PartnerModal.isActive.
Proof. unfold PartnerModal.isActive, PartnerModal.modal. frame_solve. Qed.

Lemma frame_isSidebarActive : frame Navigation.isSidebarActive.
Proof. unfold Navigation.isSidebarActive, Navigation.sidebarNav. frame_solve. Qed.

Lemma frame_isZoomed : frame Timeline.isZoomed.
Proof. unfold Timeline.isZoomed, Timeline.container. frame_solve. Qed.

(** ** Navigation requests *)

Lemma zoomToSection_number_nav_inv n p :
  1 <= n <= 3 -> timeline_wired p ->
  exists q, Timeline.zoomToSection (VNumber (Int n)) p = (q, Normal tt) ∧ nav_inv q.
Proof.
  intros Hn Hw. exists (zoomed_to (VNumber (Int n)) p). split.
  - apply zoomToSection_ok; [done|].
    by apply (names_section_token _ n), names_section_number.
  - split; [by apply zoomed_to_wired|].
    unfold section_in_range. rewrite zoomed_to_currentSection. cbn.
    apply andb_true_intro. split; apply Z.leb_le; lia.
Qed.

Lemma on_navPrev_click_nav_inv p :
  nav_inv p ->
  exists q, Timeline.on_navPrev_click p = (q, Normal tt) ∧ nav_inv q.
Proof.
  intros [Hw Hr]. rewrite on_navPrev_click_eq.
  destruct (section_in_range_cases _ Hr) as [H | [H | H]]; rewrite H; cbn.
  - by exists p.
  - by apply zoomToSection_number_nav_inv.
  - by apply zoomToSection_number_nav_inv.
Qed.

Lemma on_navNext_click_nav_inv p :
  nav_inv p ->
  exists q, Timeline.on_navNext_click p = (q, Normal tt) ∧ nav_inv q.
Proof.
  intros [Hw Hr]. rewrite on_navNext_click_eq.
  destruct (section_in_range_cases _ Hr) as [H | [H | H]]; rewrite H; cbn.
  - by apply zoomToSection_number_nav_inv.
  - by apply zoomToSection_number_nav_inv.
  - by exists p.
Qed.

Lemma on_keydown_nav_inv key p :
  nav_inv p ->
  exists q, Timeline.on_keydown key p = (q, Normal tt) ∧ nav_inv q.
Proof.
  intros [Hw Hr]. rewrite on_keydown_eq by done.
  destruct (negb (is_mobile p) && _); [by exists p|].
  destruct (section_in_range_cases _ Hr) as [H | [H | H]]; rewrite H; cbn;
    repeat (case_bool_decide; cbn);
    (by exists p) || by apply zoomToSection_number_nav_inv.
Qed.

Lemma nav_handler_inv e h q :
  nav_request e = true -> fires e h = true -> nav_inv q ->
  nav_inv (report (handler e h) q).
Proof.
  intros He Hf Hq.
  destruct e; try done; destruct h; try done; cbn [handler].
  - destruct (on_keydown_nav_inv key q Hq) as (q' & Hq' & Hi).
    by rewrite (report_normal _ _ _ _ Hq').
  - rewrite (report_normal _ _ q tt); [done|].
    apply KeyboardHandler_on_keydown_other. intros ->. done.
  - destruct (on_navPrev_click_nav_inv q Hq) as (q' & Hq' & Hi).
    by rewrite (report_normal _ _ _ _ Hq').
  - destruct (on_navNext_click_nav_inv q Hq) as (q' & Hq' & Hi).
    by rewrite (report_normal _ _ _ _ Hq').
Qed.

Lemma nav_request_default_action e p :
  nav_request e = true -> default_action e p = p.
Proof. by destruct e. Qed.

Lemma run_nav_inv p es :
  nav_inv p -> forallb nav_request es = true -> nav_inv (run p es).
Proof.
  intros Hp Hes. apply (run_preserves nav_inv nav_request); [|done|done].
  intros q e He Hq. apply dispatch_preserves.
  - by rewrite nav_request_default_action.
  - intros h q'. by apply nav_handler_inv.
Qed.

(** C3. Along every sequence of clicks on the previous and next controls
    and of ArrowLeft and ArrowRight key presses, [currentSection] stays
    one of 1, 2, 3; a previous or ArrowLeft request at section 1, and a
    next or ArrowRight request at the last section, leave the whole page
    as it is: nothing wraps around, and nothing is reported to the
    console. *)
Theorem nav_requests_stay_in_range (p : Page) (es : list Event) :
  timeline_wired p ->
  section_in_range p = true ->
  forallb nav_request es = true ->
  section_in_range (run p es) = true ∧
  (Timeline_currentSection p = Int 1 ->
   dispatch p ClickNavPrev = p ∧ dispatch p (KeyDown "ArrowLeft") = p) ∧
  (Timeline_currentSection p = Timeline.totalSections ->
   dispatch p ClickNavNext = p ∧ dispatch p (KeyDown "ArrowRight") = p).
Proof.
  intros Hw Hr Hes. split; [|split].
  - by apply (run_nav_inv p es).
  - intros H1. split; apply dispatch_fixed; try done; intros h Hf;
      destruct h; try done; cbn [handler].
    + by rewrite on_navPrev_click_eq, H1.
    + rewrite on_keydown_eq, H1 by done. cbn. by destruct (_ && _).
  - intros H3. split; apply dispatch_fixed; try done; intros h Hf;
      destruct h; try done; cbn [handler].
    + by rewrite on_navNext_click_eq, H3.
    + rewrite on_keydown_eq, H3 by done. cbn. by destruct (_ && _).
Qed.

Lemma nav_requests_stay_in_range_witness :
  section_in_range
    (run desktop_page
       [ClickNavNext; ClickNavNext; ClickNavNext; KeyDown "ArrowRight";
        KeyDown "ArrowLeft"; ClickNavPrev; ClickNavPrev]) = true ∧
  dispatch desktop_page ClickNavPrev = desktop_page ∧
  dispatch desktop_page (KeyDown "ArrowLeft") = desktop_page.
Proof.
  assert (Hw : timeline_wired desktop_page)
    by (refine (bool_decide_unpack _ _); vm_compute; exact I).
  destruct (nav_requests_stay_in_range desktop_page
              [ClickNavNext; ClickNavNext; ClickNavNext; KeyDown "ArrowRight";
               KeyDown "ArrowLeft"; ClickNavPrev; ClickNavPrev])
    as (H1 & H2 & _); [exact Hw | reflexivity | reflexivity |].
  split; [exact H1|]. apply H2. reflexivity.
Defined.

(** ** Zooming out *)

(** C5. From a zoomed state, [zoomOut()] on a desktop width leaves the
    timeline idle: the container is no longer [zoomed] and carries no
    section marker. On a mobile width (at most 768) it changes nothing, so
    the timeline stays zoomed on its section, one of 1, 2, 3. In neither
    case does it throw. *)
Theorem zoomOut_from_zoomed (p : Page) (n : Z) :
  timeline_wired p ->
  timeline_state p = Some (Zoomed n) ->
  throws Timeline.zoomOut p = None ∧
  if is_mobile p
  then exec Timeline.zoomOut p = p ∧
       timeline_state (exec Timeline.zoomOut p) = Some (Zoomed n) ∧
       1 <= n <= 3
  else timeline_state (exec Timeline.zoomOut p) = Some Idle ∧
       ("zoomed" ∉ container_classes (exec Timeline.zoomOut p)) ∧
       markers (exec Timeline.zoomOut p) = [].
Proof.
  intros Hw Hz. unfold throws, exec. rewrite zoomOut_eq by done. cbn.
  split; [done|]. destruct (is_mobile p).
  - pose proof (timeline_state_zoomed_inv _ _ Hz) as (_ & _ & Hn & _).
    done.
  - pose proof (timeline_state_zoomed_out p Hw) as Hi.
    split; [done|]. by apply timeline_state_idle_inv.
Qed.

Lemma zoomOut_from_zoomed_witness :
  timeline_state (exec Timeline.zoomOut (dispatch desktop_page (ClickSection 1)))
  = Some Idle ∧
  exec Timeline.zoomOut mobile_page = mobile_page.
Proof.
  split.
  - refine (proj1 (proj2 (zoomOut_from_zoomed
                            (dispatch desktop_page (ClickSection 1)) 2 _ _))).
    + refine (bool_decide_unpack _ _); vm_compute; exact I.
    + vm_compute; reflexivity.
  - refine (proj1 (proj2 (zoomOut_from_zoomed mobile_page 1 _ _))).
    + refine (bool_decide_unpack _ _); vm_compute; exact I.
    + vm_compute; reflexivity.
Defined.

(** ** Arrow keys behind an open modal or sidebar *)

Lemma active_zoomed_to sel v p :
  sel <> "#timelineContainer" -> active sel (zoomed_to v p) = active sel p.
Proof. intros H. unfold active. by rewrite zoomed_to_classes. Qed.

Lemma open_contexts_zoomed_to v p :
  timeline_wired p ->
  open_contexts (zoomed_to v p) =
  [active "#achievementModal" p; active "#partnerModal" p;
   active "#sidebarNav" p; true].
Proof.
  intros Hw. unfold open_contexts.
  rewrite !active_zoomed_to by done.
  rewrite zoomed_to_container_classes by done.
  repeat f_equal. apply bool_decide_eq_true_2. set_solver.
Qed.

Lemma dispatch_keydown key p :
  listening (KeyDown key) p = [Timeline_keydown; KeyboardHandler_keydown] ->
  dispatch p (KeyDown key) =
  report (KeyboardHandler.on_keydown key) (report (Timeline.on_keydown key) p).
Proof. intros H. unfold dispatch. cbn [default_action]. by rewrite H. Qed.

(** C10. On a desktop width with the timeline zoomed on section [n], an
    ArrowLeft press moves it to section [n - 1] (when there is one) and an
    ArrowRight press to [n + 1], whichever of the achievement modal, the
    partner modal and the sidebar are open at that moment; these stay as
    they were. The page is arbitrary: the listener of the timeline tests
    the width and the [zoomed] class only. *)
Theorem arrow_keys_zoom_whatever_is_open (p : Page) (n : Z) :
  timeline_wired p ->
  is_mobile p = false ->
  timeline_state p = Some (Zoomed n) ->
  listening (KeyDown "ArrowLeft") p = [Timeline_keydown; KeyboardHandler_keydown] ->
  timeline_state (dispatch p (KeyDown "ArrowLeft"))
  = Some (Zoomed (if 1 <? n then n - 1 else n)) ∧
  timeline_state (dispatch p (KeyDown "ArrowRight"))
  = Some (Zoomed (if n <? 3 then n + 1 else n)) ∧
  open_contexts (dispatch p (KeyDown "ArrowLeft")) = open_contexts p ∧
  open_contexts (dispatch p (KeyDown "ArrowRight")) = open_contexts p.
Proof.
  intros Hw Hm Hz Hl.
  pose proof (timeline_state_zoomed_inv _ _ Hz) as (Hzc & Hc & Hn & _).
  assert (Hoc : open_contexts p =
                [active "#achievementModal" p; active "#partnerModal" p;
                 active "#sidebarNav" p; true]).
  { unfold open_contexts. by rewrite (bool_decide_eq_true_2 _ Hzc). }
  rewrite !dispatch_keydown by done.
  rewrite !(report_normal (KeyboardHandler.on_keydown _) _ _ tt)
    by (by apply KeyboardHandler_on_keydown_other).
  assert (Hst : forall m, 1 <= m <= 3 ->
            timeline_state (zoomed_to (VNumber (Int m)) p) = Some (Zoomed m)).
  { intros m Hm'. by apply timeline_state_zoomed_to, names_section_number. }
  unfold report.
  rewrite (on_keydown_left p n), (on_keydown_right p n) by auto.
  assert (n = 1 \/ n = 2 \/ n = 3) as [-> | [-> | ->]] by lia; cbn;
    rewrite ?Hst by lia; rewrite ?open_contexts_zoomed_to by done;
    by rewrite ?Hz.
Qed.

Lemma arrow_keys_zoom_whatever_is_open_witness :
  open_contexts
    (run desktop_page [ClickSection 1; ClickAchievementCard; ClickMenuToggle])
  = [true; false; true; true] ∧
  timeline_state
    (run desktop_page [ClickSection 1; ClickAchievementCard; ClickMenuToggle;
                       KeyDown "ArrowLeft"])
  = Some (Zoomed 1).
Proof.
  split; [vm_compute; reflexivity|].
  change (run desktop_page [ClickSection 1; ClickAchievementCard;
                            ClickMenuToggle; KeyDown "ArrowLeft"])
    with (dispatch
            (run desktop_page [ClickSection 1; ClickAchievementCard;
                               ClickMenuToggle]) (KeyDown "ArrowLeft")).
  refine (proj1 (arrow_keys_zoom_whatever_is_open _ 2 _ _ _ _)).
  - refine (bool_decide_unpack _ _); vm_compute; exact I.
  - vm_compute; reflexivity.
  - vm_compute; reflexivity.
  - vm_compute; reflexivity.
Defined.

(** ** Resizing *)

Lemma timeline_state_mobile_mode_added p :
  timeline_wired p ->
  timeline_state (upd "#timelineContainer" (add_classes ["mobile-mode"]) p)
  = timeline_state p.
Proof.
  intros Hw. apply timeline_state_ext.
  - by rewrite upd_Timeline_currentSection.
  - intros c Hc. rewrite container_classes_add by done.
    unfold zoom_tokens in Hc. set_solver.
Qed.

Lemma timeline_state_mobile_mode_removed p :
  timeline_wired p ->
  timeline_state (upd "#timelineContainer" (remove_classes ["mobile-mode"]) p)
  = timeline_state p.
Proof.
  intros Hw. apply timeline_state_ext.
  - by rewrite upd_Timeline_currentSection.
  - intros c Hc. rewrite container_classes_remove by done.
    unfold zoom_tokens in Hc. set_solver.
Qed.

Lemma mobile_mode_added p :
  timeline_wired p ->
  mobile_mode (upd "#timelineContainer" (add_classes ["mobile-mode"]) p) = true.
Proof.
  intros Hw. unfold mobile_mode. rewrite container_classes_add by done.
  apply bool_decide_eq_true_2. set_solver.
Qed.

Lemma mobile_mode_removed p :
  timeline_wired p ->
  mobile_mode (upd "#timelineContainer" (remove_classes ["mobile-mode"]) p) = false.
Proof.
  intros Hw. unfold mobile_mode. rewrite container_classes_remove by done.
  apply bool_decide_eq_false_2. set_solver.
Qed.

Lemma dispatch_resize w p :
  listening (Resize w) p = [Timeline_resize] ->
  dispatch p (Resize w) = report Timeline.on_resize (set_innerWidth w p).
Proof.
  intros H. unfold dispatch. rewrite listening_default_action, H. done.
Qed.

(** C2, as the script has it. A resize to a mobile width (at most 768)
    marks mobile-mode and zooms to section 1 only when the timeline was
    not zoomed; a timeline already zoomed keeps its section. A resize to a
    desktop width of a timeline in mobile-mode makes it idle and clears
    mobile-mode; without mobile-mode it changes nothing. The width before
    the resize plays no part. *)
Theorem resize_reconciles_mode (p : Page) (w : Z) :
  timeline_wired p ->
  listening (Resize w) p = [Timeline_resize] ->
  if w <=? 768 then
    mobile_mode (dispatch p (Resize w)) = true ∧
    timeline_state (dispatch p (Resize w))
    = if bool_decide ("zoomed" ∈ container_classes p)
      then timeline_state p else Some (Zoomed 1)
  else
    mobile_mode (dispatch p (Resize w)) = false ∧
    timeline_state (dispatch p (Resize w))
    = if mobile_mode p then Some Idle else timeline_state p.
Proof.
  intros Hw Hl. rewrite dispatch_resize by done.
  set (p0 := set_innerWidth w p).
  assert (Hw0 : timeline_wired p0) by done.
  unfold report. rewrite on_resize_eq by done.
  change (is_mobile p0) with (w <=? 768).
  change (container_classes p0) with (container_classes p).
  change (timeline_state p) with (timeline_state p0).
  destruct (w <=? 768).
  - case_bool_decide as Hz.
    + by rewrite mobile_mode_added, timeline_state_mobile_mode_added.
    + assert (timeline_wired (zoomed_to (VNumber (Int 1)) p0))
        by by apply zoomed_to_wired.
      rewrite mobile_mode_added, timeline_state_mobile_mode_added by done.
      split; [done|]. by apply timeline_state_zoomed_to, names_section_number.
  - change (mobile_mode p) with (bool_decide ("mobile-mode" ∈ container_classes p)).
    case_bool_decide as Hm.
    + assert (timeline_wired (zoomed_out p0)) by by apply zoomed_out_wired.
      rewrite mobile_mode_removed, timeline_state_mobile_mode_removed by done.
      split; [done|]. by apply timeline_state_zoomed_out.
    + split; [|done]. unfold mobile_mode.
      change (container_classes p0) with (container_classes p).
      by apply bool_decide_eq_false_2.
Qed.

Lemma resize_reconciles_mode_witness :
  mobile_mode (dispatch desktop_page (Resize 390)) = true ∧
  timeline_state (dispatch desktop_page (Resize 390)) = Some (Zoomed 1).
Proof.
  refine (resize_reconciles_mode desktop_page 390 _ _).
  - refine (bool_decide_unpack _ _); vm_compute; exact I.
  - vm_compute; reflexivity.
Defined.

(** The claim as the specification words it fails: a desktop timeline
    zoomed on section 2 that is resized to a mobile width stays on
    section 2. *)
Lemma resize_keeps_zoomed_section :
  is_mobile (dispatch desktop_page (ClickSection 1)) = false ∧
  timeline_state (dispatch desktop_page (ClickSection 1)) = Some (Zoomed 2) ∧
  timeline_state (run desktop_page [ClickSection 1; Resize 390])
  = Some (Zoomed 2) ∧
  timeline_state (run desktop_page [ClickSection 1; Resize 390])
  <> Some (Zoomed 1).
Proof. vm_compute. repeat split; congruence. Qed.

(** ** Escape *)

Lemma getElementById_eq id p :
  getElementById id p
  = (p, Normal (match elems p !! ("#" +:+ id) with
                | Some _ => Some ("#" +:+ id)
                | None => None
                end)).
Proof. done. Qed.

Lemma active_absent sel p : elems p !! sel = None -> active sel p = false.
Proof. intros H. unfold active, classes_of. by rewrite H. Qed.

Lemma AchievementModal_isActive_eq p :
  AchievementModal.isActive p = (p, Normal (active "#achievementModal" p)).
Proof.
  unfold AchievementModal.isActive, AchievementModal.modal, bind.
  rewrite getElementById_eq. change ("#" +:+ "achievementModal") with "#achievementModal".
  destruct (elems p !! "#achievementModal") eqn:E; cbn [is_null].
  - by rewrite classList_contains_ok.
  - by rewrite active_absent.
Qed.

Lemma PartnerModal_isActive_eq p :
  PartnerModal.isActive p = (p, Normal (active "#partnerModal" p)).
Proof.
  unfold PartnerModal.isActive, PartnerModal.modal, bind.
  rewrite getElementById_eq. change ("#" +:+ "partnerModal") with "#partnerModal".
  destruct (elems p !! "#partnerModal") eqn:E; cbn [is_null].
  - by rewrite classList_contains_ok.
  - by rewrite active_absent.
Qed.

Lemma Navigation_isSidebarActive_eq p :
  Navigation.isSidebarActive p = (p, Normal (active "#sidebarNav" p)).
Proof.
  unfold Navigation.isSidebarActive, Navigation.sidebarNav, bind.
  rewrite getElementById_eq. change ("#" +:+ "sidebarNav") with "#sidebarNav".
  destruct (elems p !! "#sidebarNav") eqn:E; cbn [is_null].
  - by rewrite classList_contains_ok.
  - by rewrite active_absent.
Qed.

Lemma Timeline_isZoomed_eq p :
  timeline_wired p ->
  Timeline.isZoomed p = (p, Normal (bool_decide ("zoomed" ∈ container_classes p))).
Proof.
  intros Hw. pose proof Hw as (Hc & _).
  unfold Timeline.isZoomed, Timeline.container, bind, get, ret.
  rewrite Hc. cbn [is_null]. rewrite <- Hc. by apply container_contains_ok.
Qed.

(** The page [Modal.close] leaves when the modal exists. *)
Lemma Modal_close_ok m p :
  is_Some (elems p !! m) ->
  Modal.close (Some m) p
  = (set_body_overflow "" (upd m (remove_classes ["active"]) p), Normal tt).
Proof.
  intros H. unfold Modal.close, bind, modify. cbn [is_null].
  by rewrite classList_remove_ok.
Qed.

Lemma Modal_open_ok m p :
  is_Some (elems p !! m) ->
  Modal.open (Some m) p
  = (set_body_overflow "hidden" (upd m (add_classes ["active"]) p), Normal tt).
Proof.
  intros H. unfold Modal.open, bind, modify. cbn [is_null].
  by rewrite classList_add_ok.
Qed.

(** The page [closeSidebar] leaves when its three elements exist. *)
Lemma closeSidebar_ok p :
  sidebar_wired p ->
  Navigation.closeSidebar p
  = (set_body_overflow ""
       (upd "#sidebarOverlay" (remove_classes ["active"])
          (upd "#sidebarNav" (remove_classes ["active"])
             (upd "#menuToggle" (remove_classes ["active"]) p))), Normal tt).
Proof.
  intros (Hm & Hs & Ho).
  unfold Navigation.closeSidebar, Navigation.menuToggle, Navigation.sidebarNav,
    Navigation.sidebarOverlay, getElementById, bind, modify.
  change ("#" +:+ "menuToggle") with "#menuToggle".
  change ("#" +:+ "sidebarNav") with "#sidebarNav".
  change ("#" +:+ "sidebarOverlay") with "#sidebarOverlay".
  rewrite lookup_element_some, classList_remove_ok by done.
  rewrite lookup_element_some, classList_remove_ok by (by rewrite ?upd_is_Some).
  rewrite lookup_element_some, classList_remove_ok by (by rewrite ?upd_is_Some).
  reflexivity.
Qed.

Lemma active_removed sel p :
  active sel (upd sel (remove_classes ["active"]) p) = false.
Proof.
  unfold active. destruct (elems p !! sel) eqn:E.
  - rewrite upd_remove_classes by done. apply bool_decide_eq_false_2. set_solver.
  - unfold classes_of. rewrite upd_elems_eq, E. by apply bool_decide_eq_false_2.
Qed.

Lemma active_upd_ne sel sel' f p :
  sel <> sel' -> active sel' (upd sel f p) = active sel' p.
Proof. intros H. unfold active. by rewrite upd_classes_ne. Qed.

Lemma zoomed_upd_ne sel f p :
  timeline_wired p -> sel <> "#timelineContainer" ->
  bool_decide ("zoomed" ∈ container_classes (upd sel f p))
  = bool_decide ("zoomed" ∈ container_classes p).
Proof.
  intros (Hc & _) Hne. rewrite container_classes_upd_ne; [done|].
  rewrite Hc. congruence.
Qed.

Lemma open_contexts_zoomed_out p :
  timeline_wired p ->
  open_contexts (zoomed_out p)
  = [active "#achievementModal" p; active "#partnerModal" p;
     active "#sidebarNav" p; false].
Proof.
  intros Hw. unfold open_contexts, active.
  rewrite !zoomed_out_classes by done.
  rewrite zoomed_out_container_classes by done.
  repeat f_equal. apply bool_decide_eq_false_2. set_solver.
Qed.

(** What the keyboard handler does on Escape, branch by branch. *)
Lemma KeyboardHandler_on_keydown_escape p :
  timeline_wired p -> sidebar_wired p ->
  KeyboardHandler.on_keydown "Escape" p
  = (if active "#achievementModal" p then
       set_body_overflow "" (upd "#achievementModal" (remove_classes ["active"]) p)
     else if active "#partnerModal" p then
       set_body_overflow "" (upd "#partnerModal" (remove_classes ["active"]) p)
     else if active "#sidebarNav" p then
       set_body_overflow ""
         (upd "#sidebarOverlay" (remove_classes ["active"])
            (upd "#sidebarNav" (remove_classes ["active"])
               (upd "#menuToggle" (remove_classes ["active"]) p)))
     else if bool_decide ("zoomed" ∈ container_classes p) then
       if is_mobile p then p else zoomed_out p
     else p, Normal tt).
Proof.
  intros Hw Hs. unfold KeyboardHandler.on_keydown.
  rewrite bool_decide_eq_true_2 by done. cbn [negb]. unfold bind at 1.
  rewrite AchievementModal_isActive_eq.
  destruct (active "#achievementModal" p) eqn:Ea.
  { unfold bind, AchievementModal.modal. rewrite getElementById_eq.
    change ("#" +:+ "achievementModal") with "#achievementModal".
    destruct (elems p !! "#achievementModal") eqn:E;
      [|by rewrite active_absent in Ea].
    by rewrite Modal_close_ok. }
  unfold bind at 1. rewrite PartnerModal_isActive_eq.
  destruct (active "#partnerModal" p) eqn:Eb.
  { unfold bind, PartnerModal.modal. rewrite getElementById_eq.
    change ("#" +:+ "partnerModal") with "#partnerModal".
    destruct (elems p !! "#partnerModal") eqn:E;
      [|by rewrite active_absent in Eb].
    by rewrite Modal_close_ok. }
  unfold bind at 1. rewrite Navigation_isSidebarActive_eq.
  destruct (active "#sidebarNav" p) eqn:Ec.
  { by apply closeSidebar_ok. }
  unfold bind at 1. rewrite Timeline_isZoomed_eq by done.
  destruct (bool_decide ("zoomed" ∈ container_classes p)); [|done].
  by apply zoomOut_eq.
Qed.

Lemma on_keydown_escape_noop p :
  timeline_wired p -> Timeline.on_keydown "Escape" p = (p, Normal tt).
Proof.
  intros Hw. rewrite on_keydown_eq by done.
  rewrite (bool_decide_eq_false_2 ("Escape" = "ArrowLeft")) by done.
  rewrite (bool_decide_eq_false_2 ("Escape" = "ArrowRight")) by done.
  by destruct (_ && _).
Qed.

(** C1, as the script has it. One Escape press closes the first open
    context in the order achievement modal, partner modal, sidebar,
    timeline zoom, and leaves the open or closed state of every other
    context as it was, except that on a mobile width (at most 768) a
    zoomed timeline that is the first open context stays zoomed and
    nothing is closed. *)
Theorem escape_closes_first_open_context (p : Page) :
  timeline_wired p ->
  sidebar_wired p ->
  listening (KeyDown "Escape") p = [Timeline_keydown; KeyboardHandler_keydown] ->
  open_contexts (dispatch p (KeyDown "Escape"))
  = if is_mobile p && bool_decide (open_contexts p = [false; false; false; true])
    then open_contexts p
    else close_first (open_contexts p).
Proof.
  intros Hw Hs Hl. rewrite dispatch_keydown by done.
  rewrite (report_normal _ _ _ _ (on_keydown_escape_noop p Hw)).
  rewrite (report_normal _ _ _ _ (KeyboardHandler_on_keydown_escape p Hw Hs)).
  unfold open_contexts.
  destruct (active "#achievementModal" p) eqn:Ea.
  { rewrite (bool_decide_eq_false_2 ([true; _; _; _] = _)), andb_false_r by done.
    cbn [close_first].
    change (container_classes (set_body_overflow "" ?q)) with (container_classes q).
    change (active ?s (set_body_overflow "" ?q)) with (active s q).
    by rewrite active_removed, !active_upd_ne, zoomed_upd_ne. }
  destruct (active "#partnerModal" p) eqn:Eb.
  { rewrite (bool_decide_eq_false_2 ([false; true; _; _] = _)), andb_false_r by done.
    cbn [close_first].
    change (container_classes (set_body_overflow "" ?q)) with (container_classes q).
    change (active ?s (set_body_overflow "" ?q)) with (active s q).
    by rewrite active_removed, !active_upd_ne, zoomed_upd_ne, Ea. }
  destruct (active "#sidebarNav" p) eqn:Ec.
  { rewrite (bool_decide_eq_false_2 ([false; false; true; _] = _)), andb_false_r by done.
    cbn [close_first].
    change (container_classes (set_body_overflow "" ?q)) with (container_classes q).
    change (active ?s (set_body_overflow "" ?q)) with (active s q).
    rewrite !zoomed_upd_ne by (done || by rewrite ?timeline_wired_upd).
    rewrite (active_upd_ne "#sidebarOverlay" "#sidebarNav") by done.
    rewrite active_removed.
    by rewrite !active_upd_ne, Ea, Eb. }
  destruct (bool_decide ("zoomed" ∈ container_classes p)) eqn:Ez.
  - rewrite (bool_decide_eq_true_2 ([false; false; false; true] = _)),
      andb_true_r by done.
    cbn [close_first].
    destruct (is_mobile p).
    + by rewrite Ea, Eb, Ec, Ez.
    + pose proof (open_contexts_zoomed_out p Hw) as Ho.
      unfold open_contexts in Ho. by rewrite Ho, Ea, Eb, Ec.
  - rewrite (bool_decide_eq_false_2 ([false; false; false; false] = _)),
      andb_false_r by done.
    cbn [close_first].
    by rewrite Ea, Eb, Ec, Ez.
Qed.

Lemma escape_closes_first_open_context_witness :
  open_contexts
    (run desktop_page [ClickSection 1; ClickAchievementCard; ClickMenuToggle])
  = [true; false; true; true] ∧
  open_contexts
    (run desktop_page [ClickSection 1; ClickAchievementCard; ClickMenuToggle;
                       KeyDown "Escape"])
  = [false; false; true; true].
Proof.
  split; [vm_compute; reflexivity|].
  change (run desktop_page [ClickSection 1; ClickAchievementCard;
                            ClickMenuToggle; KeyDown "Escape"])
    with (dispatch
            (run desktop_page [ClickSection 1; ClickAchievementCard;
                               ClickMenuToggle]) (KeyDown "Escape")).
  rewrite escape_closes_first_open_context.
  - vm_compute; reflexivity.
  - refine (bool_decide_unpack _ _); vm_compute; exact I.
  - refine (bool_decide_unpack _ _); vm_compute; exact I.
  - vm_compute; reflexivity.
Defined.

(** The claim as the specification words it fails on a mobile width: the
    zoomed timeline is the first open context, and Escape closes
    nothing. *)
Lemma escape_on_mobile_closes_nothing :
  open_contexts mobile_page = [false; false; false; true] ∧
  open_contexts (dispatch mobile_page (KeyDown "Escape"))
  = [false; false; false; true] ∧
  open_contexts (dispatch mobile_page (KeyDown "Escape"))
  <> close_first (open_contexts mobile_page).
Proof. vm_compute. repeat split; congruence. Qed.

(** ** The invariant of the timeline *)

Lemma timeline_state_consistent p :
  is_Some (timeline_state p) <-> markers_consistent p.
Proof.
  unfold markers_consistent, timeline_state. case_bool_decide as Hz; split.
  - intros [s Hs].
    destruct (markers p) as [|k [|k' l]] eqn:Hm; try done;
      destruct (Timeline_currentSection p) as [n|]; try done.
    case_bool_decide; [|done]. subst.
    split; [cbn; lia|]. split; [by eauto | done].
  - intros (_ & H & _). destruct (H Hz) as (n & -> & ->).
    by rewrite bool_decide_eq_true_2.
  - intros [s Hs]. destruct (markers p) as [|k l] eqn:Hm; [|done].
    split; [cbn; lia|]. split; done.
  - intros (_ & _ & H). by rewrite (H Hz).
Qed.

Lemma valid_sections_zoomed_to v p :
  valid_sections (zoomed_to v p) <-> valid_sections p.
Proof.
  unfold valid_sections, zoomed_to, nav_updated.
  by rewrite !upd_sectionAreas.
Qed.

Lemma valid_sections_zoomed_out p :
  valid_sections (zoomed_out p) <-> valid_sections p.
Proof.
  unfold valid_sections, zoomed_out, nav_updated.
  by rewrite !upd_sectionAreas.
Qed.

Lemma timeline_inv_zoomed_to v n p :
  timeline_wired p -> valid_sections p -> names_section v n ->
  timeline_inv (zoomed_to v p).
Proof.
  intros Hw Hv Hn. split; [by apply zoomed_to_wired|].
  split; [by apply valid_sections_zoomed_to|]. split.
  - unfold section_in_range. rewrite zoomed_to_currentSection.
    destruct Hn as (-> & _ & Hn). apply andb_true_intro.
    split; apply Z.leb_le; lia.
  - by rewrite (timeline_state_zoomed_to v n).
Qed.

Lemma timeline_inv_zoomed_out p : timeline_inv p -> timeline_inv (zoomed_out p).
Proof.
  intros (Hw & Hv & Hr & Hs).
  split; [by apply zoomed_out_wired|].
  split; [by apply valid_sections_zoomed_out|]. split.
  - unfold section_in_range. by rewrite zoomed_out_currentSection.
  - by rewrite timeline_state_zoomed_out.
Qed.

Lemma mobile_mode_not_zoom_token el c tokens :
  tokens = ["mobile-mode"] -> c ∈ "zoomed" :: zoom_tokens ->
  (c ∈ classList (add_classes tokens el) <-> c ∈ classList el) ∧
  (c ∈ classList (remove_classes tokens el) <-> c ∈ classList el).
Proof. intros -> Hc. unfold zoom_tokens in Hc. cbn. set_solver. Qed.

Lemma timeline_inv_mobile_mode_added p :
  timeline_inv p ->
  timeline_inv (upd "#timelineContainer" (add_classes ["mobile-mode"]) p).
Proof.
  apply timeline_inv_same, same_timeline_upd. intros el c Hc.
  by apply (mobile_mode_not_zoom_token el c ["mobile-mode"]).
Qed.

Lemma timeline_inv_mobile_mode_removed p :
  timeline_inv p ->
  timeline_inv (upd "#timelineContainer" (remove_classes ["mobile-mode"]) p).
Proof.
  apply timeline_inv_same, same_timeline_upd. intros el c Hc.
  by apply (mobile_mode_not_zoom_token el c ["mobile-mode"]).
Qed.

Lemma keeps_frame {A} (m : JS A) : frame m -> keeps timeline_inv m.
Proof. intros H p. apply timeline_inv_same, H. Qed.

Lemma keeps_bind {A B} I (m : JS A) (k : A -> JS B) :
  keeps I m -> (forall a, keeps I (k a)) -> keeps I (bind m k).
Proof.
  intros Hm Hk p Hp. rewrite exec_bind. specialize (Hm p Hp). unfold exec in Hm.
  destruct (m p) as [q [a|e]]; cbn in Hm; [|done]. by apply Hk.
Qed.

Lemma keeps_zoomToSection_number n :
  1 <= n <= 3 -> keeps timeline_inv (Timeline.zoomToSection (VNumber (Int n))).
Proof.
  intros Hn p (Hw & Hv & _). unfold exec. rewrite zoomToSection_number by done.
  by apply (timeline_inv_zoomed_to _ n), names_section_number.
Qed.

Lemma keeps_zoomOut : keeps timeline_inv Timeline.zoomOut.
Proof.
  intros p Hp. unfold exec. rewrite zoomOut_eq by apply Hp. cbn.
  destruct (is_mobile p); [done|]. by apply timeline_inv_zoomed_out.
Qed.

Lemma keeps_on_resize : keeps timeline_inv Timeline.on_resize.
Proof.
  intros p Hp. pose proof Hp as (Hw & Hv & _).
  unfold exec. rewrite on_resize_eq by done.
  destruct (is_mobile p).
  - case_bool_decide; cbn.
    + by apply timeline_inv_mobile_mode_added.
    + apply timeline_inv_mobile_mode_added.
      by apply (timeline_inv_zoomed_to _ 1), names_section_number.
  - case_bool_decide; cbn; [|done].
    by apply timeline_inv_mobile_mode_removed, timeline_inv_zoomed_out.
Qed.

Lemma keeps_on_navPrev_click : keeps timeline_inv Timeline.on_navPrev_click.
Proof.
  intros p Hp. pose proof Hp as (Hw & Hv & Hr & _).
  unfold exec. rewrite on_navPrev_click_eq.
  destruct (section_in_range_cases _ Hr) as [H | [H | H]]; rewrite H; cbn;
    try done; by apply keeps_zoomToSection_number.
Qed.

Lemma keeps_on_navNext_click : keeps timeline_inv Timeline.on_navNext_click.
Proof.
  intros p Hp. pose proof Hp as (Hw & Hv & Hr & _).
  unfold exec. rewrite on_navNext_click_eq.
  destruct (section_in_range_cases _ Hr) as [H | [H | H]]; rewrite H; cbn;
    try done; by apply keeps_zoomToSection_number.
Qed.

Lemma keeps_on_keydown key : keeps timeline_inv (Timeline.on_keydown key).
Proof.
  intros p Hp. pose proof Hp as (Hw & Hv & Hr & _).
  unfold exec. rewrite on_keydown_eq by done.
  destruct (negb (is_mobile p) && _); [done|].
  destruct (section_in_range_cases _ Hr) as [H | [H | H]]; rewrite H; cbn;
    repeat (case_bool_decide; cbn); try done;
    by apply keeps_zoomToSection_number.
Qed.

Lemma keeps_on_svg_click : keeps timeline_inv (Timeline.on_svg_click false).
Proof.
  intros p Hp. unfold exec. rewrite on_svg_click_eq by apply Hp.
  destruct (is_mobile p); [done|]. case_bool_decide; cbn; [|done].
  by apply timeline_inv_zoomed_out.
Qed.

Lemma names_section_data data :
  data ∈ [Some "1"; Some "2"; Some "3"] ->
  exists n, names_section
              (match data with Some s => VString s | None => VUndefined end) n.
Proof.
  intros H. apply elem_of_cons in H as [-> | H]; [by exists 1|].
  apply elem_of_cons in H as [-> | H]; [by exists 2|].
  apply list_elem_of_singleton in H as ->. by exists 3.
Qed.

Lemma keeps_on_section_click data :
  data ∈ [Some "1"; Some "2"; Some "3"] ->
  keeps timeline_inv (Timeline.on_section_click data).
Proof.
  intros Hd p Hp. pose proof Hp as (Hw & Hv & _).
  unfold exec. rewrite on_section_click_eq.
  destruct (is_mobile p); [done|].
  destruct (names_section_data data Hd) as [n Hn].
  rewrite zoomToSection_ok by (done || by apply (names_section_token _ n)).
  by apply (timeline_inv_zoomed_to _ n).
Qed.

Lemma keeps_KeyboardHandler_on_keydown key :
  keeps timeline_inv (KeyboardHandler.on_keydown key).
Proof.
  unfold KeyboardHandler.on_keydown.
  destruct (negb _); [by apply keeps_frame, frame_ret|].
  apply keeps_bind; [apply keeps_frame, frame_isActive_achievement|].
  intros [|].
  { apply keeps_frame, frame_bind; [apply frame_lookup_element|].
    intros m. apply frame_Modal_close. }
  apply keeps_bind; [apply keeps_frame, frame_isActive_partner|].
  intros [|].
  { apply keeps_frame, frame_bind; [apply frame_lookup_element|].
    intros m. apply frame_Modal_close. }
  apply keeps_bind; [apply keeps_frame, frame_isSidebarActive|].
  intros [|]; [apply keeps_frame, frame_closeSidebar|].
  apply keeps_bind; [apply keeps_frame, frame_isZoomed|].
  intros [|]; [apply keeps_zoomOut | apply keeps_frame, frame_ret].
Qed.

(** Every listener keeps the invariant. *)
Lemma handler_keeps_timeline_inv e h : keeps timeline_inv (handler e h).
Proof.
  destruct h; cbn [handler].
  - apply keeps_frame, frame_on_menuToggle_click.
  - apply keeps_frame, frame_closeSidebar.
  - apply keeps_frame, frame_closeSidebar.
  - apply keeps_on_resize.
  - intros p Hp. unfold exec, bind, get.
    destruct (sectionAreas p !! i) as [data|] eqn:E; [|done].
    apply keeps_on_section_click; [|done].
    destruct Hp as (_ & Hv & _). unfold valid_sections in Hv.
    rewrite Forall_forall in Hv. apply Hv. by eapply list_elem_of_lookup_2.
  - apply keeps_zoomOut.
  - apply keeps_on_navPrev_click.
  - apply keeps_on_navNext_click.
  - apply keeps_on_svg_click.
  - apply keeps_on_keydown.
  - apply keeps_frame, frame_Modal_close.
  - apply keeps_frame, frame_Modal_close.
  - apply keeps_frame, frame_ret.
  - apply keeps_frame, frame_on_carousel_click.
  - apply keeps_frame, frame_on_grid_click.
  - apply keeps_KeyboardHandler_on_keydown.
  - apply keeps_frame, frame_on_toggle_change.
Qed.

Lemma timeline_inv_report {A} (m : JS A) p :
  timeline_inv (exec m p) -> timeline_inv (report m p).
Proof. unfold exec, report. by destruct (m p) as [q [a|e]]. Qed.

Lemma timeline_inv_default_action e p :
  timeline_inv p -> timeline_inv (default_action e p).
Proof.
  destruct e; try done. cbn.
  destruct (LanguageSwitcher_toggle p) as [t|]; [|done].
  destruct (elems p !! t) as [el|] eqn:E; [|done].
  pose proof (same_timeline_upd t
    (fun el => mkElement (classList el) (disabled el) (negb (checked el))) p) as H.
  unfold upd in H. rewrite E in H. apply timeline_inv_same, H. done.
Qed.

Lemma dispatch_keeps_timeline_inv p e :
  timeline_inv p -> timeline_inv (dispatch p e).
Proof.
  intros Hp. apply dispatch_preserves.
  - by apply timeline_inv_default_action.
  - intros h q _ Hq. by apply timeline_inv_report, handler_keeps_timeline_inv.
Qed.

Lemma run_keeps_timeline_inv es p :
  timeline_inv p -> timeline_inv (run p es).
Proof.
  revert p. induction es as [|e es IH]; intros p Hp; [done|].
  cbn. by apply IH, dispatch_keeps_timeline_inv.
Qed.

(** ** Start-up *)

Lemma exec_bind_post {A B} (I : Page -> Prop) (m : JS A) (k : A -> JS B) p :
  I (exec m p) -> (forall a, keeps I (k a)) -> I (exec (bind m k) p).
Proof.
  intros Hm Hk. rewrite exec_bind. unfold exec in Hm.
  destruct (m p) as [q [a|e]]; cbn in Hm; [|done]. by apply Hk.
Qed.

Lemma frame_addGlobalListener h : frame (addGlobalListener h).
Proof. apply frame_modify. intros p. by repeat split. Qed.

Lemma frame_Modal_setup m b c : frame (Modal.setup m b c).
Proof. unfold Modal.setup. frame_solve. Qed.

Lemma frame_AchievementModal_init : frame AchievementModal.init.
Proof.
  unfold AchievementModal.init, AchievementModal.modal. frame_solve.
  apply frame_Modal_setup.
Qed.

Lemma frame_PartnerModal_init : frame PartnerModal.init.
Proof.
  unfold PartnerModal.init, PartnerModal.modal. frame_solve.
  apply frame_Modal_setup.
Qed.

Lemma frame_KeyboardHandler_init : frame KeyboardHandler.init.
Proof. apply frame_addGlobalListener. Qed.

Lemma frame_storeOriginalTexts : frame LanguageSwitcher.storeOriginalTexts.
Proof. unfold LanguageSwitcher.storeOriginalTexts. frame_solve. Qed.

Lemma frame_LanguageSwitcher_init : frame LanguageSwitcher.init.
Proof.
  unfold LanguageSwitcher.init. frame_solve.
  - apply frame_storeOriginalTexts.
  - apply frame_switchLanguage.
Qed.

Lemma addEventListener_ok h r p :
  is_Some (elems p !! h) ->
  addEventListener (Some h) r p
  = (set_listeners (listeners p ++ [r]) p, Normal tt).
Proof.
  intros [el H]. unfold addEventListener, bind, modify.
  by rewrite (deref_ok _ _ _ H).
Qed.

(** [Navigation.init] on a page with the three elements of the sidebar
    adds its listeners and changes nothing else. *)
Lemma Navigation_init_ok p :
  sidebar_wired p ->
  Navigation.init p
  = (set_listeners
       (((listeners p ++ [Navigation_menuToggle_click])
           ++ [Navigation_overlay_click]) ++ [Navigation_link_click]) p,
     Normal tt).
Proof.
  intros (Hm & Hs & Ho).
  unfold Navigation.init, Navigation.initSidebar, Navigation.menuToggle,
    Navigation.sidebarNav, Navigation.sidebarOverlay, getElementById, bind.
  change ("#" +:+ "menuToggle") with "#menuToggle".
  change ("#" +:+ "sidebarNav") with "#sidebarNav".
  change ("#" +:+ "sidebarOverlay") with "#sidebarOverlay".
  rewrite lookup_element_some, addEventListener_ok by done.
  rewrite lookup_element_some, addEventListener_ok by done.
  rewrite lookup_element_some, addEventListener_ok by done.
  reflexivity.
Qed.

(** The registrations that end [setupInteractions]. *)
Lemma frame_registrations (p : Page) zoomOutBtn navPrev navNext svg :
  frame
    (addGlobalListener Timeline_resize ;;
     forEach (fun i => addGlobalListener (Timeline_section_click i))
             (seq 0 (length (sectionAreas p))) ;;
     addEventListener zoomOutBtn Timeline_zoomOutBtn_click ;;
     addEventListener navPrev Timeline_navPrev_click ;;
     addEventListener navNext Timeline_navNext_click ;;
     (when (negb (is_null svg)) then addEventListener svg Timeline_svg_click) ;;
     addGlobalListener Timeline_keydown).
Proof. frame_solve; apply frame_addGlobalListener. Qed.

Lemma timeline_inv_setupInteractions p :
  timeline_elements p -> valid_sections p -> authored_idle p ->
  Timeline_currentSection p = Int 1 ->
  timeline_inv (exec Timeline.setupInteractions p).
Proof.
  intros (Hc & Hp & Hn) Hv Ha H1.
  set (p1 := set_Timeline_container (Some "#timelineContainer") p).
  assert (Hw1 : timeline_wired p1) by done.
  assert (Hi1 : timeline_inv p1).
  { repeat split; try done.
    - unfold section_in_range. change (Timeline_currentSection p1)
        with (Timeline_currentSection p). by rewrite H1.
    - unfold authored_idle, zoom_tokens in Ha.
      rewrite !Forall_cons in Ha. destruct Ha as (A0 & A1 & A2 & A3 & _).
      rewrite (timeline_state_idle p1); done. }
  unfold Timeline.setupInteractions, getElementById.
  change ("#" +:+ "timelineContainer") with "#timelineContainer".
  rewrite exec_bind, lookup_element_some by done.
  rewrite exec_bind. unfold modify at 1. fold p1.
  rewrite exec_bind. destruct (lookup_element _ p1) as [? [zoomOutBtn|?]] eqn:E1;
    unfold lookup_element in E1; inversion E1; subst; clear E1.
  rewrite exec_bind. unfold get at 1.
  rewrite exec_bind. unfold querySelector.
  destruct (lookup_element _ p1) as [? [svg|?]] eqn:E1;
    unfold lookup_element in E1; inversion E1; subst; clear E1.
  rewrite exec_bind.
  destruct (lookup_element _ p1) as [? [navPrev|?]] eqn:E1;
    unfold lookup_element in E1; inversion E1; subst; clear E1.
  rewrite exec_bind.
  destruct (lookup_element _ p1) as [? [navNext|?]] eqn:E1;
    unfold lookup_element in E1; inversion E1; subst; clear E1.
  rewrite exec_bind. unfold Timeline.isMobile at 1, bind at 1, get at 1, ret at 1.
  apply exec_bind_post.
  - destruct (innerWidth p1 <=? 768); [|done].
    rewrite exec_bind, zoomToSection_number by (done || lia).
    rewrite exec_bind. unfold Timeline.container at 1, bind at 1, get at 1, ret at 1.
    assert (Hw2 : timeline_wired (zoomed_to (VNumber (Int 1)) p1))
      by by apply zoomed_to_wired.
    destruct Hw2 as (Hc2 & He2 & _). rewrite Hc2.
    unfold exec. rewrite classList_add_ok by done. cbn.
    apply timeline_inv_mobile_mode_added.
    by apply (timeline_inv_zoomed_to _ 1).
  - intros _. apply keeps_frame.
    match goal with
    | |- frame (bind _ (fun _ => bind (forEach _ _) ?k)) =>
        apply (frame_registrations p1)
    end.
Qed.

Lemma timeline_inv_load d :
  sidebar_wired d -> timeline_elements d -> valid_sections d ->
  authored_idle d ->
  timeline_inv (load d).
Proof.
  intros Hs He Hv Ha. unfold load. apply timeline_inv_report.
  unfold init. rewrite exec_bind, Navigation_init_ok by done.
  apply exec_bind_post.
  - by apply timeline_inv_setupInteractions.
  - intros _. apply keeps_frame.
    apply frame_bind; [apply frame_AchievementModal_init|]. intros _.
    apply frame_bind; [apply frame_PartnerModal_init|]. intros _.
    apply frame_bind; [apply frame_KeyboardHandler_init|]. intros _.
    apply frame_LanguageSwitcher_init.
Qed.

(** C9. After start-up, and after every event that follows, the container
    of the timeline carries at most one of the classes [zoom-section-1],
    [zoom-section-2], [zoom-section-3]; when it is [zoomed] that class is
    the one of [currentSection], and when it is not it carries none. The
    same holds right after [zoomToSection] (which leaves the timeline
    zoomed on the section it is given), [zoomOut] and the resize listener
    run in any state reached. The document is any one that has the
    elements of the sidebar and of the timeline, whose hot-zones carry
    [data-section] 1, 2 or 3, and whose container is authored without
    these classes. *)
Theorem timeline_markers_consistent (d : Page) (es : list Event) :
  sidebar_wired d ->
  timeline_elements d ->
  valid_sections d ->
  authored_idle d ->
  markers_consistent (load d) ∧
  markers_consistent (run (load d) es) ∧
  (forall v n, names_section v n ->
     timeline_state (exec (Timeline.zoomToSection v) (run (load d) es))
     = Some (Zoomed n) ∧
     markers_consistent (exec (Timeline.zoomToSection v) (run (load d) es))) ∧
  markers_consistent (exec Timeline.zoomOut (run (load d) es)) ∧
  markers_consistent (exec Timeline.on_resize (run (load d) es)).
Proof.
  intros Hs He Hv Ha.
  pose proof (timeline_inv_load d Hs He Hv Ha) as H0.
  pose proof (run_keeps_timeline_inv es _ H0) as H.
  split; [apply timeline_state_consistent, H0|].
  split; [apply timeline_state_consistent, H|].
  split; [|split].
  - intros v n Hn. destruct H as (Hw & Hvs & _).
    unfold exec. rewrite zoomToSection_ok
      by (done || by apply (names_section_token _ n)).
    cbn. pose proof (timeline_state_zoomed_to v n _ Hw Hn) as Hz.
    split; [done|]. apply timeline_state_consistent. by rewrite Hz.
  - apply timeline_state_consistent. by apply keeps_zoomOut.
  - apply timeline_state_consistent. by apply keeps_on_resize.
Qed.

Lemma timeline_markers_consistent_witness :
  markers_consistent
    (run (load (document_at 1280))
       [ClickSection 2; ClickNavPrev; Resize 390; KeyDown "ArrowLeft";
        KeyDown "Escape"; Resize 1280; ClickSection 0; ClickSvg]).
Proof.
  refine (proj1 (proj2 (timeline_markers_consistent (document_at 1280)
            [ClickSection 2; ClickNavPrev; Resize 390; KeyDown "ArrowLeft";
             KeyDown "Escape"; Resize 1280; ClickSection 0; ClickSvg]
            _ _ _ _)));
    refine (bool_decide_unpack _ _); vm_compute; exact I.
Defined.

(** After start-up the hypotheses of the navigation property hold: the
    sections stay in range along every sequence of navigation requests
    that follows a page load. *)
Corollary section_in_range_after_load (d : Page) (es : list Event) :
  sidebar_wired d -> timeline_elements d -> valid_sections d ->
  authored_idle d -> forallb nav_request es = true ->
  section_in_range (run (load d) es) = true.
Proof.
  intros Hs He Hv Ha Hes.
  destruct (timeline_inv_load d Hs He Hv Ha) as (Hw & _ & Hr & _).
  by apply (run_nav_inv (load d) es).
Qed.

(** ** Switching the language *)

Lemma truthy_Some s : s <> "" -> LanguageSwitcher.truthy (Some s) = true.
Proof. intros H. cbn. by rewrite bool_decide_eq_false_2. Qed.



(** [switchLanguage] on a page with the two labels. *)
Lemma switchLanguage_eq lang p :
  is_Some (elems p !! ".lang-en") -> is_Some (elems p !! ".lang-de") ->
  LanguageSwitcher.switchLanguage lang p
  = (set_html_lang lang
       (set_translatable
          (map (LanguageSwitcher.translate lang (LanguageSwitcher_originalTexts p))
               (translatable p))
          (upd ".lang-de"
             (if bool_decide (lang = "de") then add_classes ["active"]
              else remove_classes ["active"])
             (upd ".lang-en"
                (if bool_decide (lang = "en") then add_classes ["active"]
                 else remove_classes ["active"])
                (set_currentLang lang p)))), Normal tt).
Proof.
  intros Hen Hde.
  unfold LanguageSwitcher.switchLanguage, querySelector, bind, modify,
    classList_toggle.
  rewrite lookup_element_some by done.
  assert (E1 : forall (b : bool) q, is_Some (elems q !! ".lang-en") ->
            (if b then classList_add (Some ".lang-en") ["active"]
             else classList_remove (Some ".lang-en") ["active"]) q
            = (upd ".lang-en" (if b then add_classes ["active"]
                               else remove_classes ["active"]) q, Normal tt)).
  { intros [|] q Hq; [by apply classList_add_ok | by apply classList_remove_ok]. }
  assert (E2 : forall (b : bool) q, is_Some (elems q !! ".lang-de") ->
            (if b then classList_add (Some ".lang-de") ["active"]
             else classList_remove (Some ".lang-de") ["active"]) q
            = (upd ".lang-de" (if b then add_classes ["active"]
                               else remove_classes ["active"]) q, Normal tt)).
  { intros [|] q Hq; [by apply classList_add_ok | by apply classList_remove_ok]. }
  rewrite E1 by done.
  rewrite lookup_element_some by (by rewrite upd_is_Some).
  rewrite E2 by (by rewrite upd_is_Some).
  by rewrite !upd_translatable, !upd_LanguageSwitcher_originalTexts.
Qed.





(** ** Absent elements *)

Lemma throws_bind_throw {A B} (m : JS A) (k : A -> JS B) p e :
  throws m p = Some e -> throws (bind m k) p = Some e.
Proof.
  unfold throws, bind. destruct (m p) as [q [a|e']]; cbn; [done|]. by intros [= ->].
Qed.

Lemma addEventListener_null r p :
  addEventListener None r p = (p, Throw TypeError).
Proof. done. Qed.

Lemma lookup_element_eq sel p :
  lookup_element sel p
  = (p, Normal (match elems p !! sel with Some _ => Some sel | None => None end)).
Proof. done. Qed.







(** * Further properties *)

(** ** Computations that respect a relation between pages *)

Section Respects.

Context (R : Page -> Page -> Prop) `{!PreOrder R}.

Lemma respects_ret {A} (a : A) : respects R (ret a).
Proof. intros p. reflexivity. Qed.

Lemma respects_throw {A} e : respects R (@throw A e).
Proof. intros p. reflexivity. Qed.

Lemma respects_get : respects R get.
Proof. intros p. reflexivity. Qed.

Lemma respects_bind {A B} (m : JS A) (k : A -> JS B) :
  respects R m -> (forall a, respects R (k a)) -> respects R (bind m k).
Proof.
  intros Hm Hk p. rewrite exec_bind. specialize (Hm p). unfold exec in Hm.
  destruct (m p) as [q [a|e]]; cbn in Hm; [|done].
  etrans; [done|]. apply Hk.
Qed.

Lemma respects_lookup_element sel : respects R (lookup_element sel).
Proof. intros p. reflexivity. Qed.

Lemma respects_deref r : respects R (deref r).
Proof.
  intros p. unfold exec, deref. destruct r as [h|]; [|reflexivity].
  destruct (elems p !! h); reflexivity.
Qed.

Lemma respects_check_tokens tokens : respects R (check_tokens tokens).
Proof. intros p. unfold exec. rewrite check_tokens_page. reflexivity. Qed.

Lemma respects_modify f : (forall p, R p (f p)) -> respects R (modify f).
Proof. intros H p. apply H. Qed.

Lemma respects_addEventListener r h :
  (forall p, R p (set_listeners (listeners p ++ [h]) p)) ->
  respects R (addEventListener r h).
Proof.
  intros H. apply respects_bind; [apply respects_deref|].
  intros _. by apply respects_modify.
Qed.

Lemma respects_forEach {A} (f : A -> JS unit) l :
  (forall x, respects R (f x)) -> respects R (forEach f l).
Proof.
  intros H. induction l as [|x l IH]; [apply respects_ret|].
  cbn. apply respects_bind; [apply H|]. intros _. apply IH.
Qed.

(** Writing the class list, the [checked] property, and the fields the
    modules other than the timeline write. *)
Hypothesis R_classes : forall h el c p,
  elems p !! h = Some el ->
  R p (set_elems (<[h := with_classes el c]> (elems p)) p).
Hypothesis R_checked : forall h el b p,
  elems p !! h = Some el ->
  R p (set_elems (<[h := mkElement (classList el) (disabled el) b]> (elems p)) p).
Hypothesis R_body_overflow : forall s p, R p (set_body_overflow s p).
Hypothesis R_html_lang : forall s p, R p (set_html_lang s p).
Hypothesis R_translatable : forall l p, R p (set_translatable l p).
Hypothesis R_preferredLanguage : forall o p, R p (set_preferredLanguage o p).
Hypothesis R_currentLang : forall s p, R p (set_currentLang s p).

Lemma respects_classList_contains r c : respects R (classList_contains r c).
Proof.
  apply respects_bind; [apply respects_deref|]. intros x. apply respects_ret.
Qed.

Lemma respects_classList_add r tokens : respects R (classList_add r tokens).
Proof.
  intros p. unfold classList_add. rewrite exec_bind. unfold deref.
  destruct r as [h|]; [|reflexivity].
  destruct (elems p !! h) as [el|] eqn:E; [|reflexivity].
  rewrite exec_bind.
  pose proof (check_tokens_page tokens p) as Hp.
  destruct (check_tokens tokens p) as [q [[]|e]]; cbn in Hp; subst q;
    [|reflexivity].
  cbn. by apply R_classes.
Qed.

Lemma respects_classList_remove r tokens : respects R (classList_remove r tokens).
Proof.
  intros p. unfold classList_remove. rewrite exec_bind. unfold deref.
  destruct r as [h|]; [|reflexivity].
  destruct (elems p !! h) as [el|] eqn:E; [|reflexivity].
  rewrite exec_bind.
  pose proof (check_tokens_page tokens p) as Hp.
  destruct (check_tokens tokens p) as [q [[]|e]]; cbn in Hp; subst q;
    [|reflexivity].
  cbn. by apply R_classes.
Qed.

Lemma respects_classList_toggle r token force :
  respects R (classList_toggle r token force).
Proof.
  unfold classList_toggle.
  destruct force; [apply respects_classList_add | apply respects_classList_remove].
Qed.

Lemma respects_set_checked r b : respects R (set_checked r b).
Proof.
  intros p. unfold set_checked. rewrite exec_bind. unfold deref.
  destruct r as [h|]; [|reflexivity].
  destruct (elems p !! h) as [el|] eqn:E; [|reflexivity].
  cbn. by apply R_checked.
Qed.

Lemma respects_get_checked r : respects R (get_checked r).
Proof.
  apply respects_bind; [apply respects_deref|]. intros x. apply respects_ret.
Qed.

Ltac respects_step :=
  match goal with
  | |- respects _ (bind _ _) => apply respects_bind; [|intros ?]
  | |- respects _ (if ?b then _ else _) => destruct b
  | |- respects _ (match ?b with Some _ => _ | None => _ end) => destruct b
  | |- respects _ (ret _) => apply respects_ret
  | |- respects _ get => apply respects_get
  | |- respects _ (modify _) => apply respects_modify; intros ?; solve [auto]
  | |- respects _ (getElementById _) => apply respects_lookup_element
  | |- respects _ (querySelector _) => apply respects_lookup_element
  | |- respects _ (lookup_element _) => apply respects_lookup_element
  | |- respects _ (deref _) => apply respects_deref
  | |- respects _ (classList_add _ _) => apply respects_classList_add
  | |- respects _ (classList_remove _ _) => apply respects_classList_remove
  | |- respects _ (classList_toggle _ _ _) => apply respects_classList_toggle
  | |- respects _ (classList_contains _ _) => apply respects_classList_contains
  | |- respects _ (set_checked _ _) => apply respects_set_checked
  | |- respects _ (get_checked _) => apply respects_get_checked
  | |- respects _ (forEach _ _) => apply respects_forEach; intros ?
  end.

Lemma respects_Modal_close r : respects R (Modal.close r).
Proof. unfold Modal.close. repeat respects_step. Qed.

Lemma respects_Modal_open r : respects R (Modal.open r).
Proof. unfold Modal.open. repeat respects_step. Qed.

Lemma respects_closeSidebar : respects R Navigation.closeSidebar.
Proof.
  unfold Navigation.closeSidebar, Navigation.menuToggle, Navigation.sidebarNav,
    Navigation.sidebarOverlay. repeat respects_step.
Qed.

Lemma respects_openSidebar : respects R Navigation.openSidebar.
Proof.
  unfold Navigation.openSidebar, Navigation.menuToggle, Navigation.sidebarNav,
    Navigation.sidebarOverlay. repeat respects_step.
Qed.

Lemma respects_on_menuToggle_click : respects R Navigation.on_menuToggle_click.
Proof.
  unfold Navigation.on_menuToggle_click, Navigation.sidebarNav.
  repeat respects_step; [apply respects_closeSidebar | apply respects_openSidebar].
Qed.

Lemma respects_on_carousel_click b :
  respects R (AchievementModal.on_carousel_click b).
Proof.
  unfold AchievementModal.on_carousel_click, AchievementModal.modal.
  repeat respects_step. apply respects_Modal_open.
Qed.

Lemma respects_on_grid_click b : respects R (PartnerModal.on_grid_click b).
Proof.
  unfold PartnerModal.on_grid_click, PartnerModal.modal, PartnerModal.content.
  repeat respects_step. apply respects_Modal_open.
Qed.

Lemma respects_switchLanguage lang :
  respects R (LanguageSwitcher.switchLanguage lang).
Proof. unfold LanguageSwitcher.switchLanguage. repeat respects_step. Qed.

Lemma respects_on_toggle_change : respects R LanguageSwitcher.on_toggle_change.
Proof.
  unfold LanguageSwitcher.on_toggle_change. repeat respects_step.
  apply respects_switchLanguage.
Qed.

Lemma respects_isActive_achievement : respects R AchievementModal.isActive.
Proof.
  unfold AchievementModal.isActive, AchievementModal.modal. repeat respects_step.
Qed.

Lemma respects_isActive_partner : respects R PartnerModal.isActive.
Proof. unfold PartnerModal.isActive, PartnerModal.modal. repeat respects_step. Qed.

Lemma respects_isSidebarActive : respects R Navigation.isSidebarActive.
Proof.
  unfold Navigation.isSidebarActive, Navigation.sidebarNav. repeat respects_step.
Qed.

(** What the timeline writes besides the class list. *)
Hypothesis R_disabled : forall h el b p,
  elems p !! h = Some el ->
  R p (set_elems (<[h := mkElement (classList el) b (checked el)]> (elems p)) p).
Hypothesis R_currentSection : forall n p, R p (set_Timeline_currentSection n p).

Lemma respects_set_disabled r b : respects R (set_disabled r b).
Proof.
  intros p. unfold set_disabled. rewrite exec_bind. unfold deref.
  destruct r as [h|]; [|reflexivity].
  destruct (elems p !! h) as [el|] eqn:E; [|reflexivity].
  cbn. by apply R_disabled.
Qed.

Ltac timeline_step :=
  first
    [ respects_step
    | match goal with
      | |- respects _ (set_disabled _ _) => apply respects_set_disabled
      | |- respects _ Timeline.container =>
          unfold Timeline.container
      | |- respects _ Timeline.currentSection =>
          unfold Timeline.currentSection
      | |- respects _ Timeline.isMobile => unfold Timeline.isMobile
      end ].

Lemma respects_updateNavButtons : respects R Timeline.updateNavButtons.
Proof. unfold Timeline.updateNavButtons. repeat timeline_step. Qed.

Lemma respects_zoomToSection v : respects R (Timeline.zoomToSection v).
Proof.
  unfold Timeline.zoomToSection. repeat timeline_step.
  apply respects_updateNavButtons.
Qed.

Lemma respects_zoomOut : respects R Timeline.zoomOut.
Proof.
  unfold Timeline.zoomOut. repeat timeline_step.
  apply respects_updateNavButtons.
Qed.

Lemma respects_isZoomed : respects R Timeline.isZoomed.
Proof. unfold Timeline.isZoomed. repeat timeline_step. Qed.

Lemma respects_on_resize : respects R Timeline.on_resize.
Proof.
  unfold Timeline.on_resize. repeat timeline_step;
    (apply respects_zoomToSection || apply respects_zoomOut).
Qed.

Lemma respects_on_section_click data : respects R (Timeline.on_section_click data).
Proof.
  unfold Timeline.on_section_click. repeat timeline_step.
  apply respects_zoomToSection.
Qed.

Lemma respects_on_navPrev_click : respects R Timeline.on_navPrev_click.
Proof.
  unfold Timeline.on_navPrev_click. repeat timeline_step.
  apply respects_zoomToSection.
Qed.

Lemma respects_on_navNext_click : respects R Timeline.on_navNext_click.
Proof.
  unfold Timeline.on_navNext_click. repeat timeline_step.
  apply respects_zoomToSection.
Qed.

Lemma respects_on_svg_click b : respects R (Timeline.on_svg_click b).
Proof.
  unfold Timeline.on_svg_click. repeat timeline_step. apply respects_zoomOut.
Qed.

Lemma respects_Timeline_on_keydown key : respects R (Timeline.on_keydown key).
Proof.
  unfold Timeline.on_keydown. repeat timeline_step;
    apply respects_zoomToSection.
Qed.

Lemma respects_KeyboardHandler_on_keydown key :
  respects R (KeyboardHandler.on_keydown key).
Proof.
  unfold KeyboardHandler.on_keydown.
  destruct (negb _); [apply respects_ret|].
  apply respects_bind; [apply respects_isActive_achievement|]. intros [|].
  { apply respects_bind; [apply respects_lookup_element|].
    intros m. apply respects_Modal_close. }
  apply respects_bind; [apply respects_isActive_partner|]. intros [|].
  { apply respects_bind; [apply respects_lookup_element|].
    intros m. apply respects_Modal_close. }
  apply respects_bind; [apply respects_isSidebarActive|]. intros [|];
    [apply respects_closeSidebar|].
  apply respects_bind; [apply respects_isZoomed|]. intros [|];
    [apply respects_zoomOut | apply respects_ret].
Qed.

(** Every listener respects a relation that allows all these writes. *)
Lemma respects_handler e h : respects R (handler e h).
Proof.
  destruct h; cbn [handler].
  - apply respects_on_menuToggle_click.
  - apply respects_closeSidebar.
  - apply respects_closeSidebar.
  - apply respects_on_resize.
  - apply respects_bind; [apply respects_get|]. intros p.
    destruct (sectionAreas p !! i);
      [apply respects_on_section_click | apply respects_ret].
  - apply respects_zoomOut.
  - apply respects_on_navPrev_click.
  - apply respects_on_navNext_click.
  - apply respects_on_svg_click.
  - apply respects_Timeline_on_keydown.
  - apply respects_Modal_close.
  - apply respects_Modal_close.
  - apply respects_ret.
  - apply respects_on_carousel_click.
  - apply respects_on_grid_click.
  - apply respects_KeyboardHandler_on_keydown.
  - apply respects_on_toggle_change.
Qed.

End Respects.

(** ** Pages field by field *)

Lemma page_ext (p q : Page) :
  innerWidth p = innerWidth q -> body_overflow p = body_overflow q ->
  html_lang p = html_lang q -> elems p = elems q ->
  translatable p = translatable q -> sectionAreas p = sectionAreas q ->
  preferredLanguage p = preferredLanguage q -> listeners p = listeners q ->
  console p = console q -> Timeline_container p = Timeline_container q ->
  Timeline_currentSection p = Timeline_currentSection q ->
  LanguageSwitcher_currentLang p = LanguageSwitcher_currentLang q ->
  LanguageSwitcher_toggle p = LanguageSwitcher_toggle q ->
  LanguageSwitcher_originalTexts p = LanguageSwitcher_originalTexts q ->
  p = q.
Proof. destruct p, q; cbn; intros; by subst. Qed.

Lemma upd_lookup sel f p sel' :
  elems (upd sel f p) !! sel'
  = if decide (sel' = sel) then f <$> (elems p !! sel) else elems p !! sel'.
Proof.
  case_decide as H; [subst; apply upd_elems_eq|].
  by apply upd_elems_ne.
Qed.

Lemma upd_set_body_overflow sel f s p :
  upd sel f (set_body_overflow s p) = set_body_overflow s (upd sel f p).
Proof. unfold upd. cbn. by destruct (elems p !! sel). Qed.

Lemma active_set_body_overflow sel s p :
  active sel (set_body_overflow s p) = active sel p.
Proof. done. Qed.

Lemma active_added sel p :
  is_Some (elems p !! sel) -> active sel (upd sel (add_classes ["active"]) p) = true.
Proof.
  intros H. unfold active. rewrite upd_add_classes by done.
  apply bool_decide_eq_true_2. set_solver.
Qed.

(** Adding a class an element does not carry and removing it again gives
    the element back. *)
Lemma remove_add_classes el c :
  c ∉ classList el -> remove_classes [c] (add_classes [c] el) = el.
Proof.
  intros H. destruct el as [C d k]. unfold remove_classes, add_classes, with_classes.
  cbn in *. f_equal. set_solver.
Qed.

Lemma upd_remove_add sel c p :
  c ∉ classes_of sel p ->
  elems (upd sel (remove_classes [c]) (upd sel (add_classes [c]) p)) = elems p.
Proof.
  intros H. apply map_eq. intros i. rewrite !upd_lookup.
  case_decide; [subst|done]. rewrite decide_True by done.
  unfold classes_of in H. destruct (elems p !! sel) as [el|]; [|done].
  cbn. f_equal. by apply remove_add_classes.
Qed.

(** ** Listeners never change after start-up *)

#[global] Instance same_static_preorder : PreOrder same_static.
Proof.
  split.
  - intros p. by repeat split.
  - intros p q r (H1 & H2 & H3 & H4 & H5) (G1 & G2 & G3 & G4 & G5).
    repeat split; try congruence; intros H; by (apply H5, G5 || apply G5, H5).
Qed.

Lemma same_static_insert h el el' p :
  elems p !! h = Some el ->
  same_static p (set_elems (<[h := el']> (elems p)) p).
Proof.
  intros E. repeat split; try done; cbn; intros H.
  - destruct (decide (sel = h)) as [->|Hne]; [by rewrite E|].
    by rewrite lookup_insert_ne in H.
  - destruct (decide (sel = h)) as [->|Hne]; [by rewrite lookup_insert_eq|].
    by rewrite lookup_insert_ne.
Qed.

Lemma same_static_handler e h : respects same_static (handler e h).
Proof.
  apply respects_handler; try apply _; try (intros; by repeat split).
  all: intros; by eapply same_static_insert.
Qed.

Lemma same_static_report {A} (m : JS A) p :
  respects same_static m -> same_static p (report m p).
Proof.
  intros H. specialize (H p). unfold exec, report in *.
  by destruct (m p) as [q [a|x]].
Qed.

Lemma listeners_default_action e p :
  listeners (default_action e p) = listeners p.
Proof.
  destruct e; try done. cbn.
  destruct (LanguageSwitcher_toggle p) as [t|]; [|done].
  by destruct (elems p !! t).
Qed.

Lemma listeners_dispatch p e : listeners (dispatch p e) = listeners p.
Proof.
  apply (dispatch_preserves (fun q => listeners q = listeners p)).
  - apply listeners_default_action.
  - intros h q _ Hq. rewrite <- Hq.
    apply (same_static_report (handler e h) q), same_static_handler.
Qed.

Lemma listeners_run es p : listeners (run p es) = listeners p.
Proof.
  revert p. induction es as [|e es IH]; intros p; [done|].
  change (run p (e :: es)) with (run (dispatch p e) es).
  by rewrite IH, listeners_dispatch.
Qed.

Lemma listening_run e es p : listening e (run p es) = listening e p.
Proof. unfold listening. by rewrite listeners_run. Qed.

Lemma sidebar_wired_upd sel f p : sidebar_wired (upd sel f p) <-> sidebar_wired p.
Proof. unfold sidebar_wired. by rewrite !upd_is_Some. Qed.

(** ** The sidebar *)

Lemma openSidebar_ok p :
  sidebar_wired p ->
  Navigation.openSidebar p
  = (set_body_overflow "hidden"
       (upd "#sidebarOverlay" (add_classes ["active"])
          (upd "#sidebarNav" (add_classes ["active"])
             (upd "#menuToggle" (add_classes ["active"]) p))), Normal tt).
Proof.
  intros (H1 & H2 & H3).
  unfold Navigation.openSidebar, Navigation.menuToggle, Navigation.sidebarNav,
    Navigation.sidebarOverlay, getElementById, bind.
  cbn [String.app]. rewrite lookup_element_some by done.
  rewrite classList_add_ok by done.
  rewrite lookup_element_some by (by rewrite upd_is_Some).
  rewrite classList_add_ok by (by rewrite ?upd_is_Some).
  rewrite lookup_element_some by (by rewrite !upd_is_Some).
  rewrite classList_add_ok by (by rewrite ?upd_is_Some).
  done.
Qed.

Lemma on_menuToggle_click_eq p :
  sidebar_wired p ->
  Navigation.on_menuToggle_click p
  = if active "#sidebarNav" p then Navigation.closeSidebar p
    else Navigation.openSidebar p.
Proof.
  intros (H1 & H2 & H3).
  unfold Navigation.on_menuToggle_click, Navigation.sidebarNav, getElementById.
  unfold bind at 1. cbn [String.app]. rewrite lookup_element_some by done.
  unfold bind. rewrite classList_contains_ok by done. unfold active.
  by destruct (bool_decide _).
Qed.

Lemma dispatch_menuToggle p :
  listening ClickMenuToggle p = [Navigation_menuToggle_click] ->
  dispatch p ClickMenuToggle = report Navigation.on_menuToggle_click p.
Proof. intros H. unfold dispatch. cbn [default_action]. by rewrite H. Qed.

Lemma active_true_in sel p : active sel p = false -> "active" ∉ classes_of sel p.
Proof. unfold active. intros H. by apply bool_decide_eq_false_1 in H. Qed.

(** X1. A click on the hamburger button closes the sidebar when the
    sidebar panel carries [active] and opens it otherwise: afterwards the
    button, the panel and the overlay all agree, whatever they showed
    before, and body scrolling is locked exactly when the sidebar is
    open. *)
Theorem menu_toggle_flips_sidebar (p : Page) :
  sidebar_wired p ->
  throws Navigation.on_menuToggle_click p = None ∧
  active "#menuToggle" (exec Navigation.on_menuToggle_click p)
  = negb (active "#sidebarNav" p) ∧
  active "#sidebarNav" (exec Navigation.on_menuToggle_click p)
  = negb (active "#sidebarNav" p) ∧
  active "#sidebarOverlay" (exec Navigation.on_menuToggle_click p)
  = negb (active "#sidebarNav" p) ∧
  body_overflow (exec Navigation.on_menuToggle_click p)
  = (if active "#sidebarNav" p then "" else "hidden").
Proof.
  intros Hs. pose proof Hs as (H1 & H2 & H3).
  unfold throws, exec. rewrite on_menuToggle_click_eq by done.
  destruct (active "#sidebarNav" p).
  - rewrite closeSidebar_ok by done. cbn [fst snd negb].
    rewrite !active_set_body_overflow.
    split; [done|]. repeat split.
    + rewrite !active_upd_ne by done. apply active_removed.
    + rewrite active_upd_ne by done. apply active_removed.
    + apply active_removed.
  - rewrite openSidebar_ok by done. cbn [fst snd negb].
    rewrite !active_set_body_overflow.
    split; [done|]. repeat split.
    + rewrite !active_upd_ne by done. by apply active_added.
    + rewrite active_upd_ne by done. apply active_added.
      by rewrite upd_is_Some.
    + apply active_added. by rewrite !upd_is_Some.
Qed.

Lemma menu_toggle_flips_sidebar_witness :
  active "#sidebarOverlay" (exec Navigation.on_menuToggle_click desktop_page)
  = true ∧
  body_overflow (exec Navigation.on_menuToggle_click desktop_page) = "hidden".
Proof.
  assert (H : sidebar_wired desktop_page)
    by (refine (bool_decide_unpack _ _); vm_compute; exact I).
  split.
  - exact (proj1 (proj2 (proj2 (proj2 (menu_toggle_flips_sidebar desktop_page H))))).
  - exact (proj2 (proj2 (proj2 (proj2 (menu_toggle_flips_sidebar desktop_page H))))).
Defined.

Lemma open_close_sidebar_page p :
  sidebar_wired p ->
  active "#menuToggle" p = false -> active "#sidebarNav" p = false ->
  active "#sidebarOverlay" p = false ->
  set_body_overflow ""
    (upd "#sidebarOverlay" (remove_classes ["active"])
       (upd "#sidebarNav" (remove_classes ["active"])
          (upd "#menuToggle" (remove_classes ["active"])
             (set_body_overflow "hidden"
                (upd "#sidebarOverlay" (add_classes ["active"])
                   (upd "#sidebarNav" (add_classes ["active"])
                      (upd "#menuToggle" (add_classes ["active"]) p)))))))
  = set_body_overflow "" p.
Proof.
  intros (H1 & H2 & H3) A1 A2 A3.
  apply active_true_in in A1, A2, A3.
  rewrite !upd_set_body_overflow.
  apply page_ext; cbn [innerWidth body_overflow html_lang elems translatable
    sectionAreas preferredLanguage listeners console Timeline_container
    Timeline_currentSection LanguageSwitcher_currentLang
    LanguageSwitcher_toggle LanguageSwitcher_originalTexts set_body_overflow];
    rewrite ?upd_innerWidth, ?upd_html_lang, ?upd_translatable,
      ?upd_sectionAreas, ?upd_preferredLanguage, ?upd_listeners, ?upd_console,
      ?upd_Timeline_container, ?upd_Timeline_currentSection,
      ?upd_LanguageSwitcher_currentLang, ?upd_LanguageSwitcher_toggle,
      ?upd_LanguageSwitcher_originalTexts; try done.
  apply map_eq. intros i. unfold classes_of in *.
  destruct H1 as [e1 E1], H2 as [e2 E2], H3 as [e3 E3].
  rewrite E1 in A1. rewrite E2 in A2. rewrite E3 in A3.
  repeat (rewrite upd_lookup; case_decide; subst; try done);
    rewrite ?E1, ?E2, ?E3; cbn; f_equal; by apply remove_add_classes.
Qed.

(** X2. Two clicks on the hamburger button of a closed sidebar give the
    page back, except that the inline [overflow] of the body ends empty,
    whatever it was. *)
Theorem sidebar_toggle_round_trip (p : Page) :
  sidebar_wired p ->
  listening ClickMenuToggle p = [Navigation_menuToggle_click] ->
  active "#menuToggle" p = false ->
  active "#sidebarNav" p = false ->
  active "#sidebarOverlay" p = false ->
  run p [ClickMenuToggle; ClickMenuToggle] = set_body_overflow "" p.
Proof.
  intros Hs Hl A1 A2 A3. pose proof Hs as (H1 & H2 & H3).
  cbn [run fold_left]. rewrite (dispatch_menuToggle p Hl).
  unfold report at 1. rewrite on_menuToggle_click_eq by done.
  rewrite A2, openSidebar_ok by done.
  set (q := set_body_overflow "hidden" _).
  assert (Hq : sidebar_wired q).
  { unfold q, sidebar_wired. cbn [elems set_body_overflow].
    by rewrite !upd_is_Some. }
  assert (Aq : active "#sidebarNav" q = true).
  { unfold q. rewrite active_set_body_overflow, active_upd_ne by done.
    apply active_added. by rewrite upd_is_Some. }
  rewrite dispatch_menuToggle.
  2:{ unfold listening, q. cbn [listeners set_body_overflow].
      by rewrite !upd_listeners. }
  unfold report. rewrite on_menuToggle_click_eq, Aq, closeSidebar_ok by done.
  unfold q. by apply open_close_sidebar_page.
Qed.

Lemma sidebar_toggle_round_trip_witness :
  run desktop_page [ClickMenuToggle; ClickMenuToggle]
  = set_body_overflow "" desktop_page.
Proof.
  apply sidebar_toggle_round_trip.
  - refine (bool_decide_unpack _ _); vm_compute; exact I.
  - vm_compute; reflexivity.
  - vm_compute; reflexivity.
  - vm_compute; reflexivity.
  - vm_compute; reflexivity.
Defined.

(** ** Modals *)

(** X3. Opening a modal that is closed and closing it again gives the
    page back, except that the inline [overflow] of the body ends
    empty. *)
Theorem modal_open_close_round_trip (m : string) (p : Page) :
  is_Some (elems p !! m) ->
  active m p = false ->
  throws (Modal.open (Some m) ;; Modal.close (Some m)) p = None ∧
  exec (Modal.open (Some m) ;; Modal.close (Some m)) p = set_body_overflow "" p.
Proof.
  intros Hm A. apply active_true_in in A.
  unfold throws, exec, bind. rewrite Modal_open_ok by done.
  rewrite Modal_close_ok.
  2:{ cbn [elems set_body_overflow]. by rewrite upd_is_Some. }
  cbn [fst snd]. split; [done|].
  rewrite !upd_set_body_overflow.
  apply page_ext; cbn [innerWidth body_overflow html_lang elems translatable
    sectionAreas preferredLanguage listeners console Timeline_container
    Timeline_currentSection LanguageSwitcher_currentLang
    LanguageSwitcher_toggle LanguageSwitcher_originalTexts set_body_overflow];
    rewrite ?upd_innerWidth, ?upd_html_lang, ?upd_translatable,
      ?upd_sectionAreas, ?upd_preferredLanguage, ?upd_listeners, ?upd_console,
      ?upd_Timeline_container, ?upd_Timeline_currentSection,
      ?upd_LanguageSwitcher_currentLang, ?upd_LanguageSwitcher_toggle,
      ?upd_LanguageSwitcher_originalTexts; try done.
  by apply upd_remove_add.
Qed.

Lemma modal_open_close_round_trip_witness :
  exec (Modal.open (Some "#partnerModal") ;; Modal.close (Some "#partnerModal"))
       desktop_page
  = set_body_overflow "" desktop_page.
Proof.
  refine (proj2 (modal_open_close_round_trip "#partnerModal" desktop_page _ _)).
  - vm_compute. eexists. reflexivity.
  - vm_compute; reflexivity.
Defined.

(** X4. Escape with a modal or the sidebar open always ends with the
    scroll lock of the body released, also when another of them stays
    open behind the one it closed. *)
Theorem escape_releases_scroll_lock (p : Page) :
  timeline_wired p ->
  sidebar_wired p ->
  listening (KeyDown "Escape") p = [Timeline_keydown; KeyboardHandler_keydown] ->
  active "#achievementModal" p || active "#partnerModal" p
    || active "#sidebarNav" p = true ->
  body_overflow (dispatch p (KeyDown "Escape")) = "".
Proof.
  intros Hw Hs Hl Ha. rewrite dispatch_keydown by done.
  rewrite (report_normal (Timeline.on_keydown _) p p tt)
    by (by apply on_keydown_escape_noop).
  unfold report. rewrite KeyboardHandler_on_keydown_escape by done.
  destruct (active "#achievementModal" p); [done|].
  destruct (active "#partnerModal" p); [done|].
  destruct (active "#sidebarNav" p); [done|]. done.
Qed.

Lemma escape_releases_scroll_lock_witness :
  active "#sidebarNav"
    (run desktop_page [ClickMenuToggle; ClickAchievementCard; KeyDown "Escape"])
  = true ∧
  body_overflow
    (run desktop_page [ClickMenuToggle; ClickAchievementCard; KeyDown "Escape"])
  = "".
Proof.
  split; [vm_compute; reflexivity|].
  change (run desktop_page [ClickMenuToggle; ClickAchievementCard; KeyDown "Escape"])
    with (dispatch (run desktop_page [ClickMenuToggle; ClickAchievementCard])
            (KeyDown "Escape")).
  apply escape_releases_scroll_lock.
  - refine (bool_decide_unpack _ _); vm_compute; exact I.
  - refine (bool_decide_unpack _ _); vm_compute; exact I.
  - vm_compute; reflexivity.
  - vm_compute; reflexivity.
Defined.

(** ** The navigation buttons of the timeline *)

Lemma disabled_of_upd sel sel' f p :
  (forall el, disabled (f el) = disabled el) ->
  disabled_of sel' (upd sel f p) = disabled_of sel' p.
Proof.
  intros Hf. unfold disabled_of. rewrite upd_lookup.
  case_decide; [subst|done].
  destruct (elems p !! sel); cbn; [by rewrite Hf|done].
Qed.

Lemma disabled_of_with_disabled_eq sel b p :
  is_Some (elems p !! sel) ->
  disabled_of sel (upd sel (with_disabled b) p) = Some b.
Proof.
  intros [el E]. unfold disabled_of. rewrite upd_lookup, decide_True by done.
  by rewrite E.
Qed.

Lemma disabled_of_with_disabled_ne sel sel' b p :
  sel <> sel' ->
  disabled_of sel' (upd sel (with_disabled b) p) = disabled_of sel' p.
Proof.
  intros H. unfold disabled_of. by rewrite upd_lookup, decide_False.
Qed.

Lemma nav_synced_nav_updated p :
  is_Some (elems p !! "#timelineNavPrev") ->
  is_Some (elems p !! "#timelineNavNext") ->
  nav_synced (nav_updated p).
Proof.
  intros H1 H2. unfold nav_synced. rewrite nav_updated_currentSection.
  unfold nav_updated. split.
  - rewrite disabled_of_with_disabled_ne by done.
    by apply disabled_of_with_disabled_eq.
  - apply disabled_of_with_disabled_eq. by rewrite upd_is_Some.
Qed.

Lemma nav_synced_zoomed_to v p : timeline_wired p -> nav_synced (zoomed_to v p).
Proof.
  intros (_ & _ & H1 & H2). unfold zoomed_to.
  apply nav_synced_nav_updated; by rewrite !upd_is_Some.
Qed.

Lemma nav_synced_zoomed_out p : timeline_wired p -> nav_synced (zoomed_out p).
Proof.
  intros (_ & _ & H1 & H2). unfold zoomed_out.
  apply nav_synced_nav_updated; by rewrite !upd_is_Some.
Qed.

Lemma nav_synced_upd sel f p :
  (forall el, disabled (f el) = disabled el) ->
  nav_synced p -> nav_synced (upd sel f p).
Proof.
  intros Hf (H1 & H2). unfold nav_synced.
  by rewrite !disabled_of_upd, upd_Timeline_currentSection.
Qed.

#[global] Instance same_controls_preorder : PreOrder same_controls.
Proof.
  split.
  - intros p. by split.
  - intros p q r (H1 & H2) (G1 & G2). split; [congruence|].
    intros sel. by rewrite G2.
Qed.

Lemma same_controls_insert h el el' p :
  elems p !! h = Some el -> disabled el' = disabled el ->
  same_controls p (set_elems (<[h := el']> (elems p)) p).
Proof.
  intros E Hd. split; [done|]. intros sel. unfold disabled_of. cbn.
  destruct (decide (sel = h)) as [->|Hne].
  - rewrite lookup_insert_eq, E. cbn. by rewrite Hd.
  - by rewrite lookup_insert_ne.
Qed.

Lemma nav_synced_same_controls p q :
  same_controls p q -> nav_synced p -> nav_synced q.
Proof. intros (H1 & H2) (G1 & G2). unfold nav_synced. by rewrite H1, !H2. Qed.



(** Listeners that leave the timeline and the controls alone. *)
Lemma keeps_synced_frame {A} (m : JS A) :
  frame m -> respects same_controls m ->
  keeps (fun p => timeline_inv p ∧ nav_synced p) m.
Proof.
  intros Hf Hr p (Hi & Hn). split.
  - apply (timeline_inv_same p); [apply Hf | done].
  - apply (nav_synced_same_controls p); [apply Hr | done].
Qed.

Lemma same_controls_classes h el c p :
  elems p !! h = Some el ->
  same_controls p (set_elems (<[h := with_classes el c]> (elems p)) p).
Proof. intros. by eapply same_controls_insert. Qed.

Lemma same_controls_body_overflow s p : same_controls p (set_body_overflow s p).
Proof. by split. Qed.
Lemma same_controls_html_lang s p : same_controls p (set_html_lang s p).
Proof. by split. Qed.
Lemma same_controls_translatable l p : same_controls p (set_translatable l p).
Proof. by split. Qed.
Lemma same_controls_preferredLanguage o p :
  same_controls p (set_preferredLanguage o p).
Proof. by split. Qed.
Lemma same_controls_currentLang s p : same_controls p (set_currentLang s p).
Proof. by split. Qed.

Lemma controls_Modal_close r : respects same_controls (Modal.close r).
Proof.
  apply respects_Modal_close; try apply _;
    auto using same_controls_classes, same_controls_body_overflow.
Qed.

Lemma controls_closeSidebar : respects same_controls Navigation.closeSidebar.
Proof.
  apply respects_closeSidebar; try apply _;
    auto using same_controls_classes, same_controls_body_overflow.
Qed.

Lemma controls_on_menuToggle_click :
  respects same_controls Navigation.on_menuToggle_click.
Proof.
  apply respects_on_menuToggle_click; try apply _;
    auto using same_controls_classes, same_controls_body_overflow.
Qed.

Lemma controls_on_carousel_click b :
  respects same_controls (AchievementModal.on_carousel_click b).
Proof.
  apply respects_on_carousel_click; try apply _;
    auto using same_controls_classes, same_controls_body_overflow.
Qed.

Lemma controls_on_grid_click b :
  respects same_controls (PartnerModal.on_grid_click b).
Proof.
  apply respects_on_grid_click; try apply _;
    auto using same_controls_classes, same_controls_body_overflow.
Qed.

Lemma controls_on_toggle_change :
  respects same_controls LanguageSwitcher.on_toggle_change.
Proof.
  apply respects_on_toggle_change; try apply _;
    auto using same_controls_classes, same_controls_html_lang,
      same_controls_translatable, same_controls_preferredLanguage,
      same_controls_currentLang.
Qed.

Lemma keeps_synced_zoomOut :
  keeps (fun p => timeline_inv p ∧ nav_synced p) Timeline.zoomOut.
Proof.
  intros p (Hi & Hn). split; [by apply keeps_zoomOut|].
  unfold exec. rewrite zoomOut_eq by apply Hi. cbn.
  destruct (is_mobile p); [done|]. apply nav_synced_zoomed_out, Hi.
Qed.

Lemma keeps_synced_KeyboardHandler key :
  keeps (fun p => timeline_inv p ∧ nav_synced p) (KeyboardHandler.on_keydown key).
Proof.
  unfold KeyboardHandler.on_keydown.
  destruct (negb _).
  { apply keeps_synced_frame; [apply frame_ret | apply respects_ret, _]. }
  apply keeps_bind.
  { apply keeps_synced_frame; [apply frame_isActive_achievement|].
    apply respects_isActive_achievement, _. }
  intros [|].
  { apply keeps_synced_frame.
    - apply frame_bind; [apply frame_lookup_element|].
      intros m. apply frame_Modal_close.
    - apply respects_bind; [apply _ | apply respects_lookup_element, _ |].
      intros m. apply controls_Modal_close. }
  apply keeps_bind.
  { apply keeps_synced_frame; [apply frame_isActive_partner|].
    apply respects_isActive_partner, _. }
  intros [|].
  { apply keeps_synced_frame.
    - apply frame_bind; [apply frame_lookup_element|].
      intros m. apply frame_Modal_close.
    - apply respects_bind; [apply _ | apply respects_lookup_element, _ |].
      intros m. apply controls_Modal_close. }
  apply keeps_bind.
  { apply keeps_synced_frame; [apply frame_isSidebarActive|].
    apply respects_isSidebarActive, _. }
  intros [|].
  { apply keeps_synced_frame; [apply frame_closeSidebar|].
    apply controls_closeSidebar. }
  apply keeps_bind.
  { apply keeps_synced_frame; [apply frame_isZoomed|].
    apply respects_isZoomed, _. }
  intros [|]; [apply keeps_synced_zoomOut|].
  apply keeps_synced_frame; [apply frame_ret | apply respects_ret, _].
Qed.

Lemma nav_synced_handler e h p :
  timeline_inv p -> nav_synced p -> nav_synced (exec (handler e h) p).
Proof.
  intros Hi Hn. pose proof Hi as (Hw & Hv & Hr & _).
  assert (Hz : forall n, 1 <= n <= 3 ->
            nav_synced (exec (Timeline.zoomToSection (VNumber (Int n))) p)).
  { intros n Hn'. unfold exec. rewrite zoomToSection_number by done.
    by apply nav_synced_zoomed_to. }
  destruct h; cbn [handler].
  - apply (nav_synced_same_controls p); [|done].
    apply controls_on_menuToggle_click.
  - apply (nav_synced_same_controls p); [|done].
    apply controls_closeSidebar.
  - apply (nav_synced_same_controls p); [|done].
    apply controls_closeSidebar.
  - unfold exec. rewrite on_resize_eq by done.
    destruct (is_mobile p); case_bool_decide; cbn [fst]; try done;
      apply nav_synced_upd; try done.
    + by apply nav_synced_zoomed_to.
    + by apply nav_synced_zoomed_out.
  - unfold exec, bind, get.
    destruct (sectionAreas p !! i) as [data|] eqn:E; [|done].
    rewrite on_section_click_eq. destruct (is_mobile p); [done|].
    assert (Hd : data ∈ [Some "1"; Some "2"; Some "3"]).
    { unfold valid_sections in Hv. rewrite Forall_forall in Hv.
      apply Hv. by eapply list_elem_of_lookup_2. }
    destruct (names_section_data data Hd) as [n Hn'].
    rewrite zoomToSection_ok by (done || by apply (names_section_token _ n)).
    by apply nav_synced_zoomed_to.
  - by apply keeps_synced_zoomOut.
  - unfold exec. rewrite on_navPrev_click_eq.
    destruct (section_in_range_cases _ Hr) as [H | [H | H]]; rewrite H; cbn;
      try done; by apply Hz.
  - unfold exec. rewrite on_navNext_click_eq.
    destruct (section_in_range_cases _ Hr) as [H | [H | H]]; rewrite H; cbn;
      try done; by apply Hz.
  - unfold exec. rewrite on_svg_click_eq by done.
    destruct (is_mobile p); [done|]. case_bool_decide; cbn; [|done].
    by apply nav_synced_zoomed_out.
  - unfold exec. rewrite on_keydown_eq by done.
    destruct (negb (is_mobile p) && _); [done|].
    destruct (section_in_range_cases _ Hr) as [H | [H | H]]; rewrite H; cbn;
      repeat (case_bool_decide; cbn); try done; by apply Hz.
  - apply (nav_synced_same_controls p); [|done].
    apply controls_Modal_close.
  - apply (nav_synced_same_controls p); [|done].
    apply controls_Modal_close.
  - done.
  - apply (nav_synced_same_controls p); [|done].
    apply controls_on_carousel_click.
  - apply (nav_synced_same_controls p); [|done].
    apply controls_on_grid_click.
  - by apply keeps_synced_KeyboardHandler.
  - apply (nav_synced_same_controls p); [|done].
    apply controls_on_toggle_change.
Qed.

Lemma nav_synced_report {A} (m : JS A) p :
  nav_synced (exec m p) -> nav_synced (report m p).
Proof. unfold exec, report. by destruct (m p) as [q [a|e]]. Qed.

Lemma nav_synced_default_action e p :
  nav_synced p -> nav_synced (default_action e p).
Proof.
  destruct e; try done. cbn.
  destruct (LanguageSwitcher_toggle p) as [t|]; [|done].
  destruct (elems p !! t) as [el|] eqn:E; [|done].
  apply nav_synced_same_controls. by eapply same_controls_insert.
Qed.

(** X6. Once the two navigation buttons show the current section, they
    do so after every event, on every page that satisfies the invariant
    of the timeline. *)
Theorem nav_buttons_stay_synced (p : Page) (es : list Event) :
  timeline_inv p ->
  nav_synced p ->
  nav_synced (run p es).
Proof.
  intros Hi Hn.
  enough (timeline_inv (run p es) ∧ nav_synced (run p es)) by tauto.
  revert p Hi Hn. induction es as [|e es IH]; intros p Hi Hn; [done|].
  change (run p (e :: es)) with (run (dispatch p e) es).
  assert (H : timeline_inv (dispatch p e) ∧ nav_synced (dispatch p e)).
  { apply (dispatch_preserves (fun q => timeline_inv q ∧ nav_synced q)).
    - split; [by apply timeline_inv_default_action
             | by apply nav_synced_default_action].
    - intros h q _ (Hq1 & Hq2). split.
      + by apply timeline_inv_report, handler_keeps_timeline_inv.
      + by apply nav_synced_report, nav_synced_handler. }
  destruct H as (H1 & H2). by apply IH.
Qed.

Lemma nav_buttons_stay_synced_witness :
  nav_synced
    (run (dispatch desktop_page (ClickSection 2))
       [ClickNavPrev; KeyDown "Escape"; Resize 400; ClickNavNext]).
Proof.
  apply nav_buttons_stay_synced.
  - refine (bool_decide_unpack _ _); vm_compute; exact I.
  - refine (bool_decide_unpack _ _); vm_compute; exact I.
Defined.

(** ** Edge cases of the timeline listeners *)









(** X9. On a mobile width the pointer cannot change the zoom: a click on
    a hot-zone, on the diagram or on the zoom-out button leaves the page
    exactly as it is, whatever the page. *)
Theorem mobile_clicks_change_nothing (p : Page) :
  is_mobile p = true ->
  (forall i, dispatch p (ClickSection i) = p) ∧
  dispatch p ClickSvg = p ∧
  dispatch p ClickZoomOut = p.
Proof.
  intros Hm.
  assert (Hz : Timeline.zoomOut p = (p, Normal tt)).
  { apply zoomOut_mobile. by apply Z.leb_le. }
  repeat split; [intros i|..]; apply dispatch_fixed; try done;
    intros h Hf; destruct h; try discriminate Hf; cbn [handler]; try done.
  - unfold bind, get. destruct (sectionAreas p !! i0); [|done].
    by rewrite on_section_click_eq, Hm.
  - unfold Timeline.on_svg_click, Timeline.isMobile, bind, get, ret.
    unfold is_mobile in Hm. by rewrite Hm.
Qed.

Lemma mobile_clicks_change_nothing_witness :
  dispatch mobile_page (ClickSection 2) = mobile_page ∧
  dispatch mobile_page ClickZoomOut = mobile_page.
Proof.
  pose proof (mobile_clicks_change_nothing mobile_page eq_refl) as (H1 & _ & H2).
  split; [exact (H1 2%nat) | exact H2].
Defined.

Lemma names_section_pretty n : 1 <= n <= 3 -> names_section (VString (pretty n)) n.
Proof.
  intros Hn.
  assert (n = 1 \/ n = 2 \/ n = 3) as [-> | [-> | ->]] by lia;
    repeat split; (reflexivity || lia).
Qed.

(** X10. On a desktop width a click on the hot-zone of section [n] zooms
    the timeline to that section, from any state of the container, and
    the navigation buttons show it. *)
Theorem section_click_zooms_on_desktop (p : Page) (i : nat) (n : Z) :
  timeline_wired p ->
  is_mobile p = false ->
  listening (ClickSection i) p = [Timeline_section_click i] ->
  sectionAreas p !! i = Some (Some (pretty n)) ->
  1 <= n <= 3 ->
  timeline_state (dispatch p (ClickSection i)) = Some (Zoomed n) ∧
  nav_synced (dispatch p (ClickSection i)).
Proof.
  intros Hw Hm Hl Hs Hn. unfold dispatch. cbn [default_action].
  rewrite Hl. cbn [fold_left handler]. unfold report, bind, get.
  rewrite Hs, on_section_click_eq, Hm.
  pose proof (names_section_pretty n Hn) as Hv.
  rewrite zoomToSection_ok by (done || by apply (names_section_token _ n)).
  split; [by apply timeline_state_zoomed_to | by apply nav_synced_zoomed_to].
Qed.

Lemma section_click_zooms_on_desktop_witness :
  timeline_state (run desktop_page [ClickSection 0; ClickSection 2])
  = Some (Zoomed 3).
Proof.
  change (run desktop_page [ClickSection 0; ClickSection 2])
    with (dispatch (dispatch desktop_page (ClickSection 0)) (ClickSection 2)).
  refine (proj1 (section_click_zooms_on_desktop _ 2 3 _ _ _ _ _)).
  - refine (bool_decide_unpack _ _); vm_compute; exact I.
  - vm_compute; reflexivity.
  - vm_compute; reflexivity.
  - vm_compute; reflexivity.
  - lia.
Defined.

(** X11. On a desktop width a click on the diagram outside every hot-zone
    zooms out when the timeline is zoomed and leaves the page as it is
    when it is not. *)
Theorem diagram_click_zooms_out (p : Page) :
  timeline_wired p ->
  is_mobile p = false ->
  listening ClickSvg p = [Timeline_svg_click] ->
  if bool_decide ("zoomed" ∈ container_classes p)
  then timeline_state (dispatch p ClickSvg) = Some Idle ∧
       nav_synced (dispatch p ClickSvg)
  else dispatch p ClickSvg = p.
Proof.
  intros Hw Hm Hl. unfold dispatch. cbn [default_action].
  rewrite Hl. cbn [fold_left handler]. unfold report.
  rewrite on_svg_click_eq, Hm by done.
  case_bool_decide; [|done].
  split; [by apply timeline_state_zoomed_out | by apply nav_synced_zoomed_out].
Qed.

Lemma diagram_click_zooms_out_witness :
  timeline_state (run desktop_page [ClickSection 1; ClickSvg]) = Some Idle.
Proof.
  change (run desktop_page [ClickSection 1; ClickSvg])
    with (dispatch (dispatch desktop_page (ClickSection 1)) ClickSvg).
  set (q := dispatch desktop_page (ClickSection 1)).
  assert (Hw : timeline_wired q)
    by (refine (bool_decide_unpack _ _); vm_compute; exact I).
  assert (Hm : is_mobile q = false) by (vm_compute; reflexivity).
  assert (Hl : listening ClickSvg q = [Timeline_svg_click])
    by (vm_compute; reflexivity).
  assert (Hz : bool_decide ("zoomed" ∈ container_classes q) = true)
    by (vm_compute; reflexivity).
  pose proof (diagram_click_zooms_out q Hw Hm Hl) as H.
  rewrite Hz in H. exact (proj1 H).
Defined.

(** X12. A key other than Escape, ArrowLeft and ArrowRight leaves the
    page exactly as it is. *)
Theorem other_keys_change_nothing (p : Page) (key : string) :
  timeline_wired p ->
  key <> "Escape" -> key <> "ArrowLeft" -> key <> "ArrowRight" ->
  dispatch p (KeyDown key) = p.
Proof.
  intros Hw H1 H2 H3. apply dispatch_fixed; [done|].
  intros h Hf. destruct h; try discriminate Hf; cbn [handler].
  - rewrite on_keydown_eq by done.
    rewrite (bool_decide_eq_false_2 (key = "ArrowLeft")) by done.
    rewrite (bool_decide_eq_false_2 (key = "ArrowRight")) by done.
    cbn. by destruct (negb _ && negb _).
  - by apply KeyboardHandler_on_keydown_other.
Qed.

Lemma other_keys_change_nothing_witness :
  dispatch desktop_page (KeyDown "Enter") = desktop_page.
Proof.
  apply other_keys_change_nothing;
    [refine (bool_decide_unpack _ _); vm_compute; exact I | done..].
Defined.

(** X13. When the page has no timeline container, on a desktop width
    the timeline's key listener throws a [TypeError] on every key press:
    a key other than Escape changes nothing but adds the error to the
    console. *)
Theorem keydown_without_container (p : Page) (key : string) :
  Timeline_container p = None ->
  is_mobile p = false ->
  listening (KeyDown key) p = [Timeline_keydown; KeyboardHandler_keydown] ->
  key <> "Escape" ->
  dispatch p (KeyDown key) = set_console (console p ++ [TypeError]) p.
Proof.
  intros Hc Hm Hl Hk. rewrite dispatch_keydown by done.
  assert (H : Timeline.on_keydown key p = (p, Throw TypeError)).
  { unfold Timeline.on_keydown, Timeline.isMobile, Timeline.container,
      bind, get, ret.
    unfold is_mobile in Hm. by rewrite Hm, Hc. }
  unfold report at 2. rewrite H.
  apply report_normal with (a := tt).
  by apply KeyboardHandler_on_keydown_other.
Qed.

Lemma keydown_without_container_witness :
  console
    (dispatch
       (load (set_elems (delete "#timelineContainer" (elems (document_at 1280)))
                (document_at 1280)))
       (KeyDown "a"))
  = [TypeError].
Proof.
  rewrite keydown_without_container; try done.
Defined.

(** ** What start-up registers *)

Lemma bind_eq {A B} (m : JS A) (k : A -> JS B) p q a :
  m p = (q, Normal a) -> bind m k p = k a q.
Proof. intros H. unfold bind. by rewrite H. Qed.

Lemma bind_throw {A B} (m : JS A) (k : A -> JS B) p q x :
  m p = (q, Throw x) -> bind m k p = (q, Throw x).
Proof. intros H. unfold bind. by rewrite H. Qed.

Lemma set_listeners_id p : set_listeners (listeners p ++ []) p = p.
Proof. rewrite app_nil_r. by destruct p. Qed.

Lemma set_listeners_twice l l' p :
  set_listeners (listeners (set_listeners (listeners p ++ l) p) ++ l')
    (set_listeners (listeners p ++ l) p)
  = set_listeners (listeners p ++ (l ++ l')) p.
Proof. unfold set_listeners. cbn. by rewrite <- app_assoc. Qed.

Lemma addGlobalListener_ok h p :
  addGlobalListener h p = (set_listeners (listeners p ++ [h]) p, Normal tt).
Proof. done. Qed.

Lemma forEach_addGlobalListener (f : nat -> Handler) l p :
  forEach (fun i => addGlobalListener (f i)) l p
  = (set_listeners (listeners p ++ map f l) p, Normal tt).
Proof.
  revert p. induction l as [|x l IH]; intros p.
  - cbn. by rewrite set_listeners_id.
  - cbn [forEach map]. erewrite bind_eq by apply addGlobalListener_ok.
    rewrite IH. by rewrite set_listeners_twice.
Qed.

Lemma live_set_listeners r l p : live r (set_listeners l p) <-> live r p.
Proof. done. Qed.

Lemma live_lookup sel p :
  live (match elems p !! sel with Some _ => Some sel | None => None end) p.
Proof. unfold live. by destruct (elems p !! sel) eqn:E; [rewrite E|]. Qed.

(** Registering on a reference that is tested first. *)
Lemma guarded_addEventListener r h p :
  live r p ->
  (if negb (is_null r) then addEventListener r h else ret tt) p
  = (set_listeners (listeners p ++ (if is_null r then [] else [h])) p, Normal tt).
Proof.
  intros H. destruct r as [s|]; cbn [is_null negb].
  - by apply addEventListener_ok.
  - unfold ret. by rewrite set_listeners_id.
Qed.

(** The registrations that end [setupInteractions], when the three
    buttons exist. *)
Lemma registrations_ok (n : nat) zo prev next svg p :
  is_Some (elems p !! zo) -> is_Some (elems p !! prev) ->
  is_Some (elems p !! next) -> live svg p ->
  (addGlobalListener Timeline_resize ;;
   forEach (fun i => addGlobalListener (Timeline_section_click i)) (seq 0 n) ;;
   addEventListener (Some zo) Timeline_zoomOutBtn_click ;;
   addEventListener (Some prev) Timeline_navPrev_click ;;
   addEventListener (Some next) Timeline_navNext_click ;;
   (when (negb (is_null svg)) then addEventListener svg Timeline_svg_click) ;;
   addGlobalListener Timeline_keydown) p
  = (set_listeners
       (listeners p ++
          [Timeline_resize] ++ map Timeline_section_click (seq 0 n) ++
          [Timeline_zoomOutBtn_click; Timeline_navPrev_click;
           Timeline_navNext_click] ++
          (if is_null svg then [] else [Timeline_svg_click]) ++
          [Timeline_keydown]) p, Normal tt).
Proof.
  intros Hz Hp Hn Hs.
  erewrite bind_eq by apply addGlobalListener_ok.
  erewrite bind_eq by apply forEach_addGlobalListener.
  rewrite set_listeners_twice.
  erewrite bind_eq by (by apply addEventListener_ok).
  rewrite set_listeners_twice.
  erewrite bind_eq by (by apply addEventListener_ok).
  rewrite set_listeners_twice.
  erewrite bind_eq by (by apply addEventListener_ok).
  rewrite set_listeners_twice.
  erewrite bind_eq by (by apply guarded_addEventListener).
  rewrite set_listeners_twice.
  rewrite addGlobalListener_ok, set_listeners_twice.
  by rewrite <- !app_assoc.
Qed.

Lemma zoomed_to_listeners v p : listeners (zoomed_to v p) = listeners p.
Proof. unfold zoomed_to, nav_updated. by rewrite !upd_listeners. Qed.

Lemma zoomed_to_is_Some v sel p :
  is_Some (elems (zoomed_to v p) !! sel) <-> is_Some (elems p !! sel).
Proof. unfold zoomed_to, nav_updated. by rewrite !upd_is_Some. Qed.

Lemma zoomed_out_listeners p : listeners (zoomed_out p) = listeners p.
Proof. unfold zoomed_out, nav_updated. by rewrite !upd_listeners. Qed.

(** The page [setupInteractions] leaves, listeners apart. *)
Lemma setupInteractions_ok p :
  timeline_controls p ->
  Timeline.setupInteractions p
  = (set_listeners
       (listeners p ++
          [Timeline_resize] ++
          map Timeline_section_click (seq 0 (length (sectionAreas p))) ++
          [Timeline_zoomOutBtn_click; Timeline_navPrev_click;
           Timeline_navNext_click] ++
          match elems p !! ".timeline-svg" with
           | Some _ => [Timeline_svg_click]
           | None => []
           end ++
          [Timeline_keydown])
       (if is_mobile p
        then upd "#timelineContainer" (add_classes ["mobile-mode"])
               (zoomed_to (VNumber (Int 1))
                  (set_Timeline_container (Some "#timelineContainer") p))
        else set_Timeline_container (Some "#timelineContainer") p),
     Normal tt).
Proof.
  intros ((Hc & Hp & Hn) & Hz).
  set (p1 := set_Timeline_container (Some "#timelineContainer") p).
  assert (Hw1 : timeline_wired p1) by done.
  unfold Timeline.setupInteractions, getElementById, querySelector.
  change ("#" +:+ "timelineContainer") with "#timelineContainer".
  change ("#" +:+ "timelineZoomOut") with "#timelineZoomOut".
  change ("#" +:+ "timelineNavPrev") with "#timelineNavPrev".
  change ("#" +:+ "timelineNavNext") with "#timelineNavNext".
  erewrite bind_eq by (by apply lookup_element_some).
  erewrite bind_eq by reflexivity. fold p1.
  erewrite bind_eq by (by apply lookup_element_some).
  erewrite bind_eq by reflexivity.
  erewrite bind_eq by apply lookup_element_eq.
  erewrite bind_eq by (by apply lookup_element_some).
  erewrite bind_eq by (by apply lookup_element_some).
  erewrite bind_eq by reflexivity.
  change (innerWidth p1 <=? 768) with (is_mobile p).
  change (sectionAreas p1) with (sectionAreas p).
  change (elems p1) with (elems p).
  destruct (is_mobile p).
  - erewrite bind_eq.
    2:{ erewrite bind_eq by (apply zoomToSection_number; [done | lia]).
        erewrite bind_eq by reflexivity.
        pose proof (proj2 (zoomed_to_wired (VNumber (Int 1)) p1) Hw1)
          as (Hc2 & He2 & _).
        rewrite Hc2. by apply classList_add_ok. }
    rewrite registrations_ok;
      rewrite ?upd_is_Some, ?zoomed_to_is_Some; try done.
    + rewrite upd_listeners, zoomed_to_listeners.
      change (listeners p1) with (listeners p).
      repeat f_equal. by destruct (elems p !! ".timeline-svg").
    + unfold live. destruct (elems p !! ".timeline-svg") eqn:E; [|done].
      rewrite upd_is_Some, zoomed_to_is_Some. change (elems p1) with (elems p).
      by rewrite E.
  - erewrite bind_eq by reflexivity.
    rewrite registrations_ok; try done.
    + repeat f_equal. by destruct (elems p !! ".timeline-svg").
    + unfold live. destruct (elems p !! ".timeline-svg") eqn:E; [|done].
      change (elems p1) with (elems p). by rewrite E.
Qed.

(** Listeners the keyboard and the window never reach. *)
Lemma filter_quiet e (l : list Handler) :
  Forall (fun h => fires e h = false) l ->
  filter (fun h => fires e h = true) l = [].
Proof.
  induction 1 as [|h l Hh Hl IH]; [done|].
  rewrite filter_cons, decide_False by (by rewrite Hh). done.
Qed.

Lemma listening_added e l p :
  listening e (set_listeners (listeners p ++ l) p)
  = listening e p ++ filter (fun h => fires e h = true) l.
Proof. unfold listening. cbn. apply filter_app. Qed.

Lemma listening_set_listeners e l p :
  listening e (set_listeners l p) = filter (fun h => fires e h = true) l.
Proof. done. Qed.

Lemma Modal_setup_ok m b c p :
  live m p -> live b p -> live c p ->
  exists l, Modal.setup m b c p = (set_listeners (listeners p ++ l) p, Normal tt) ∧
            forall k w, Forall (fun h => fires (KeyDown k) h = false) l ∧
                        Forall (fun h => fires (Resize w) h = false) l.
Proof.
  intros Hm Hb Hc. destruct m as [m|]; cbn [Modal.setup].
  2:{ exists []. unfold ret. by rewrite set_listeners_id. }
  exists ([Modal_backdrop_click m]
          ++ (if is_null b then [] else [Modal_closeButton_click m])
          ++ (if is_null c then [] else [Modal_content_click m])).
  split.
  - erewrite bind_eq by (by apply addEventListener_ok).
    erewrite bind_eq by (by apply guarded_addEventListener).
    rewrite set_listeners_twice.
    rewrite guarded_addEventListener by done.
    rewrite set_listeners_twice. by rewrite <- app_assoc.
  - intros k w. destruct b, c; cbn; split; repeat constructor.
Qed.

Lemma AchievementModal_init_ok p :
  exists l, AchievementModal.init p
            = (set_listeners (listeners p ++ l) p, Normal tt) ∧
            forall k w, Forall (fun h => fires (KeyDown k) h = false) l ∧
                        Forall (fun h => fires (Resize w) h = false) l.
Proof.
  unfold AchievementModal.init, AchievementModal.modal, getElementById, querySelector.
  erewrite bind_eq by apply lookup_element_eq.
  erewrite bind_eq by apply lookup_element_eq.
  erewrite bind_eq by apply lookup_element_eq.
  destruct (Modal_setup_ok
              (match elems p !! ("#" +:+ "achievementModal") with
               | Some _ => Some ("#" +:+ "achievementModal") | None => None end)
              (match elems p !! ("#" +:+ "modalClose") with
               | Some _ => Some ("#" +:+ "modalClose") | None => None end)
              None p) as (l & E & Hq); [apply live_lookup..|done|].
  erewrite bind_eq by exact E.
  rewrite guarded_addEventListener by exact (live_lookup _ p).
  rewrite set_listeners_twice. eexists. split; [done|].
  intros k w. destruct (Hq k w) as (H1 & H2).
  split; apply Forall_app; (split; [done|]);
    destruct (elems p !! ".achievements-carousel"); cbn; repeat constructor.
Qed.

Lemma PartnerModal_init_ok p :
  exists l, PartnerModal.init p
            = (set_listeners (listeners p ++ l) p, Normal tt) ∧
            forall k w, Forall (fun h => fires (KeyDown k) h = false) l ∧
                        Forall (fun h => fires (Resize w) h = false) l.
Proof.
  unfold PartnerModal.init, PartnerModal.modal, PartnerModal.content,
    getElementById, querySelector.
  erewrite bind_eq by apply lookup_element_eq.
  erewrite bind_eq by apply lookup_element_eq.
  erewrite bind_eq by apply lookup_element_eq.
  erewrite bind_eq by apply lookup_element_eq.
  destruct (Modal_setup_ok
              (match elems p !! ("#" +:+ "partnerModal") with
               | Some _ => Some ("#" +:+ "partnerModal") | None => None end)
              (match elems p !! ".partner-modal-close" with
               | Some _ => Some ".partner-modal-close" | None => None end)
              (match elems p !! ("#" +:+ "partnerModalContent") with
               | Some _ => Some ("#" +:+ "partnerModalContent") | None => None end)
              p) as (l & E & Hq); [apply live_lookup..|].
  erewrite bind_eq by exact E.
  rewrite guarded_addEventListener by exact (live_lookup _ p).
  rewrite set_listeners_twice. eexists. split; [done|].
  intros k w. destruct (Hq k w) as (H1 & H2).
  split; apply Forall_app; (split; [done|]);
    destruct (elems p !! ".partners-grid"); cbn; repeat constructor.
Qed.

#[global] Instance same_reach_preorder e : PreOrder (same_reach e).
Proof.
  split.
  - intros p. by split.
  - intros p q r (H1 & H2) (G1 & G2). split; congruence.
Qed.

Lemma same_reach_elems e m p : same_reach e p (set_elems m p).
Proof. by split. Qed.

Lemma same_reach_LanguageSwitcher_init e :
  fires e LanguageSwitcher_toggle_change = false ->
  respects (same_reach e) LanguageSwitcher.init.
Proof.
  intros He. unfold LanguageSwitcher.init.
  apply respects_bind; [apply _ | apply respects_lookup_element, _ |].
  intros t. apply respects_bind; [apply _ | |].
  { apply respects_modify. intros p. by split. }
  intros _. destruct (is_null t); [apply respects_ret, _|].
  apply respects_bind; [apply _ | |].
  { unfold LanguageSwitcher.storeOriginalTexts.
    apply respects_bind; [apply _ | apply respects_get, _ |].
    intros p. apply respects_forEach; [apply _|]. intros el.
    apply respects_modify. intros q. by split. }
  intros _. apply respects_bind; [apply _ | apply respects_get, _ |].
  intros p. apply respects_bind; [apply _ | |].
  { destruct (bool_decide _); [|apply respects_ret, _].
    apply respects_bind; [apply _ | |].
    - apply respects_set_checked; [apply _|]. intros. apply same_reach_elems.
    - intros _. apply respects_switchLanguage; try apply _;
        intros; by split. }
  intros _. apply respects_addEventListener; [apply _|].
  intros q. split; [done|]. rewrite listening_added.
  rewrite filter_cons, decide_False by (by rewrite He).
  by rewrite app_nil_r.
Qed.

Lemma same_reach_report {A} e (m : JS A) p :
  respects (same_reach e) m -> same_reach e p (report m p).
Proof.
  intros H. specialize (H p). unfold exec, report in *.
  by destruct (m p) as [q [a|x]].
Qed.

Lemma container_classes_set_listeners l p :
  container_classes (set_listeners l p) = container_classes p.
Proof. done. Qed.

Lemma same_timeline_zoomed p q :
  same_timeline p q ->
  "zoomed" ∈ container_classes p -> "zoomed" ∈ container_classes q.
Proof. intros (_ & _ & _ & _ & H). apply H. set_solver. Qed.

Lemma same_timeline_report {A} (m : JS A) p :
  frame m -> same_timeline p (report m p).
Proof.
  intros H. specialize (H p). unfold exec, report in *.
  by destruct (m p) as [q [a|x]].
Qed.

(** Start-up on a page with the elements of the sidebar and of the
    timeline: every module up to the keyboard handler completes, and the
    language switcher runs last. *)
Lemma load_eq d :
  sidebar_wired d -> timeline_controls d ->
  exists p5,
    load d = report LanguageSwitcher.init p5 ∧
    listening (KeyDown "") p5 = [Timeline_keydown; KeyboardHandler_keydown] ∧
    listening (Resize 0) p5 = [Timeline_resize] ∧
    innerWidth p5 = innerWidth d ∧
    (forall sel, is_Some (elems p5 !! sel) <-> is_Some (elems d !! sel)) ∧
    (is_mobile d = true -> "zoomed" ∈ container_classes p5).
Proof.
  intros Hs Ht. unfold load, init.
  set (p0 := fresh d).
  assert (Hs0 : sidebar_wired p0) by done.
  assert (E1 := Navigation_init_ok p0 Hs0).
  set (p1 := set_listeners _ p0) in E1.
  assert (Ht1 : timeline_controls p1) by done.
  assert (E2 := setupInteractions_ok p1 Ht1).
  set (p2 := set_listeners _ _) in E2.
  destruct (AchievementModal_init_ok p2) as (l3 & E3 & Q3).
  set (p3 := set_listeners _ p2) in E3.
  destruct (PartnerModal_init_ok p3) as (l4 & E4 & Q4).
  set (p4 := set_listeners _ p3) in E4.
  exists (set_listeners (listeners p4 ++ [KeyboardHandler_keydown]) p4).
  split; [|split; [|split; [|split; [|split]]]].
  - unfold report.
    rewrite (bind_eq _ _ _ _ _ E1). unfold Timeline.init.
    rewrite (bind_eq _ _ _ _ _ E2), (bind_eq _ _ _ _ _ E3),
      (bind_eq _ _ _ _ _ E4).
    unfold KeyboardHandler.init.
    by rewrite (bind_eq _ _ p4 _ tt (addGlobalListener_ok _ p4)).
  - rewrite listening_added. unfold p4. rewrite listening_added.
    unfold p3. rewrite listening_added. unfold p2.
    rewrite listening_set_listeners.
    rewrite (filter_quiet _ l3) by apply (Q3 "" 0).
    rewrite (filter_quiet _ l4) by apply (Q4 "" 0).
    rewrite !filter_app.
    rewrite (filter_quiet _ (map _ _)).
    2:{ apply Forall_forall. intros h Hh.
        apply list_elem_of_fmap in Hh as (i & -> & _). done. }
    destruct (elems p1 !! ".timeline-svg"); reflexivity.
  - rewrite listening_added. unfold p4. rewrite listening_added.
    unfold p3. rewrite listening_added. unfold p2.
    rewrite listening_set_listeners.
    rewrite (filter_quiet _ l3) by apply (Q3 "" 0).
    rewrite (filter_quiet _ l4) by apply (Q4 "" 0).
    rewrite !filter_app.
    rewrite (filter_quiet _ (map _ _)).
    2:{ apply Forall_forall. intros h Hh.
        apply list_elem_of_fmap in Hh as (i & -> & _). done. }
    destruct (elems p1 !! ".timeline-svg"); reflexivity.
  - unfold p4, p3, p2. cbn [innerWidth set_listeners].
    destruct (is_mobile p1); [|done].
    by rewrite upd_innerWidth, zoomed_to_innerWidth.
  - intros sel. unfold p4, p3, p2. cbn [elems set_listeners].
    destruct (is_mobile p1); [|done].
    by rewrite upd_is_Some, zoomed_to_is_Some.
  - intros Hm. unfold p4, p3, p2. rewrite !container_classes_set_listeners.
    change (is_mobile p1) with (is_mobile d). rewrite Hm.
    destruct Ht as ((Hc & Hp & Hn) & Hz).
    assert (Hw : timeline_wired
                   (set_Timeline_container (Some "#timelineContainer") p1))
      by done.
    rewrite container_classes_add by (by apply zoomed_to_wired).
    rewrite zoomed_to_container_classes by done. set_solver.
Qed.

Lemma standard_listening_load d :
  sidebar_wired d -> timeline_controls d -> standard_listening (load d).
Proof.
  intros Hs Ht. destruct (load_eq d Hs Ht) as (p5 & -> & Hk & Hr & _).
  split.
  - rewrite <- Hk. apply same_reach_report.
    by apply same_reach_LanguageSwitcher_init.
  - rewrite <- Hr. apply same_reach_report.
    by apply same_reach_LanguageSwitcher_init.
Qed.

(** X14. On a page that has the three elements of the sidebar and the
    container and the three buttons of the timeline, start-up registers
    the key listener of the timeline and then the keyboard handler, once
    each, and one resize listener, and it stays so after every event. *)
Theorem startup_registers_key_listeners (d : Page) (es : list Event) :
  sidebar_wired d ->
  timeline_controls d ->
  standard_listening (run (load d) es).
Proof.
  intros Hs Ht. destruct (standard_listening_load d Hs Ht) as (H1 & H2).
  split; by rewrite listening_run.
Qed.

Lemma startup_registers_key_listeners_witness :
  listening (KeyDown "Escape")
    (run (load (document_at 390)) [ClickMenuToggle; Resize 1024])
  = [Timeline_keydown; KeyboardHandler_keydown].
Proof.
  rewrite (listening_keydown "Escape" "").
  refine (proj1 (startup_registers_key_listeners (document_at 390) _ _ _)).
  - refine (bool_decide_unpack _ _); vm_compute; exact I.
  - refine (bool_decide_unpack _ _); vm_compute; exact I.
Defined.

(** ** A mobile width keeps the timeline zoomed *)

Lemma listening_resize w w' p : listening (Resize w) p = listening (Resize w') p.
Proof. done. Qed.

Lemma sidebar_wired_same_static p q :
  same_static p q -> sidebar_wired p -> sidebar_wired q.
Proof.
  intros (_ & _ & _ & _ & H) (H1 & H2 & H3). repeat split; by apply H.
Qed.

Lemma zoomed_in_zoomed_to v p :
  timeline_wired p -> "zoomed" ∈ container_classes (zoomed_to v p).
Proof. intros Hw. rewrite zoomed_to_container_classes by done. set_solver. Qed.

Lemma zoomed_mobile_mode_added p :
  timeline_wired p -> "zoomed" ∈ container_classes p ->
  "zoomed" ∈ container_classes
               (upd "#timelineContainer" (add_classes ["mobile-mode"]) p).
Proof. intros Hw Hz. rewrite container_classes_add by done. set_solver. Qed.

Lemma container_classes_wired_upd sel f p :
  timeline_wired p -> sel <> "#timelineContainer" ->
  container_classes (upd sel f p) = container_classes p.
Proof.
  intros (Hc & _) Hne. apply container_classes_upd_ne. rewrite Hc. congruence.
Qed.

(** On a mobile width no listener takes [zoomed] away. *)
Lemma zoomed_handler e h q :
  timeline_inv q -> sidebar_wired q -> is_mobile q = true ->
  "zoomed" ∈ container_classes q ->
  "zoomed" ∈ container_classes (exec (handler e h) q).
Proof.
  intros Hi Hs Hm Hz. pose proof Hi as (Hw & Hv & Hr & _).
  assert (Hn : forall n, 1 <= n <= 3 ->
            "zoomed" ∈ container_classes
                         (exec (Timeline.zoomToSection (VNumber (Int n))) q)).
  { intros n Hn. unfold exec. rewrite zoomToSection_number by done.
    by apply zoomed_in_zoomed_to. }
  destruct h; cbn [handler].
  - apply (same_timeline_zoomed q); [apply frame_on_menuToggle_click | done].
  - apply (same_timeline_zoomed q); [apply frame_closeSidebar | done].
  - apply (same_timeline_zoomed q); [apply frame_closeSidebar | done].
  - unfold exec. rewrite on_resize_eq, Hm by done.
    rewrite bool_decide_eq_true_2 by done. by apply zoomed_mobile_mode_added.
  - unfold exec, bind, get. destruct (sectionAreas q !! i); [|done].
    by rewrite on_section_click_eq, Hm.
  - unfold exec. by rewrite zoomOut_eq, Hm.
  - unfold exec. rewrite on_navPrev_click_eq.
    destruct (section_in_range_cases _ Hr) as [H | [H | H]]; rewrite H; cbn;
      try done; by apply Hn.
  - unfold exec. rewrite on_navNext_click_eq.
    destruct (section_in_range_cases _ Hr) as [H | [H | H]]; rewrite H; cbn;
      try done; by apply Hn.
  - unfold exec. by rewrite on_svg_click_eq, Hm.
  - unfold exec. rewrite on_keydown_eq by done.
    destruct (negb (is_mobile q) && _); [done|].
    destruct (section_in_range_cases _ Hr) as [H | [H | H]]; rewrite H; cbn;
      repeat (case_bool_decide; cbn); try done; by apply Hn.
  - apply (same_timeline_zoomed q); [apply frame_Modal_close | done].
  - apply (same_timeline_zoomed q); [apply frame_Modal_close | done].
  - done.
  - apply (same_timeline_zoomed q); [apply frame_on_carousel_click | done].
  - apply (same_timeline_zoomed q); [apply frame_on_grid_click | done].
  - set (k := match e with KeyDown k => k | _ => "" end).
    destruct (decide (k = "Escape")) as [->|Hk].
    + unfold exec. rewrite KeyboardHandler_on_keydown_escape by done.
      cbn [fst]. rewrite Hm, (bool_decide_eq_true_2 _ Hz).
      repeat destruct (active _ q); try done;
        change (container_classes (set_body_overflow "" ?p))
          with (container_classes p);
        by rewrite !container_classes_wired_upd
          by (rewrite ?timeline_wired_upd; done).
    + unfold exec. by rewrite KeyboardHandler_on_keydown_other.
  - apply (same_timeline_zoomed q); [apply frame_on_toggle_change | done].
Qed.

Lemma innerWidth_handler e h q :
  innerWidth (exec (handler e h) q) = innerWidth q.
Proof. by destruct (same_static_handler e h q) as (_ & H & _). Qed.

Lemma sidebar_wired_default_action e q :
  sidebar_wired q -> sidebar_wired (default_action e q).
Proof.
  destruct e; try done. cbn.
  destruct (LanguageSwitcher_toggle q) as [t|]; [|done].
  destruct (elems q !! t) as [el|] eqn:E; [|done].
  apply sidebar_wired_same_static. by eapply same_static_insert.
Qed.

Lemma sidebar_wired_dispatch q e : sidebar_wired q -> sidebar_wired (dispatch q e).
Proof.
  intros Hs. apply dispatch_preserves.
  - by apply sidebar_wired_default_action.
  - intros h p _ Hp. revert Hp. apply sidebar_wired_same_static.
    apply same_static_report, same_static_handler.
Qed.

Lemma container_classes_default_action e q :
  container_classes (default_action e q) = container_classes q.
Proof.
  destruct e; try done. cbn.
  destruct (LanguageSwitcher_toggle q) as [t|]; [|done].
  destruct (elems q !! t) as [el|] eqn:E; [|done].
  unfold container_classes. cbn [Timeline_container set_elems].
  destruct (Timeline_container q) as [c|]; [|done].
  unfold classes_of. cbn [elems set_elems].
  destruct (decide (c = t)) as [->|Hne].
  - by rewrite lookup_insert_eq, E.
  - by rewrite lookup_insert_ne.
Qed.

Lemma mobile_zoomed_dispatch q e :
  timeline_inv q -> sidebar_wired q -> standard_listening q ->
  mobile_zoomed q -> mobile_zoomed (dispatch q e).
Proof.
  intros Hi Hs (_ & Hl) Hz. pose proof Hi as (Hw & _).
  assert ((exists w, e = Resize w) \/ ~ (exists w, e = Resize w))
    as [[w ->]|Hne].
  { destruct e; try (right; by intros [w Hw']). left. by eexists. }
  - rewrite dispatch_resize by (by rewrite (listening_resize w 0)).
    assert (Hw' : timeline_wired (set_innerWidth w q)) by done.
    unfold report. rewrite on_resize_eq by done.
    change (is_mobile (set_innerWidth w q)) with (w <=? 768).
    destruct (w <=? 768) eqn:Ew.
    + intros _. case_bool_decide.
      * by apply zoomed_mobile_mode_added.
      * apply zoomed_mobile_mode_added; [by apply zoomed_to_wired|].
        by apply zoomed_in_zoomed_to.
    + case_bool_decide; intros Hm; exfalso; revert Hm; unfold is_mobile;
        rewrite ?upd_innerWidth, ?zoomed_out_innerWidth; cbn; by rewrite Ew.
  - assert (Hd : innerWidth (default_action e q) = innerWidth q).
    { destruct e; try done.
      - exfalso. apply Hne. by eexists.
      - cbn. destruct (LanguageSwitcher_toggle q) as [t|]; [|done].
        by destruct (elems q !! t). }
    enough (H : timeline_inv (dispatch q e) ∧ sidebar_wired (dispatch q e) ∧
                innerWidth (dispatch q e) = innerWidth q ∧
                (is_mobile q = true -> "zoomed" ∈ container_classes (dispatch q e))).
    { destruct H as (_ & _ & H1 & H2). intros Hm. apply H2.
      unfold is_mobile in *. by rewrite <- H1. }
    apply (dispatch_preserves
             (fun p => timeline_inv p ∧ sidebar_wired p ∧
                       innerWidth p = innerWidth q ∧
                       (is_mobile q = true -> "zoomed" ∈ container_classes p))).
    + split; [by apply timeline_inv_default_action|].
      split; [by apply sidebar_wired_default_action|].
      split; [done|]. rewrite container_classes_default_action. apply Hz.
    + intros h p _ (Hp1 & Hp2 & Hp3 & Hp4).
      pose proof (handler_keeps_timeline_inv e h p Hp1) as G1.
      pose proof (sidebar_wired_same_static _ _ (same_static_handler e h p) Hp2)
        as G2.
      pose proof (innerWidth_handler e h p) as G3.
      assert (G4 : is_mobile q = true ->
                   "zoomed" ∈ container_classes (exec (handler e h) p)).
      { intros Hm. apply zoomed_handler; try done; [|by apply Hp4].
        unfold is_mobile in *. by rewrite Hp3. }
      unfold exec in *. unfold report.
      destruct (handler e h p) as [p' [a|x]]; cbn in *; by rewrite ?G3.
Qed.

Lemma mobile_zoomed_load d :
  sidebar_wired d -> timeline_controls d -> mobile_zoomed (load d).
Proof.
  intros Hs Ht. destruct (load_eq d Hs Ht) as (p5 & E & _ & _ & Hw & _ & Hz).
  rewrite E. intros Hm.
  assert (Hr := same_reach_report (KeyDown "") LanguageSwitcher.init p5
                  (same_reach_LanguageSwitcher_init (KeyDown "") eq_refl)).
  destruct Hr as (Hr & _).
  apply (same_timeline_zoomed p5).
  - apply same_timeline_report, frame_LanguageSwitcher_init.
  - apply Hz. unfold is_mobile in *. by rewrite <- Hw, <- Hr.
Qed.

Lemma sidebar_wired_load d :
  sidebar_wired d -> timeline_controls d -> sidebar_wired (load d).
Proof.
  intros Hs Ht. destruct (load_eq d Hs Ht) as (p5 & E & _ & _ & _ & He & _).
  rewrite E.
  destruct (same_timeline_report LanguageSwitcher.init p5
              frame_LanguageSwitcher_init) as (_ & _ & _ & H & _).
  destruct Hs as (H1 & H2 & H3). repeat split; by apply H, He.
Qed.

(** X15. On a page with the elements of the sidebar and of the timeline
    and well-formed hot-zones, whenever the window has a mobile width the
    timeline is zoomed: right after start-up and after every sequence of
    events, resizes included. *)
Theorem mobile_timeline_always_zoomed (d : Page) (es : list Event) :
  sidebar_wired d ->
  timeline_controls d ->
  valid_sections d ->
  authored_idle d ->
  mobile_zoomed (run (load d) es).
Proof.
  intros Hs Ht Hv Ha.
  pose proof (timeline_inv_load d Hs (proj1 Ht) Hv Ha) as Hi.
  pose proof (sidebar_wired_load d Hs Ht) as Hs'.
  pose proof (standard_listening_load d Hs Ht) as Hl.
  pose proof (mobile_zoomed_load d Hs Ht) as Hz.
  revert Hi Hs' Hl Hz. generalize (load d). clear.
  induction es as [|e es IH]; intros p Hi Hs Hl Hz; [done|].
  change (run p (e :: es)) with (run (dispatch p e) es).
  apply IH.
  - by apply dispatch_keeps_timeline_inv.
  - by apply sidebar_wired_dispatch.
  - destruct Hl as (H1 & H2). split; unfold listening in *;
      by rewrite listeners_dispatch.
  - by apply mobile_zoomed_dispatch.
Qed.

Lemma mobile_timeline_always_zoomed_witness :
  "zoomed" ∈ container_classes
    (run (load (document_at 1280))
       [ClickSection 1; Resize 600; KeyDown "Escape"; ClickZoomOut; ClickSvg]).
Proof.
  refine (mobile_timeline_always_zoomed (document_at 1280) _ _ _ _ _ _).
  - refine (bool_decide_unpack _ _); vm_compute; exact I.
  - refine (bool_decide_unpack _ _); vm_compute; exact I.
  - refine (bool_decide_unpack _ _); vm_compute; exact I.
  - refine (bool_decide_unpack _ _); vm_compute; exact I.
  - vm_compute; reflexivity.
Defined.

(** ** A start-up that fails *)

Lemma initSidebar_fails p :
  ~ sidebar_wired p ->
  exists l, Navigation.initSidebar p
            = (set_listeners (listeners p ++ l) p, Throw TypeError) ∧
            forall k w, Forall (fun h => fires (KeyDown k) h = false) l ∧
                        Forall (fun h => fires (Resize w) h = false) l.
Proof.
  intros Hn.
  unfold Navigation.initSidebar, Navigation.menuToggle, Navigation.sidebarNav,
    Navigation.sidebarOverlay, getElementById.
  change ("#" +:+ "menuToggle") with "#menuToggle".
  change ("#" +:+ "sidebarNav") with "#sidebarNav".
  change ("#" +:+ "sidebarOverlay") with "#sidebarOverlay".
  erewrite bind_eq by apply lookup_element_eq.
  destruct (elems p !! "#menuToggle") as [e1|] eqn:E1.
  2:{ exists []. rewrite set_listeners_id. split; [|by split].
      by erewrite bind_throw by apply addEventListener_null. }
  erewrite bind_eq by (apply addEventListener_ok; exact (mk_is_Some _ _ E1)).
  erewrite bind_eq by apply lookup_element_eq.
  cbn [elems set_listeners].
  destruct (elems p !! "#sidebarOverlay") as [e2|] eqn:E2.
  2:{ exists [Navigation_menuToggle_click].
      split; [|split; by repeat constructor].
      by erewrite bind_throw by apply addEventListener_null. }
  erewrite bind_eq by (apply addEventListener_ok; exact (mk_is_Some _ _ E2)).
  erewrite bind_eq by apply lookup_element_eq.
  rewrite set_listeners_twice. cbn [elems set_listeners].
  destruct (elems p !! "#sidebarNav") as [e3|] eqn:E3.
  { exfalso. apply Hn. unfold sidebar_wired. rewrite E1, E2, E3. eauto. }
  eexists. split; [by rewrite addEventListener_null|].
  split; by repeat constructor.
Qed.

(** X16. When one of the three elements of the sidebar is missing,
    start-up stops with a [TypeError] before any other module runs: the
    timeline holds no container, no element and no text is touched
    whatever the width and the saved language, and afterwards key
    presses do nothing and a resize only changes the width. *)
Theorem startup_fails_without_sidebar (d : Page) :
  ~ sidebar_wired d ->
  console (load d) = [TypeError] ∧
  elems (load d) = elems d ∧
  translatable (load d) = translatable d ∧
  Timeline_container (load d) = None ∧
  LanguageSwitcher_toggle (load d) = None ∧
  (forall k, dispatch (load d) (KeyDown k) = load d) ∧
  (forall w, dispatch (load d) (Resize w) = set_innerWidth w (load d)).
Proof.
  intros Hn. assert (Hn' : ~ sidebar_wired (fresh d)) by done.
  destruct (initSidebar_fails _ Hn') as (l & E & Hq).
  assert (El : load d = set_console [TypeError]
                          (set_listeners (listeners (fresh d) ++ l) (fresh d))).
  { unfold load, report, init, Navigation.init.
    by rewrite (bind_throw _ _ _ _ _ E). }
  rewrite El. repeat split; try done.
  - intros k. unfold dispatch. cbn [default_action].
    change (listening (KeyDown k) (set_console ?c ?p)) with (listening (KeyDown k) p).
    rewrite listening_added. rewrite filter_quiet by apply (Hq k 0). done.
  - intros w. unfold dispatch. cbn [default_action].
    change (listening (Resize w) (set_innerWidth w (set_console ?c ?p)))
      with (listening (Resize w) p).
    rewrite listening_added. rewrite filter_quiet by apply (Hq "" w). done.
Qed.

Lemma startup_fails_without_sidebar_witness :
  console (load (set_elems (delete "#sidebarOverlay" (elems (document_at 390)))
                   (document_at 390))) = [TypeError] ∧
  Timeline_container
    (load (set_elems (delete "#sidebarOverlay" (elems (document_at 390)))
             (document_at 390))) = None.
Proof.
  assert (H : ~ sidebar_wired
                (set_elems (delete "#sidebarOverlay" (elems (document_at 390)))
                   (document_at 390)))
    by (refine (bool_decide_unpack _ _); vm_compute; exact I).
  pose proof (startup_fails_without_sidebar _ H) as (H1 & _ & _ & H2 & _).
  split; [exact H1 | exact H2].
Defined.

(** ** The language switcher *)

(** No entry of the German table is empty. *)
Lemma translations_de_truthy key v :
  LanguageSwitcher.translations_de !! key = Some v -> v <> "".
Proof.
  assert (H : map_Forall (fun _ v => v <> "") LanguageSwitcher.translations_de).
  { refine (bool_decide_unpack _ _). vm_compute. exact I. }
  apply H.
Qed.


Lemma translate_key lang orig el :
  dataset_i18n (LanguageSwitcher.translate lang orig el) = dataset_i18n el.
Proof.
  unfold LanguageSwitcher.translate.
  destruct (_ && _); [done|]. by destruct (_ && _).
Qed.

Lemma translate_idempotent lang orig el :
  LanguageSwitcher.translate lang orig (LanguageSwitcher.translate lang orig el)
  = LanguageSwitcher.translate lang orig el.
Proof.
  unfold LanguageSwitcher.translate at 1. rewrite translate_key.
  unfold LanguageSwitcher.translate.
  destruct (_ && _); [done|]. by destruct (_ && _).
Qed.




Ltac page_simpl :=
  repeat (progress
    (cbn [innerWidth body_overflow html_lang translatable
       sectionAreas preferredLanguage listeners console Timeline_container
       Timeline_currentSection LanguageSwitcher_currentLang
       LanguageSwitcher_toggle LanguageSwitcher_originalTexts set_html_lang
       set_translatable set_currentLang set_body_overflow
       set_preferredLanguage];
     rewrite ?upd_innerWidth, ?upd_body_overflow, ?upd_html_lang,
       ?upd_translatable,
       ?upd_sectionAreas, ?upd_preferredLanguage, ?upd_listeners, ?upd_console,
       ?upd_Timeline_container, ?upd_Timeline_currentSection,
       ?upd_LanguageSwitcher_currentLang, ?upd_LanguageSwitcher_toggle,
       ?upd_LanguageSwitcher_originalTexts)).

Lemma label_idempotent (b : bool) el :
  (if b then add_classes ["active"] else remove_classes ["active"])
    ((if b then add_classes ["active"] else remove_classes ["active"]) el)
  = (if b then add_classes ["active"] else remove_classes ["active"]) el.
Proof.
  destruct el as [C d k], b; unfold add_classes, remove_classes, with_classes;
    cbn; f_equal; set_solver.
Qed.

(** The fields of the page [switchLanguage] leaves. *)
Lemma relabelled_fields lang T f g p :
  let q := set_html_lang lang
             (set_translatable T
                (upd ".lang-de" f (upd ".lang-en" g (set_currentLang lang p)))) in
  innerWidth q = innerWidth p ∧ body_overflow q = body_overflow p ∧
  html_lang q = lang ∧ translatable q = T ∧
  sectionAreas q = sectionAreas p ∧
  preferredLanguage q = preferredLanguage p ∧ listeners q = listeners p ∧
  console q = console p ∧ Timeline_container q = Timeline_container p ∧
  Timeline_currentSection q = Timeline_currentSection p ∧
  LanguageSwitcher_currentLang q = lang ∧
  LanguageSwitcher_toggle q = LanguageSwitcher_toggle p ∧
  LanguageSwitcher_originalTexts q = LanguageSwitcher_originalTexts p ∧
  (forall i, elems q !! i
             = if decide (i = ".lang-de") then f <$> (elems p !! ".lang-de")
               else if decide (i = ".lang-en") then g <$> (elems p !! ".lang-en")
               else elems p !! i).
Proof.
  intros q. unfold q. page_simpl. repeat split; try done.
  intros i. cbn [elems set_html_lang set_translatable].
  rewrite !upd_lookup. cbn [elems set_currentLang].
  by repeat case_decide.
Qed.

(** X18. Switching to the language that is already shown changes nothing
    more: [switchLanguage] twice with the same language leaves the page
    that once leaves. *)
Theorem switchLanguage_idempotent (lang : string) (p : Page) :
  is_Some (elems p !! ".lang-en") ->
  is_Some (elems p !! ".lang-de") ->
  exec (LanguageSwitcher.switchLanguage lang ;;
        LanguageSwitcher.switchLanguage lang) p
  = exec (LanguageSwitcher.switchLanguage lang) p.
Proof.
  intros He Hd. unfold exec.
  erewrite bind_eq by (by apply switchLanguage_eq).
  rewrite (switchLanguage_eq lang p) by done. cbn [fst].
  pose proof (label_idempotent (bool_decide (lang = "de"))) as Hf.
  pose proof (label_idempotent (bool_decide (lang = "en"))) as Hg.
  set (T := map _ (translatable p)).
  pose proof (relabelled_fields lang T
                (if bool_decide (lang = "de") then add_classes ["active"]
                 else remove_classes ["active"])
                (if bool_decide (lang = "en") then add_classes ["active"]
                 else remove_classes ["active"]) p)
    as (A1 & A2 & A3 & A4 & A5 & A6 & A7 & A8 & A9 & A10 & A11 & A12 & A13 & A14).
  set (p1 := set_html_lang lang _) in *. clearbody p1.
  assert (He1 : is_Some (elems p1 !! ".lang-en")).
  { rewrite A14, decide_False, decide_True by done.
    destruct He as [e ->]. by eexists. }
  assert (Hd1 : is_Some (elems p1 !! ".lang-de")).
  { rewrite A14, decide_True by done. destruct Hd as [e ->]. by eexists. }
  rewrite (switchLanguage_eq lang p1) by done. cbn [fst].
  pose proof (relabelled_fields lang
                (map (LanguageSwitcher.translate lang
                        (LanguageSwitcher_originalTexts p1)) (translatable p1))
                (if bool_decide (lang = "de") then add_classes ["active"]
                 else remove_classes ["active"])
                (if bool_decide (lang = "en") then add_classes ["active"]
                 else remove_classes ["active"]) p1)
    as (B1 & B2 & B3 & B4 & B5 & B6 & B7 & B8 & B9 & B10 & B11 & B12 & B13 & B14).
  set (p2 := set_html_lang lang _) in *. clearbody p2.
  apply page_ext; try congruence.
  - apply map_eq. intros i. rewrite B14, !A14.
    set (f := if bool_decide (lang = "de") then _ else _) in *.
    set (g := if bool_decide (lang = "en") then _ else _) in *.
    clearbody f g. clear -Hf Hg.
    repeat case_decide; subst; try done.
    + destruct (elems p !! ".lang-de"); cbn; by rewrite ?Hf.
    + destruct (elems p !! ".lang-en"); cbn; by rewrite ?Hg.
  - rewrite B4, A4, A13. unfold T. rewrite map_map. apply map_ext.
    intros el. apply translate_idempotent.
Qed.

Lemma switchLanguage_idempotent_witness :
  exec (LanguageSwitcher.switchLanguage "de" ;;
        LanguageSwitcher.switchLanguage "de") desktop_page
  = exec (LanguageSwitcher.switchLanguage "de") desktop_page.
Proof.
  apply switchLanguage_idempotent; vm_compute; eexists; reflexivity.
Defined.









(** ** The scroll listener of the navigation bar *)

Lemma on_scroll_same y last p :
  isScrolled y = last -> on_scroll y last p = (p, Normal last).
Proof. intros <-. unfold on_scroll. by rewrite eqb_reflx. Qed.

Lemma on_scroll_cross y last p :
  isScrolled y <> last -> is_Some (elems p !! "#navbar") ->
  on_scroll y last p
  = (upd "#navbar"
       (if isScrolled y then add_classes ["scrolled"]
        else remove_classes ["scrolled"]) p, Normal (isScrolled y)).
Proof.
  intros Hne Hn. unfold on_scroll.
  rewrite (proj2 (eqb_false_iff _ _)) by done.
  unfold Navigation.navbar, getElementById.
  change ("#" +:+ "navbar") with "#navbar".
  erewrite bind_eq by (by apply lookup_element_some).
  unfold classList_toggle. destruct (isScrolled y).
  - erewrite bind_eq by (by apply classList_add_ok). done.
  - erewrite bind_eq by (by apply classList_remove_ok). done.
Qed.

Lemma on_scroll_absent y last p :
  isScrolled y <> last -> elems p !! "#navbar" = None ->
  on_scroll y last p = (p, Throw TypeError).
Proof.
  intros Hne Hn. unfold on_scroll.
  rewrite (proj2 (eqb_false_iff _ _)) by done.
  unfold Navigation.navbar, getElementById.
  change ("#" +:+ "navbar") with "#navbar".
  erewrite bind_eq by (by apply lookup_element_none).
  unfold classList_toggle, classList_add, classList_remove.
  by destruct (isScrolled y).
Qed.

Lemma scroll_step s y :
  is_Some (elems (scroll_page s) !! "#navbar") ->
  lastScrolled s = navbar_scrolled s ->
  is_Some (elems (scroll_page (scroll s y)) !! "#navbar") ∧
  lastScrolled (scroll s y) = isScrolled y ∧
  navbar_scrolled (scroll s y) = isScrolled y ∧
  console (scroll_page (scroll s y)) = console (scroll_page s).
Proof.
  intros Hn Hl. unfold scroll.
  destruct (decide (isScrolled y = lastScrolled s)) as [E|E].
  - rewrite on_scroll_same by done. unfold navbar_scrolled in *. cbn.
    rewrite <- Hl. by rewrite E.
  - rewrite on_scroll_cross by done. unfold navbar_scrolled. cbn.
    rewrite upd_is_Some, upd_console. repeat split; try done.
    destruct (isScrolled y).
    + rewrite upd_add_classes by done. apply bool_decide_eq_true_2. set_solver.
    + rewrite upd_remove_classes by done. apply bool_decide_eq_false_2.
      set_solver.
Qed.

(** X21. When the page has the navigation bar and the bar starts without
    the [scrolled] style, after any sequence of scroll events the bar
    carries [scrolled] exactly when the last position is beyond 100, and
    nothing is reported to the console; an event that stays on the same
    side of the threshold as the one before writes nothing at all. *)
Theorem navbar_follows_scroll (s : Scrolling) (ys : list Q) (y : Q) :
  is_Some (elems (scroll_page s) !! "#navbar") ->
  lastScrolled s = navbar_scrolled s ->
  navbar_scrolled (fold_left scroll (ys ++ [y]) s) = isScrolled y ∧
  console (scroll_page (fold_left scroll (ys ++ [y]) s)) = console (scroll_page s) ∧
  (isScrolled y = navbar_scrolled (fold_left scroll ys s) ->
   fold_left scroll (ys ++ [y]) s = fold_left scroll ys s).
Proof.
  intros Hn Hl. rewrite fold_left_app. cbn [fold_left].
  assert (H : is_Some (elems (scroll_page (fold_left scroll ys s)) !! "#navbar") ∧
              lastScrolled (fold_left scroll ys s)
              = navbar_scrolled (fold_left scroll ys s) ∧
              console (scroll_page (fold_left scroll ys s))
              = console (scroll_page s)).
  { revert s Hn Hl. induction ys as [|y' ys IH]; intros s Hn Hl; [done|].
    cbn [fold_left].
    destruct (scroll_step s y' Hn Hl) as (H1 & H2 & H3 & H4).
    rewrite <- H4. apply IH; [done | congruence]. }
  destruct H as (H1 & H2 & H3).
  destruct (scroll_step _ y H1 H2) as (_ & G2 & G3 & G4).
  split; [done|]. split; [congruence|].
  intros E. set (s' := fold_left scroll ys s) in *. clearbody s'.
  unfold scroll. rewrite on_scroll_same by (by rewrite H2).
  by destruct s'.
Qed.

Lemma navbar_follows_scroll_witness :
  navbar_scrolled
    (fold_left scroll [0; 250; 99; 101]%Q (mkScrolling desktop_page false))
  = true.
Proof.
  refine (proj1 (navbar_follows_scroll (mkScrolling desktop_page false)
                   [0; 250; 99]%Q 101%Q _ _)).
  - vm_compute. eexists. reflexivity.
  - vm_compute. reflexivity.
Defined.

(** X22. When the page has no navigation bar, the listener throws on
    every scroll event beyond 100 and never records that the page is
    scrolled: each such event adds a [TypeError] to the console. *)
Theorem scroll_without_navbar (s : Scrolling) (ys : list Q) :
  elems (scroll_page s) !! "#navbar" = None ->
  lastScrolled s = false ->
  Forall (fun y => isScrolled y = true) ys ->
  lastScrolled (fold_left scroll ys s) = false ∧
  console (scroll_page (fold_left scroll ys s))
  = console (scroll_page s) ++ replicate (length ys) TypeError.
Proof.
  intros Hn Hl Hy. revert s Hn Hl.
  induction Hy as [|y ys Hy Hys IH]; intros s Hn Hl.
  - cbn. by rewrite app_nil_r.
  - cbn [fold_left length replicate].
    assert (E : scroll s y
                = mkScrolling (set_console (console (scroll_page s) ++ [TypeError])
                                 (scroll_page s)) false).
    { unfold scroll. rewrite on_scroll_absent by (done || by rewrite Hy, Hl).
      by rewrite Hl. }
    rewrite E.
    destruct (IH (mkScrolling
                    (set_console (console (scroll_page s) ++ [TypeError])
                       (scroll_page s)) false) Hn eq_refl) as (H1 & H2).
    split; [done|]. rewrite H2. cbn. by rewrite <- app_assoc.
Qed.

Lemma scroll_without_navbar_witness :
  console
    (scroll_page
       (fold_left scroll [150; 300]%Q
          (mkScrolling
             (set_elems (delete "#navbar" (elems (document_at 1280)))
                (document_at 1280)) false)))
  = [TypeError; TypeError].
Proof.
  refine (proj2 (scroll_without_navbar _ [150; 300]%Q _ _ _)).
  - vm_compute. reflexivity.
  - reflexivity.
  - repeat constructor.
Defined.

(** ** The content of the achievement modal *)

Lemma or_else_translated id field d :
  AchievementContent.or_else (AchievementContent.translated id field) d
  = match AchievementContent.translated id field with
    | Some v => Some v
    | None => d
    end.
Proof.
  unfold AchievementContent.or_else, AchievementContent.translated.
  destruct (LanguageSwitcher.translations_de !! _) as [v|] eqn:E; [|done].
  by rewrite truthy_Some by (by eapply translations_de_truthy).
Qed.

Lemma or_else_truthy a d :
  LanguageSwitcher.truthy d = true ->
  LanguageSwitcher.truthy (AchievementContent.or_else a d) = true.
Proof.
  intros H. unfold AchievementContent.or_else.
  by destruct (LanguageSwitcher.truthy a) eqn:E.
Qed.

(** X23. The content shown for an achievement card: a field the card
    supplies is never shown empty; in any language but German, and for a
    card without an achievement id, every field is the card's own; in
    German a field listed in the table under the card's id shows the text
    of the table whatever the card says, and a field not listed shows the
    card's. *)
Theorem translated_content_fields (lang : string) (card : AchievementContent.Card) :
  Forall2 (fun d c => LanguageSwitcher.truthy d = true ->
                      LanguageSwitcher.truthy c = true)
    (AchievementContent.dataset_fields card)
    (AchievementContent.fields (AchievementContent.getTranslatedContent lang card)) ∧
  (lang <> "de" \/
   LanguageSwitcher.truthy (AchievementContent.dataset_achievement card) = false ->
   AchievementContent.fields (AchievementContent.getTranslatedContent lang card)
   = AchievementContent.dataset_fields card) ∧
  (forall id, lang = "de" ->
     AchievementContent.dataset_achievement card = Some id -> id <> "" ->
     AchievementContent.fields (AchievementContent.getTranslatedContent lang card)
     = zip_with (fun field d =>
                   match AchievementContent.translated id field with
                   | Some v => Some v
                   | None => d
                   end)
         ["category"; "title"; "location"; "result"; "description"; "quote"]
         (AchievementContent.dataset_fields card)).
Proof.
  split; [|split].
  - unfold AchievementContent.getTranslatedContent.
    unfold AchievementContent.fields, AchievementContent.dataset_fields.
    destruct (_ && _); cbn;
      repeat (constructor; [intros H; try apply or_else_truthy; exact H|]);
      constructor.
  - intros H. unfold AchievementContent.getTranslatedContent.
    destruct H as [H|H].
    + by rewrite (bool_decide_eq_false_2 _ H).
    + by rewrite H, andb_false_r.
  - intros id -> Hid Hne. unfold AchievementContent.getTranslatedContent.
    rewrite Hid, truthy_Some by done. cbn.
    by rewrite !or_else_translated.
Qed.

Example translated_content_swiss :
  AchievementContent.fields
    (AchievementContent.getTranslatedContent "de"
       (AchievementContent.mkCard (Some "swiss") (Some "National")
          (Some "Swiss Championships") (Some "Switzerland") (Some "Champion")
          (Some "Two titles") (Some "Proud")))
  = [Some "Schweizer Meisterschaften"; Some "Schweizer Meisterschaften 2024";
     Some "Schweiz"; Some "Nationale Meisterin (WAKO & SCOS)";
     AchievementContent.translated "swiss" "description"; Some "Proud"].
Proof. vm_compute. reflexivity. Qed.

(** ** The thumbnail script *)

Import Thumbnails.

Lemma round_half_even_near (x : Q) :
  (inject_Z (round_half_even x) - (1 # 2) <= x <= inject_Z (round_half_even x) + (1 # 2))%Q.
Proof.
  unfold round_half_even.
  pose proof (Qfloor_le x) as Hl. pose proof (Qlt_floor x) as Hu.
  rewrite inject_Z_plus in Hu. change (inject_Z 1) with 1%Q in Hu.
  destruct (x - inject_Z (Qfloor x) ?= 1 # 2)%Q eqn:E.
  - apply Qeq_alt in E. destruct (Z.even (Qfloor x));
      rewrite ?inject_Z_plus; change (inject_Z 1) with 1%Q; lra.
  - apply Qlt_alt in E. lra.
  - apply Qgt_alt in E. rewrite inject_Z_plus. change (inject_Z 1) with 1%Q. lra.
Qed.

Lemma round_half_even_unique (x : Q) (n : Z) :
  (inject_Z n - (1 # 2) < x < inject_Z n + (1 # 2))%Q -> round_half_even x = n.
Proof.
  intros [H1 H2]. pose proof (round_half_even_near x) as [H3 H4].
  set (m := round_half_even x) in *.
  assert (Hlt : (inject_Z m < inject_Z (n + 1))%Q)
    by (rewrite inject_Z_plus; change (inject_Z 1) with 1%Q; lra).
  assert (Hgt : (inject_Z n < inject_Z (m + 1))%Q)
    by (rewrite inject_Z_plus; change (inject_Z 1) with 1%Q; lra).
  rewrite <- Zlt_Qlt in Hlt, Hgt. lia.
Qed.



Lemma Qmin_cases (x y : Q) :
  ((x <= y)%Q ∧ Qmin x y = x) \/ ((y <= x)%Q ∧ Qmin x y = y).
Proof.
  unfold Qmin, GenericMinMax.gmin.
  destruct (x ?= y)%Q eqn:E.
  - left. split; [|done]. apply Qeq_alt in E. lra.
  - left. split; [|done]. apply Qlt_alt in E. lra.
  - right. split; [|done]. apply Qgt_alt in E. lra.
Qed.

(** The quotient the script computes, times the divisor. *)
Lemma fdiv_bounds F (a b : Q) :
  standard_model F -> (0 <= a)%Q -> (0 < b)%Q ->
  ((1 - unit_roundoff) * a <= b * fdiv F a b <= (1 + unit_roundoff) * a)%Q.
Proof.
  intros [Hd _] Ha Hb. specialize (Hd a b Hb).
  assert (Ht : (b * (a / b) == a)%Q) by (field; lra).
  assert (Hpos : (0 <= a / b)%Q).
  { apply Qle_shift_div_l; lra. }
  rewrite (Qabs_pos (a / b)) in Hd by done.
  apply Qabs_Qle_condition in Hd as [H1 H2].
  set (t := (a / b)%Q) in *. set (q := fdiv F a b) in *.
  unfold unit_roundoff in *. split; nra.
Qed.

Lemma fmul_bounds F (a b : Q) :
  standard_model F -> (0 <= a * b)%Q ->
  ((1 - unit_roundoff) * (a * b) <= fmul F a b <= (1 + unit_roundoff) * (a * b))%Q.
Proof.
  intros [_ Hm] Hab. specialize (Hm a b).
  rewrite (Qabs_pos (a * b)) in Hm by done.
  apply Qabs_Qle_condition in Hm as [H1 H2].
  unfold unit_roundoff in *. split; lra.
Qed.

Lemma to_int32_small (x : Q) (n : Z) :
  round_half_even x = n -> -2147483648 <= n <= 2147483647 ->
  to_int32 x = Some n.
Proof.
  intros <- [H1 H2]. unfold to_int32. cbv zeta.
  apply Z.leb_le in H1, H2. by rewrite H1, H2.
Qed.

(** The product of a dimension and the ratio, when the ratio is the
    quotient for that dimension: 300 up to rounding, cast to 300. *)
Lemma scaled_major F (w r : Q) :
  standard_model F -> (0 < w)%Q ->
  ((1 - unit_roundoff) * 300 <= w * r <= (1 + unit_roundoff) * 300)%Q ->
  round_half_even (fmul F w r) = 300 ∧
  (Qabs (inject_Z 300 - w * r) <= 1 # 100)%Q.
Proof.
  intros HF Hw [H1 H2].
  assert (Hpos : (0 <= w * r)%Q) by (unfold unit_roundoff in *; lra).
  pose proof (fmul_bounds F w r HF Hpos) as [H3 H4].
  unfold unit_roundoff in *. split.
  - apply round_half_even_unique. change (inject_Z 300) with 300%Q. lra.
  - apply Qabs_Qle_condition. change (inject_Z 300) with 300%Q. lra.
Qed.


Lemma inject_Z_pos (n : Z) : 1 <= n -> (1 <= inject_Z n)%Q.
Proof. intros H. change 1%Q with (inject_Z 1). by rewrite <- Zle_Qle. Qed.


Lemma exact_standard_model : standard_model exact.
Proof.
  split; unfold exact; cbn [fdiv fmul].
  - intros a b _. pose proof (Qabs_nonneg (a / b)) as H.
    apply Qabs_Qle_condition. set (t := (a / b)%Q) in *.
    unfold unit_roundoff. split; lra.
  - intros a b. pose proof (Qabs_nonneg (a * b)) as H.
    apply Qabs_Qle_condition. set (t := (a * b)%Q) in *.
    unfold unit_roundoff. split; lra.
Qed.


(** ** The batch *)

Lemma process_count F dir r img :
  count (process F dir r img)
  = count r + (if produced F img then 1 else 0).
Proof.
  unfold process, produced.
  destruct (up_to_date img); cbn; [lia|].
  destruct (try_body F img); cbn; lia.
Qed.

Lemma process_saved F dir r img :
  map fst (saved (process F dir r img))
  = map fst (saved r)
    ++ (if produced F img then [thumbPath dir (Name img)] else []).
Proof.
  unfold process, produced.
  destruct (up_to_date img); cbn; [by rewrite app_nil_r|].
  destruct (try_body F img); cbn; [by rewrite app_nil_r|].
  by rewrite map_app.
Qed.

Lemma process_host_mono F dir r img line :
  line ∈ host r -> line ∈ host (process F dir r img).
Proof.
  intros H. unfold process.
  destruct (up_to_date img); cbn; [set_solver|].
  destruct (try_body F img); cbn; set_solver.
Qed.

Lemma loop_host_mono F dir files r line :
  line ∈ host r -> line ∈ host (loop F dir files r).
Proof.
  revert r. induction files as [|img files IH]; intros r H; [done|].
  cbn. by apply IH, process_host_mono.
Qed.

Lemma loop_count F dir files r :
  count (loop F dir files r)
  = count r + Z.of_nat (length (filter (fun img => produced F img = true) files)).
Proof.
  revert r. induction files as [|img files IH]; intros r; [cbn; lia|].
  change (loop F dir (img :: files) r) with (loop F dir files (process F dir r img)).
  rewrite IH, process_count, filter_cons.
  destruct (produced F img) eqn:E.
  - rewrite decide_True by done. cbn [length]. lia.
  - rewrite decide_False by done. lia.
Qed.

Lemma loop_saved F dir files r :
  map fst (saved (loop F dir files r))
  = map fst (saved r)
    ++ map (fun img => thumbPath dir (Name img))
           (filter (fun img => produced F img = true) files).
Proof.
  revert r. induction files as [|img files IH]; intros r.
  - cbn. by rewrite app_nil_r.
  - change (loop F dir (img :: files) r)
      with (loop F dir files (process F dir r img)).
    rewrite IH, process_saved, filter_cons.
    destruct (produced F img) eqn:E.
    + rewrite decide_True by done. cbn [map]. by rewrite <- app_assoc.
    + rewrite decide_False by done. by rewrite app_nil_r.
Qed.

(** The lines a file leaves on the host. *)
Lemma process_lines F dir r img :
  (if up_to_date img
   then "Skipping " +:+ Name img +:+ " (thumbnail up to date)"
   else "Creating thumbnail for: " +:+ Name img) ∈ host (process F dir r img) ∧
  (forall message, failed F img message ->
     ("  Error processing " +:+ Name img +:+ " : " +:+ message)
       ∈ host (process F dir r img)).
Proof.
  unfold process, failed. destruct (up_to_date img); cbn.
  - split; [set_solver|]. by intros m [? _].
  - destruct (try_body F img) as [m'|size]; cbn.
    + split; [set_solver|]. intros m [_ [= ->]]. set_solver.
    + split; [set_solver|]. by intros m [_ ?].
Qed.

Lemma loop_lines F dir files r img :
  img ∈ files ->
  (if up_to_date img
   then "Skipping " +:+ Name img +:+ " (thumbnail up to date)"
   else "Creating thumbnail for: " +:+ Name img) ∈ host (loop F dir files r) ∧
  (forall message, failed F img message ->
     ("  Error processing " +:+ Name img +:+ " : " +:+ message)
       ∈ host (loop F dir files r)).
Proof.
  revert r. induction files as [|x files IH]; intros r Hin.
  - by apply elem_of_nil in Hin.
  - apply elem_of_cons in Hin as [-> | Hin]; [|by apply IH].
    destruct (process_lines F dir r x) as [H1 H2]. cbn. split.
    + by apply loop_host_mono.
    + intros m Hm. by apply loop_host_mono, H2.
Qed.

(** A failure adds its two lines to the host and nothing else; the loop
    goes on with the files that follow. *)
Lemma loop_after_failure F dir before img after message r :
  failed F img message ->
  loop F dir (before ++ img :: after) r
  = loop F dir after
      (Write_Host ("  Error processing " +:+ Name img +:+ " : " +:+ message)
         (Write_Host ("Creating thumbnail for: " +:+ Name img)
            (loop F dir before r))).
Proof.
  intros [Hu Ht]. unfold loop. rewrite fold_left_app. cbn [fold_left].
  f_equal. unfold process. by rewrite Hu, Ht.
Qed.

(** C8. On every listing, the script visits each file in turn: a file
    that fails in the [try] block (unreadable, undecodable, of a size the
    bitmap refuses, or not saved) leaves a line with its name and the
    error on the host, changes neither the count nor the thumbnails
    saved, and the loop goes on with the files that follow; the count
    reported in the last line is the number of files for which a thumbnail
    was produced, skipped and failed files left out, and the thumbnails
    saved are those of these files, in order. *)
Theorem batch_continues_and_counts (F : FloatOps) (scriptDir : string)
    (imageFiles : list ImageFile) :
  count (main F scriptDir imageFiles)
  = Z.of_nat (length (filter (fun img => produced F img = true) imageFiles)) ∧
  map fst (saved (main F scriptDir imageFiles))
  = map (fun img => thumbPath scriptDir (Name img))
        (filter (fun img => produced F img = true) imageFiles) ∧
  last (host (main F scriptDir imageFiles))
  = Some (summary (count (main F scriptDir imageFiles))) ∧
  (forall img, img ∈ imageFiles ->
     (if up_to_date img
      then "Skipping " +:+ Name img +:+ " (thumbnail up to date)"
      else "Creating thumbnail for: " +:+ Name img)
       ∈ host (main F scriptDir imageFiles)) ∧
  (forall img message, img ∈ imageFiles -> failed F img message ->
     ("  Error processing " +:+ Name img +:+ " : " +:+ message)
       ∈ host (main F scriptDir imageFiles)) ∧
  (forall before img after message r,
     failed F img message ->
     loop F scriptDir (before ++ img :: after) r
     = loop F scriptDir after
         (Write_Host ("  Error processing " +:+ Name img +:+ " : " +:+ message)
            (Write_Host ("Creating thumbnail for: " +:+ Name img)
               (loop F scriptDir before r)))).
Proof.
  unfold main.
  set (r := loop F scriptDir imageFiles (mkRun 0 [] [])).
  cbn [count saved host Write_Host].
  split; [subst r; by rewrite loop_count|].
  split; [subst r; by rewrite loop_saved|].
  split; [by rewrite last_snoc|].
  split; [|split].
  - intros img Hin. destruct (loop_lines F scriptDir _ (mkRun 0 [] []) img Hin)
      as [H _]. fold r in H. set_solver.
  - intros img m Hin Hf.
    destruct (loop_lines F scriptDir _ (mkRun 0 [] []) img Hin) as [_ H].
    specialize (H m Hf). fold r in H. set_solver.
  - intros. by apply loop_after_failure.
Qed.

Lemma batch_continues_and_counts_witness :
  count (main exact "C:\site\images" sample_files) = 2 ∧
  "  Error processing b.png : Parameter is not valid."
    ∈ host (main exact "C:\site\images" sample_files).
Proof.
  destruct (batch_continues_and_counts exact "C:\site\images" sample_files)
    as (H1 & _ & _ & _ & H5 & _).
  split; [exact H1|].
  apply (H5 (mkImageFile "b.png" 10 None (Undecodable "Parameter is not valid.") None)
            "Parameter is not valid.").
  - unfold sample_files. set_solver.
  - split; reflexivity.
Defined.

(** The scenario in the machine's own arithmetic: binary64 division and
    multiplication give 300 by 200 for a source of 1200 by 800, and a few
    other sizes come out as the model says. *)
Example new_size_binary64_scenario :
  new_size_binary64 1200 800 = Some (300, 200) ∧
  new_size_binary64 800 1200 = Some (200, 300) ∧
  new_size_binary64 1000 3 = Some (300, 1) ∧
  new_size_binary64 100 50 = Some (300, 150) ∧
  new_size_binary64 4032 3024 = Some (300, 225).
Proof. vm_compute. repeat split. Qed.

(** ** Further properties of the thumbnail script *)

(** The product of the shorter side and the ratio when the longer side is
    more than 600 times the shorter one: below one half, cast to 0. *)
Lemma new_size_scaled_thin F (L S : Q) (r : Q) :
  standard_model F ->
  (1 <= S)%Q -> (600 * S + 1 <= L)%Q -> (L <= 2147483647)%Q ->
  ((1 - unit_roundoff) * 300 <= L * r <= (1 + unit_roundoff) * 300)%Q ->
  round_half_even (fmul F S r) = 0.
Proof.
  intros HF HS HL HM [H1 H2]. unfold unit_roundoff in *.
  assert (Hr : (0 <= r)%Q) by nra.
  assert (Hr' : (2147483647 * r >= 299)%Q) by nra.
  assert (Ht : (0 <= S * r)%Q) by nra.
  assert (Hu : (600 * (S * r) <= L * r - r)%Q) by nra.
  pose proof (fmul_bounds F S r HF Ht) as [M1 M2]. unfold unit_roundoff in *.
  apply round_half_even_unique. change (inject_Z 0) with 0%Q.
  set (t := (S * r)%Q) in *. set (P := (L * r)%Q) in *.
  split; lra.
Qed.

(** The quotient for the longer side is the smaller one. *)
Lemma ratio_of_longer F (L S : Q) :
  standard_model F ->
  (1 <= S)%Q -> (600 * S + 1 <= L)%Q ->
  (fdiv F 300 L <= fdiv F 300 S)%Q.
Proof.
  intros HF HS HL.
  pose proof (fdiv_bounds F 300 L HF ltac:(lra) ltac:(lra)) as [X1 X2].
  pose proof (fdiv_bounds F 300 S HF ltac:(lra) ltac:(lra)) as [Y1 Y2].
  unfold unit_roundoff in *.
  set (rx := fdiv F 300 L) in *. set (ry := fdiv F 300 S) in *.
  destruct (Qlt_le_dec ry rx) as [Hlt|]; [|done]. exfalso.
  assert (0 < ry)%Q by nra.
  assert (600 * (S * ry) <= L * rx)%Q by nra.
  lra.
Qed.

Lemma inject_Z_le_max (n : Z) : n <= 2147483647 -> (inject_Z n <= 2147483647)%Q.
Proof.
  intros H. change 2147483647%Q with (inject_Z 2147483647). by rewrite <- Zle_Qle.
Qed.

Lemma inject_Z_thin (w h : Z) :
  600 * h < w -> (600 * inject_Z h + 1 <= inject_Z w)%Q.
Proof.
  intros H. assert (H' : 600 * h + 1 <= w) by lia.
  rewrite Zle_Qle, inject_Z_plus, inject_Z_mult in H'. exact H'.
Qed.

Lemma new_size_wide F (w h : Z) :
  standard_model F -> 1 <= h -> 600 * h < w -> w <= 2147483647 ->
  new_size F w h = Some (300, 0).
Proof.
  intros HF Hh Hw Hm.
  pose proof (inject_Z_pos _ Hh) as HH. pose proof (inject_Z_thin _ _ Hw) as HW.
  pose proof (inject_Z_le_max _ Hm) as HM.
  set (W := inject_Z w) in *. set (H := inject_Z h) in *.
  pose proof (fdiv_bounds F 300 W HF ltac:(lra) ltac:(lra)) as X.
  pose proof (ratio_of_longer F W H HF HH HW) as Hle.
  unfold new_size, ratio. change (inject_Z MaxSize) with 300%Q. fold W H.
  set (rx := fdiv F 300 W) in *. set (ry := fdiv F 300 H) in *.
  assert (X' : ((1 - unit_roundoff) * 300 <= W * Qmin rx ry
                <= (1 + unit_roundoff) * 300)%Q).
  { destruct (Qmin_cases rx ry) as [[_ ->]|[L ->]]; [done|].
    unfold unit_roundoff in *. split; nra. }
  destruct (scaled_major F W _ HF ltac:(lra) X') as [Rw _].
  rewrite (to_int32_small _ 300 Rw) by lia.
  rewrite (to_int32_small _ 0 (new_size_scaled_thin F W H _ HF HH HW HM X')) by lia.
  done.
Qed.

Lemma new_size_tall F (w h : Z) :
  standard_model F -> 1 <= w -> 600 * w < h -> h <= 2147483647 ->
  new_size F w h = Some (0, 300).
Proof.
  intros HF Hw Hh Hm.
  pose proof (inject_Z_pos _ Hw) as HW. pose proof (inject_Z_thin _ _ Hh) as HH.
  pose proof (inject_Z_le_max _ Hm) as HM.
  set (W := inject_Z w) in *. set (H := inject_Z h) in *.
  pose proof (fdiv_bounds F 300 H HF ltac:(lra) ltac:(lra)) as Y.
  pose proof (ratio_of_longer F H W HF HW HH) as Hle.
  unfold new_size, ratio. change (inject_Z MaxSize) with 300%Q. fold W H.
  set (rx := fdiv F 300 W) in *. set (ry := fdiv F 300 H) in *.
  assert (Y' : ((1 - unit_roundoff) * 300 <= H * Qmin rx ry
                <= (1 + unit_roundoff) * 300)%Q).
  { destruct (Qmin_cases rx ry) as [[L ->]|[_ ->]]; [|done].
    unfold unit_roundoff in *. split; nra. }
  destruct (scaled_major F H _ HF ltac:(lra) Y') as [Rh _].
  rewrite (to_int32_small _ 0 (new_size_scaled_thin F H W _ HF HW HH HM Y')) by lia.
  rewrite (to_int32_small _ 300 Rh) by lia.
  done.
Qed.

(** X24. An image whose longer side is more than 600 times its shorter
    side gets no thumbnail: the shorter side scales to 0, the [Bitmap]
    constructor refuses the size, and the file is reported as an error
    and not counted. *)
Theorem extreme_aspect_ratio_fails (F : FloatOps) (img : ImageFile) (w h : Z) :
  standard_model F ->
  source img = Image w h ->
  1 <= w <= 2147483647 ->
  1 <= h <= 2147483647 ->
  600 * h < w \/ 600 * w < h ->
  try_body F img = inl "Parameter is not valid." ∧
  produced F img = false.
Proof.
  intros HF Hs Hw Hh Hr.
  assert (E : try_body F img = inl "Parameter is not valid.").
  { unfold try_body. rewrite Hs.
    rewrite (proj2 (Z.eqb_neq w 0)), (proj2 (Z.eqb_neq h 0)) by lia.
    cbn [orb]. destruct Hr as [Hr|Hr].
    - by rewrite new_size_wide by (done || lia).
    - by rewrite new_size_tall by (done || lia). }
  split; [done|]. unfold produced. rewrite E. apply andb_false_r.
Qed.

Lemma extreme_aspect_ratio_fails_witness :
  try_body exact (mkImageFile "banner.png" 10 None (Image 1205 2) None)
  = inl "Parameter is not valid.".
Proof.
  refine (proj1 (extreme_aspect_ratio_fails exact
                   (mkImageFile "banner.png" 10 None (Image 1205 2) None)
                   1205 2 exact_standard_model eq_refl _ _ _)); lia.
Defined.








